(** * XBee API-frame codec: shallow embedding and verified properties

    The development follows the three source files of the repository:

    - [xbee/xbee_templates.py]: the schema table [templates] and the generic
      [pack_message] / [unpack_message] / [explain_message] routines built on
      Python's [struct] module;
    - [xbee/xbee.py]: checksum, escaping, framing ([_prepare_write]), the
      serial reader ([_read_if_available], [read]), the frame-id wait loops
      and the paced [write];
    - [nasa_sl.py] only calls these and is not modelled.

    Bytes are integers in [0, 255] held in [Z]; a Python [bytes] object is a
    [list Z].  Python exceptions are the constructors of [error]; a function
    that may raise returns a [result]. *)

From Stdlib Require Import ZArith List String Ascii Bool Lia.
Import ListNotations.
Open Scope Z_scope.

(* ================================================================== *)
(** ** Python exceptions, results, values *)

Inductive error : Type :=
| AssertionError        (* a failed [assert] *)
| IndexError            (* sequence index out of range *)
| KeyError              (* missing dict key *)
| ValueError            (* e.g. [bytes([256])] *)
| TypeError
| StructError           (* [struct.error] *)
| UnicodeDecodeError
| UnicodeEncodeError
| BytesLost             (* [Exception("Bytes lost")] *)
| SerialTimeout         (* [Exception("Serial Timeout")] *)
| ChecksumIncorrect     (* [Exception("Checksum incorrect")] *)
| UnrecognizedMessage   (* [Exception('Unrecognized message!')] *)
| DiscardedValidPacket. (* [Exception("Discarded valid packet!")] *)

Inductive result (A : Type) : Type :=
| Ok (a : A)
| Raise (e : error).

Arguments Ok {A} a.
Arguments Raise {A} e.

Definition bind {A B : Type} (m : result A) (k : A -> result B) : result B :=
  match m with
  | Ok a => k a
  | Raise e => Raise e
  end.

Notation "x <- m ;; k" := (bind m (fun x => k))
  (at level 61, m at next level, right associativity).
Notation "' pat <- m ;; k" := (bind m (fun x => match x with pat => k end))
  (at level 61, pat pattern, m at next level, right associativity).

(** The Python objects that flow through the codec: [int], [str] (a sequence
    of code points), [bytes] and [None]. *)
Inductive value : Type :=
| VInt (n : Z)
| VStr (s : list Z)
| VBytes (b : list Z)
| VNone.

(** Python [==] on these objects: objects of different types are unequal. *)
Fixpoint list_Z_eqb (a b : list Z) : bool :=
  match a, b with
  | [], [] => true
  | x :: a', y :: b' => (x =? y) && list_Z_eqb a' b'
  | _, _ => false
  end.

Definition py_eqb (a b : value) : bool :=
  match a, b with
  | VInt x, VInt y => x =? y
  | VStr x, VStr y => list_Z_eqb x y
  | VBytes x, VBytes y => list_Z_eqb x y
  | VNone, VNone => true
  | _, _ => false
  end.

Definition len {A : Type} (l : list A) : Z := Z.of_nat (List.length l).

(** [l[i] = v] for an index in range (all list stores of the source are). *)
Fixpoint list_set {A : Type} (l : list A) (i : nat) (v : A) : list A :=
  match l, i with
  | [], _ => []
  | _ :: r, O => v :: r
  | x :: r, S i' => x :: list_set r i' v
  end.

(** [l[i]] with Python's [IndexError]. *)
Definition index {A : Type} (l : list A) (i : nat) : result A :=
  match nth_error l i with
  | Some a => Ok a
  | None => Raise IndexError
  end.

Fixpoint mapM {A B : Type} (f : A -> result B) (l : list A) : result (list B) :=
  match l with
  | [] => Ok []
  | a :: r => b <- f a ;; bs <- mapM f r ;; Ok (b :: bs)
  end.

(** [str] objects of the table, as code-point sequences. *)
Definition code_points (s : string) : list Z :=
  map (fun a => Z.of_N (N_of_ascii a)) (list_ascii_of_string s).

(** [bytes.decode('utf8')] (strict): shortest-form sequences only, no
    surrogates, nothing above U+10FFFF. *)
Definition is_cont (b : Z) : bool := (0x80 <=? b) && (b <=? 0xBF).

Fixpoint utf8_decode (bs : list Z) : result (list Z) :=
  match bs with
  | [] => Ok []
  | b0 :: r0 =>
    if b0 <? 0x80 then
      cps <- utf8_decode r0 ;; Ok (b0 :: cps)
    else if (0xC2 <=? b0) && (b0 <=? 0xDF) then
      match r0 with
      | b1 :: r1 =>
        if is_cont b1 then
          cps <- utf8_decode r1 ;;
          Ok ((b0 - 0xC0) * 64 + (b1 - 0x80) :: cps)
        else Raise UnicodeDecodeError
      | _ => Raise UnicodeDecodeError
      end
    else if (0xE0 <=? b0) && (b0 <=? 0xEF) then
      match r0 with
      | b1 :: b2 :: r2 =>
        if is_cont b1 && is_cont b2
           && negb ((b0 =? 0xE0) && (b1 <? 0xA0))
           && negb ((b0 =? 0xED) && (0xA0 <=? b1)) then
          cps <- utf8_decode r2 ;;
          Ok ((b0 - 0xE0) * 4096 + (b1 - 0x80) * 64 + (b2 - 0x80) :: cps)
        else Raise UnicodeDecodeError
      | _ => Raise UnicodeDecodeError
      end
    else if (0xF0 <=? b0) && (b0 <=? 0xF4) then
      match r0 with
      | b1 :: b2 :: b3 :: r3 =>
        if is_cont b1 && is_cont b2 && is_cont b3
           && negb ((b0 =? 0xF0) && (b1 <? 0x90))
           && negb ((b0 =? 0xF4) && (0x90 <=? b1)) then
          cps <- utf8_decode r3 ;;
          Ok ((b0 - 0xF0) * 262144 + (b1 - 0x80) * 4096
              + (b2 - 0x80) * 64 + (b3 - 0x80) :: cps)
        else Raise UnicodeDecodeError
      | _ => Raise UnicodeDecodeError
      end
    else Raise UnicodeDecodeError
  end.

(* ================================================================== *)
(** ** Python's [struct] module, for the formats the codec builds

    The source builds a format string [">B"], then appends ["B"], ["H"],
    ["Q"] or [str(n) + "c"].  The string is kept as the list of its items;
    [Fc n] is the item [str(n) + "c"], whose count may come out negative
    (then [struct] rejects the format).  The leading [">"] selects
    big-endian, unpadded layout. *)

Inductive fmt_item : Type :=
| FB             (* "B": unsigned 8 bit  *)
| FH             (* "H": unsigned 16 bit *)
| FQ             (* "Q": unsigned 64 bit *)
| Fc (n : Z).    (* str(n) + "c": n single chars *)

Definition item_size (it : fmt_item) : result Z :=
  match it with
  | FB => Ok 1
  | FH => Ok 2
  | FQ => Ok 8
  | Fc n => if n <? 0 then Raise StructError else Ok n
  end.

Fixpoint calcsize (fmt : list fmt_item) : result Z :=
  match fmt with
  | [] => Ok 0
  | it :: r => a <- item_size it ;; b <- calcsize r ;; Ok (a + b)
  end.

(** Big-endian value of a byte sequence, and the [n]-byte big-endian
    representation of an integer. *)
Definition be_value (bs : list Z) : Z :=
  fold_left (fun acc b => acc * 256 + b) bs 0.

Fixpoint be_bytes (n : nat) (x : Z) : list Z :=
  match n with
  | O => []
  | S n' => be_bytes n' (x / 256) ++ [x mod 256]
  end.

Definition item_width (it : fmt_item) : nat :=
  match it with
  | FB => 1%nat
  | FH => 2%nat
  | FQ => 8%nat
  | Fc n => Z.to_nat n
  end.

Fixpoint unpack_items (fmt : list fmt_item) (buf : list Z) : list value :=
  match fmt with
  | [] => []
  | Fc n :: r =>
    map (fun b => VBytes [b]) (firstn (Z.to_nat n) buf)
    ++ unpack_items r (skipn (Z.to_nat n) buf)
  | it :: r =>
    VInt (be_value (firstn (item_width it) buf))
    :: unpack_items r (skipn (item_width it) buf)
  end.

(** [struct.unpack(fmt, buffer)]: the buffer must have exactly the size the
    format describes. *)
Definition struct_unpack (fmt : list fmt_item) (buf : list Z)
  : result (list value) :=
  size <- calcsize fmt ;;
  if len buf =? size then Ok (unpack_items fmt buf) else Raise StructError.

Definition pack_int (n : nat) (v : value) : result (list Z) :=
  match v with
  | VInt x =>
    if (0 <=? x) && (x <? 256 ^ Z.of_nat n) then Ok (be_bytes n x)
    else Raise StructError
  | _ => Raise StructError
  end.

Fixpoint pack_chars (n : nat) (args : list value)
  : result (list Z * list value) :=
  match n with
  | O => Ok ([], args)
  | S n' =>
    match args with
    | VBytes [b] :: r =>
      '(bs, rest) <- pack_chars n' r ;; Ok (b :: bs, rest)
    | _ => Raise StructError
    end
  end.

(** [struct.pack(fmt, *args)]: one argument per item ([n] for [Fc n]), each
    of the item's type and range, and none left over. *)
Fixpoint struct_pack (fmt : list fmt_item) (args : list value)
  : result (list Z) :=
  match fmt with
  | [] =>
    match args with
    | [] => Ok []
    | _ => Raise StructError
    end
  | Fc n :: r =>
    if n <? 0 then Raise StructError else
    '(bs, rest) <- pack_chars (Z.to_nat n) args ;;
    tl <- struct_pack r rest ;;
    Ok (bs ++ tl)
  | it :: r =>
    match args with
    | [] => Raise StructError
    | a :: rest =>
      bs <- pack_int (item_width it) a ;;
      tl <- struct_pack r rest ;;
      Ok (bs ++ tl)
    end
  end.

(* ================================================================== *)
(** ** [xbee_templates.py]: the schema table

    A table entry is the Python list [[name, field_1, ..., field_n]]; a field
    is [[name, start, length, datatype]] with an optional fifth element.
    [fextra] holds whatever follows the fourth element, so that
    [len(field) >= 5] is [fextra <> []] and [field[4]] its head. *)

Record field : Type := Field {
  fname : string;        (* field[0] *)
  fstart : Z;            (* field[1]: offset in the wire frame *)
  flen : Z;              (* field[2]: length in bytes, -1 if variable *)
  ftype : string;        (* field[3] *)
  fextra : list string   (* field[4:] *)
}.

Record template : Type := Template {
  tname : string;            (* template[0] *)
  tfields : list field       (* template[1:] *)
}.

Definition templates : list (Z * template) :=
  [ (0x08, Template "AT Command Frame"
      [ Field "Frame ID" 4 1 "uint8_t" [];
        Field "AT Command" 5 2 "str" [];
        Field "Parameter Value" 7 (-1) "bytes" ["optional"%string] ]);
    (0x09, Template "AT Command Queue Parameter Value Frame"
      [ Field "Frame ID" 4 1 "uint8_t" [];
        Field "AT Command" 5 2 "str" [];
        Field "Parameter Value" 7 (-1) "optional" [] ]);
    (0x10, Template "Transmit Request Frame"
      [ Field "Frame ID" 4 1 "uint8_t" [];
        Field "Destination Address" 5 8 "uint64_t" [];
        Field "Reserved" 13 2 "uint16_t" [];
        Field "Broadcast Radius" 15 1 "uint8_t" [];
        Field "Transmit Options" 16 1 "uint8_t" [];
        Field "RF data" 17 (-1) "bytes" [] ]);
    (0x11, Template "Explicit Addressing Command Frame"
      [ Field "Frame ID" 4 1 "uint8_t" [];
        Field "Destination Address" 5 8 "uint64_t" [];
        Field "Reserved" 13 2 "uint16_t" [];
        Field "Source endpoint" 15 1 "uint8_t" [];
        Field "Destination endpoint" 16 1 "uint8_t" [];
        Field "Cluster ID" 17 2 "uint16_t" [];
        Field "Profile ID" 19 2 "uint16_t" [];
        Field "Broadcast Radius" 21 1 "uint8_t" [];
        Field "Transmit Options" 22 1 "uint8_t" [];
        Field "RF data" 23 (-1) "bytes" [] ]);
    (0x17, Template "Remote AT Command Request Frame"
      [ Field "Frame ID" 4 1 "uint8_t" [];
        Field "Destination Address" 5 8 "uint64_t" [];
        Field "Reserved" 13 2 "uint16_t" [];
        Field "Remote Command Options" 15 1 "uint8_t" [];
        Field "AT command" 16 2 "str" [];
        Field "Command Parameter" 18 (-1) "bytes" ["optional"%string] ]);
    (0x88, Template "AT Command Response Frame"
      [ Field "Frame ID" 4 1 "uint8_t" [];
        Field "AT Command" 5 2 "str" [];
        Field "Command Status" 7 1 "uint8_t" [];
        Field "Command Data" 8 (-1) "bytes" ["optional"%string] ]);
    (0x89, Template "TX Status Frame"
      [ Field "Frame ID" 4 1 "uint8_t" [];
        Field "Status" 5 1 "uint8_t" [] ]);
    (0x8A, Template "Modem Status Frame"
      [ Field "Status" 4 1 "uint8_t" [] ]);
    (0x8B, Template "Transmit Status Frame"
      [ Field "Frame ID" 4 1 "uint8_t" [];
        Field "Reserved" 5 2 "uint16_t" [];
        Field "Transmit Retry Count" 7 1 "uint8_t" [];
        Field "Delivery Status" 8 1 "uint8_t" [];
        Field "Discovery Status" 9 1 "uint8_t" [] ]);
    (0x90, Template "Receive Packet Frame"
      [ Field "Source Address" 4 8 "uint64_t" [];
        Field "Reserved" 12 2 "uint16_t" [];
        Field "Receive options" 14 1 "uint8_t" [];
        Field "Received data" 15 (-1) "bytes" [] ]);
    (0x91, Template "Explicit Rx Indicator Frame"
      [ Field "Source Address" 4 8 "uint64_t" [];
        Field "Reserved" 12 2 "uint16_t" [];
        Field "Source endpoint" 14 1 "uint8_t" [];
        Field "Destination endpoint" 15 1 "uint8_t" [];
        Field "Cluster ID" 16 2 "uint16_t" [];
        Field "Profile ID" 18 2 "uint16_t" [];
        Field "Receive options" 20 1 "uint8_t" [];
        Field "Received data" 21 (-1) "bytes" [] ]);
    (0x97, Template "Remote Command Response Frame"
      [ Field "Frame ID" 4 1 "uint8_t" [];
        Field "Destination Address" 5 8 "uint64_t" [];
        Field "Reserved" 13 2 "uint16_t" [];
        Field "AT command" 15 2 "str" [];
        Field "Command Status" 17 1 "uint8_t" [];
        Field "Command Parameter" 18 (-1) "bytes" [] ]) ].

(** [self.templates[bytes([tag])]] and [bytes([tag]) in self.templates]. *)
Fixpoint lookup (tag : Z) (table : list (Z * template)) : option template :=
  match table with
  | [] => None
  | (k, t) :: r => if k =? tag then Some t else lookup tag r
  end.

Definition get_template (tag : Z) : result template :=
  match lookup tag templates with
  | Some t => Ok t
  | None => Raise KeyError
  end.

(** [can_process(message)]. *)
Definition can_process (message : list Z) : result bool :=
  m0 <- index message 0 ;;
  Ok (match lookup m0 templates with Some _ => true | None => false end).

(** [template[component][3]]: for [component = 0] the entry is the name
    string and the result its fourth character; otherwise the field's
    datatype. *)
Definition entry3 (t : template) (component : Z) : result string :=
  if component =? 0 then
    if (3 <? String.length (tname t))%nat
    then Ok (String.substring 3 1 (tname t)) else Raise IndexError
  else
    f <- index (tfields t) (Z.to_nat (component - 1)) ;; Ok (ftype f).

Definition is_optional (f : field) : bool :=
  match fextra f with
  | e :: _ => String.eqb e "optional"
  | [] => false
  end.

(** The body of the loop of [generate_struct_decode], for the fields from
    index [component] on. *)
Fixpoint decode_fields (message_len : Z) (component : Z) (fields : list field)
  (type_string : list fmt_item) (mask_string : list Z)
  : list fmt_item * list Z :=
  match fields with
  | [] => (type_string, mask_string)
  | f :: rest =>
    let component_start := fstart f in
    let component_length := flen f in
    let component_type := ftype f in
    if String.eqb component_type "bytes" || String.eqb component_type "str"
    then
      let byte_length :=
        if is_optional f || (component_length =? -1)
        then message_len + 3 - component_start
        else component_length in
      if negb (is_optional f && (byte_length =? 0)) then
        decode_fields message_len (component + 1) rest
          (type_string ++ [Fc byte_length])
          (mask_string ++ repeat component (Z.to_nat byte_length))
      else
        decode_fields message_len (component + 1) rest type_string mask_string
    else if String.eqb component_type "uint64_t" then
      decode_fields message_len (component + 1) rest
        (type_string ++ [FQ]) (mask_string ++ [component])
    else if String.eqb component_type "uint16_t" then
      decode_fields message_len (component + 1) rest
        (type_string ++ [FH]) (mask_string ++ [component])
    else if String.eqb component_type "uint8_t" then
      decode_fields message_len (component + 1) rest
        (type_string ++ [FB]) (mask_string ++ [component])
    else
      decode_fields message_len (component + 1) rest type_string mask_string
  end.

Definition generate_struct_decode (message : list Z)
  : result (list fmt_item * list Z) :=
  ok <- can_process message ;;
  if negb ok then Raise AssertionError else
  m0 <- index message 0 ;;
  template <- get_template m0 ;;
  Ok (decode_fields (len message) 1 (tfields template) [FB] [0]).

(** [np_mask.max()]. *)
Definition np_max (mask : list Z) : result Z :=
  match mask with
  | [] => Raise ValueError
  | m :: r => Ok (fold_left Z.max r m)
  end.

(** [np.where(np_mask == v)[0]], counting positions from [i]. *)
Fixpoint np_where (mask : list Z) (v : Z) (i : nat) : list nat :=
  match mask with
  | [] => []
  | m :: r => if m =? v then i :: np_where r v (S i) else np_where r v (S i)
  end.

(** [b''.join(values)]. *)
Fixpoint join_bytes (values : list value) : result (list Z) :=
  match values with
  | [] => Ok []
  | VBytes b :: r => bs <- join_bytes r ;; Ok (b ++ bs)
  | _ => Raise TypeError
  end.

(** [int(v)] for the objects [struct.unpack] yields for integer items. *)
Definition py_int (v : value) : result value :=
  match v with
  | VInt n => Ok (VInt n)
  | _ => Raise ValueError
  end.

(** One iteration of the loop of [unpack_message]. *)
Definition unpack_component (t : template) (mask_string : list Z)
  (data_array : list value) (result_array : list value) (component_idx : Z)
  : result (list value) :=
  let indexes := np_where mask_string component_idx 0 in
  values <- mapM (index data_array) indexes ;;
  ty <- entry3 t component_idx ;;
  let i := Z.to_nat component_idx in
  if 1 <? len values then
    if String.eqb ty "str" then
      joined <- join_bytes values ;;
      s <- utf8_decode joined ;;
      Ok (list_set result_array i (VStr s))
    else if String.eqb ty "bytes" then
      joined <- join_bytes values ;;
      Ok (list_set result_array i (VBytes joined))
    else Ok result_array
  else
    if String.eqb ty "uint64_t" then
      v0 <- index values 0 ;; n <- py_int v0 ;;
      Ok (list_set result_array i n)
    else if String.eqb ty "uint8_t" then
      v0 <- index values 0 ;; n <- py_int v0 ;;
      Ok (list_set result_array i n)
    else
      v0 <- index values 0 ;;
      Ok (list_set result_array i v0).

Fixpoint unpack_loop (t : template) (mask_string : list Z)
  (data_array : list value) (idxs : list Z) (result_array : list value)
  : result (list value) :=
  match idxs with
  | [] => Ok result_array
  | component_idx :: r =>
    result_array' <-
      unpack_component t mask_string data_array result_array component_idx ;;
    unpack_loop t mask_string data_array r result_array'
  end.

(** [range(n)] as integers. *)
Definition range (n : Z) : list Z := map Z.of_nat (seq 0 (Z.to_nat n)).

Definition unpack_message (message : list Z) : result (list value) :=
  '(type_string, mask_string) <- generate_struct_decode message ;;
  data_array <- struct_unpack type_string message ;;
  m0 <- index message 0 ;;
  template <- get_template m0 ;;
  mx <- np_max mask_string ;;
  let result_array := repeat (VStr []) (Z.to_nat (mx + 1)) in
  unpack_loop template mask_string data_array (range (mx + 1)) result_array.

(** A Python [dict] with [str] keys, in insertion order. *)
Definition dict : Type := list (string * value).

Fixpoint dict_set (d : dict) (k : string) (v : value) : dict :=
  match d with
  | [] => [(k, v)]
  | (k', v') :: r =>
    if String.eqb k' k then (k', v) :: r else (k', v') :: dict_set r k v
  end.

Fixpoint dict_get (d : dict) (k : string) : option value :=
  match d with
  | [] => None
  | (k', v') :: r => if String.eqb k' k then Some v' else dict_get r k
  end.

(** The loop of [explain_message], for the fields from index [i] on. *)
Fixpoint explain_fields (data_array : list value) (i : Z)
  (fields : list field) (explanation : dict) : dict :=
  match fields with
  | [] => explanation
  | f :: rest =>
    if i <? len data_array then
      explain_fields data_array (i + 1) rest
        (dict_set explanation (fname f)
           (nth (Z.to_nat i) data_array VNone))
    else
      explain_fields data_array (i + 1) rest
        (dict_set explanation (fname f) VNone)
  end.

Definition explain_message (message : list Z) : result dict :=
  data_array <- unpack_message message ;;
  m0 <- index message 0 ;;
  template <- get_template m0 ;;
  let explanation := [("Name"%string, VStr (code_points (tname template)))] in
  Ok (explain_fields data_array 1 (tfields template) explanation).

(** [bytes([x])]. *)
Definition bytes_of_int (v : value) : result (list Z) :=
  match v with
  | VInt n => if (0 <=? n) && (n <? 256) then Ok [n] else Raise ValueError
  | _ => Raise TypeError
  end.

(** The loop of [generate_struct_encode] over [range(1, num_args)]; [args]
    holds the arguments from index [component] on and [fields] the table
    entries from the same index on. *)
Fixpoint encode_fields (fields : list field) (args : list value)
  (type_string : list fmt_item) : result (list fmt_item) :=
  match args with
  | [] => Ok type_string
  | arg :: args' =>
    match fields with
    | [] => Raise IndexError             (* template[component] *)
    | f :: fields' =>
      let component_type := ftype f in
      if String.eqb component_type "bytes" || String.eqb component_type "str"
      then
        let byte_length :=
          match arg with
          | VBytes b => len b
          | _ => 1
          end in
        encode_fields fields' args' (type_string ++ [Fc byte_length])
      else if String.eqb component_type "uint64_t" then
        encode_fields fields' args' (type_string ++ [FQ])
      else if String.eqb component_type "uint16_t" then
        encode_fields fields' args' (type_string ++ [FH])
      else if String.eqb component_type "uint8_t" then
        encode_fields fields' args' (type_string ++ [FB])
      else
        encode_fields fields' args' type_string
    end
  end.

Definition generate_struct_encode (args : list value)
  : result (list fmt_item) :=
  a0 <- index args 0 ;;
  template_type <- bytes_of_int a0 ;;
  ok <- can_process template_type ;;
  if negb ok then Raise AssertionError else
  m0 <- index template_type 0 ;;
  template <- get_template m0 ;;
  encode_fields (tfields template) (tl args) [FB].

(** [sub_arg.encode('ascii')] for each character of a [str] argument. *)
Fixpoint encode_ascii (s : list Z) : result (list value) :=
  match s with
  | [] => Ok []
  | c :: r =>
    if c <? 128 then bs <- encode_ascii r ;; Ok (VBytes [c] :: bs)
    else Raise UnicodeEncodeError
  end.

(** The loop of [pack_message] over [range(len(args))]. *)
Fixpoint pack_args (t : template) (arg_idx : Z) (args : list value)
  (out_args : list value) : result (list value) :=
  match args with
  | [] => Ok out_args
  | arg :: rest =>
    this_type <- entry3 t arg_idx ;;
    match arg with
    | VStr s =>
      bs <- encode_ascii s ;;
      pack_args t (arg_idx + 1) rest (out_args ++ bs)
    | VBytes b =>
      pack_args t (arg_idx + 1) rest
        (out_args ++ map (fun x => VBytes [x]) b)
    | VInt n =>
      if String.eqb this_type "bytes" then
        b <- bytes_of_int arg ;;
        pack_args t (arg_idx + 1) rest (out_args ++ [VBytes b])
      else pack_args t (arg_idx + 1) rest (out_args ++ [arg])
    | VNone => pack_args t (arg_idx + 1) rest (out_args ++ [arg])
    end
  end.

Definition pack_message (args : list value) : result (list Z) :=
  a0 <- index args 0 ;;
  template_type <- bytes_of_int a0 ;;
  ok <- can_process template_type ;;
  if negb ok then Raise AssertionError else
  struct_string <- generate_struct_encode args ;;
  m0 <- index template_type 0 ;;
  template <- get_template m0 ;;
  out_args <- pack_args template 0 args [] ;;
  struct_pack struct_string out_args.

(* ================================================================== *)
(** ** [xbee.py]: checksum, escaping, framing *)

(** [np.frombuffer(message, dtype='uint8').sum()]. *)
Definition np_sum (message : list Z) : Z := fold_left Z.add message 0.

(** [_generate_checksum(message)]: a one-byte [bytes] object. *)
Definition _generate_checksum (message : list Z) : list Z :=
  [0xFF - Z.land (np_sum message) 0xFF].

(** [_validate_checksum(message)]; [message] includes the checksum. *)
Definition _validate_checksum (message : list Z) : result bool :=
  let checksum := 0xFF - Z.land (np_sum (removelast message)) 0xFF in
  last_byte <- index message (List.length message - 1) ;;
  Ok (checksum =? last_byte).

(** [_escape(message)]: the loop appends to the buffer [escaped]. *)
Definition _escape (message : list Z) : list Z :=
  fold_left
    (fun escaped byte =>
       if (byte =? 0x7E) || (byte =? 0x7D) || (byte =? 0x11) || (byte =? 0x13)
       then escaped ++ ([0x7D] ++ [Z.lxor byte 0x20])
       else escaped ++ [byte])
    message [].

(** [_prepare_write(message)]. *)
Definition _prepare_write (message : list Z) : list Z :=
  let length := len message in
  let l_upr := Z.land (Z.shiftr length 8) 0xFF in
  let l_lwr := Z.land length 0xFF in
  let frame := [0x7E; l_upr; l_lwr] in
  let msg_complete := _escape (message ++ _generate_checksum message) in
  frame ++ msg_complete.

(* ================================================================== *)
(** ** [xbee.py]: reading from the serial connection

    The input side of [self.conn] is the list of raw bytes that reach the
    reader in time, oldest first: [conn.in_waiting] is nonzero when the list
    is not empty, [conn.read()] pops its head, and on the empty list
    [conn.read()] gives up after [conn.timeout] and returns [b''].  Every
    path of the reader stops at the first byte that fails to arrive, so what
    would arrive later never matters.  A reader returns its result together
    with the bytes left unread. *)

Definition conn : Type := list Z.

Definition in_waiting (c : conn) : bool :=
  match c with
  | [] => false
  | _ => true
  end.

(** [self.conn.read()]: a [bytes] object of length 1, or [b''] on timeout. *)
Definition conn_read (c : conn) : list Z * conn :=
  match c with
  | [] => ([], [])
  | b :: r => ([b], r)
  end.

(** The [for byte_count in range(msg_length + 1)] loop of
    [_read_if_available]; [todo] counts the iterations left. *)
Fixpoint read_bytes (todo : nat) (byte_count : nat) (msg : list Z) (c : conn)
  : result (list Z) * conn :=
  match todo with
  | O => (Ok msg, c)
  | S todo' =>
    (* the wait loop ends with a byte buffered or with the timeout *)
    if negb (in_waiting c) then (Raise SerialTimeout, c) else
    let '(b, c1) := conn_read c in
    match index b 0 with
    | Raise e => (Raise e, c1)
    | Ok b0 =>
      let msg1 := list_set msg byte_count b0 in
      match index msg1 byte_count with
      | Raise e => (Raise e, c1)
      | Ok cur =>
        if cur =? 0x7D then
          let '(e, c2) := conn_read c1 in
          match index e 0 with
          | Raise err => (Raise err, c2)
          | Ok e0 =>
            read_bytes todo' (S byte_count)
              (list_set msg1 byte_count (Z.lxor e0 0x20)) c2
          end
        else read_bytes todo' (S byte_count) msg1 c1
      end
    end
  end.

(** [_read_if_available()]. *)
Definition _read_if_available (c : conn) : result (list Z) * conn :=
  if in_waiting c then
    let '(first, c1) := conn_read c in
    if negb (list_Z_eqb first [0x7E]) then (Raise BytesLost, c1) else
    let '(length_high, c2) := conn_read c1 in
    let '(length_low, c3) := conn_read c2 in
    match index length_high 0 with
    | Raise e => (Raise e, c3)
    | Ok hi =>
      match index length_low 0 with
      | Raise e => (Raise e, c3)
      | Ok lo =>
        let msg_length := Z.shiftl hi 8 + lo in
        let msg := repeat 0 (Z.to_nat (msg_length + 1)) in
        read_bytes (Z.to_nat (msg_length + 1)) 0 msg c3
      end
    end
  else (Ok [], c).

(** The part of [read] that precedes the schema layer: read the frame,
    check the checksum, strip it ([msg[:-1]]).  [None] stands for "no bytes
    available". *)
Definition read_payload (c : conn) : result (option (list Z)) * conn :=
  match _read_if_available c with
  | (Raise e, c') => (Raise e, c')
  | (Ok [], c') => (Ok None, c')
  | (Ok msg, c') =>
    match _validate_checksum msg with
    | Raise e => (Raise e, c')
    | Ok valid =>
      if negb valid then (Raise ChecksumIncorrect, c')
      else (Ok (Some (removelast msg)), c')
    end
  end.

(** [read(explain=False)]: the decoded frame, [[]] if nothing is available. *)
Definition read (c : conn) : result (list value) * conn :=
  match read_payload c with
  | (Raise e, c') => (Raise e, c')
  | (Ok None, c') => (Ok [], c')
  | (Ok (Some payload), c') => (unpack_message payload, c')
  end.

(** [read(explain=True)]; the empty result is the empty list in the source
    and the empty dict here. *)
Definition read_explain (c : conn) : result dict * conn :=
  match read_payload c with
  | (Raise e, c') => (Raise e, c')
  | (Ok None, c') => (Ok [], c')
  | (Ok (Some payload), c') => (explain_message payload, c')
  end.

(* ================================================================== *)
(** ** [xbee.py]: waiting for a frame id

    The loop of [read_until_frame_id] runs while the wall clock is before
    [start + timeout].  The clock is replaced by the list [polls]: one
    element per iteration the clock allows, holding the raw bytes that
    reach the connection for that iteration (possibly none).  The empty
    list is the elapsed timeout. *)

Definition frame : Type := list value.

Fixpoint read_until_loop (target_id : Z) (polls : list (list Z)) (c : conn)
  (frame_id : value) (output_frames : list frame)
  : result (list frame) * conn :=
  match polls with
  | [] => (Ok output_frames, c)
  | arrived :: later =>
    if py_eqb (VInt target_id) frame_id        (* target_id == frame_id *)
    then (Ok output_frames, c) else
    let c := c ++ arrived in
    if in_waiting c then
      match read c with
      | (Raise e, c') => (Raise e, c')
      | (Ok this_frame, c') =>
        match index this_frame 1 with
        | Raise e => (Raise e, c')
        | Ok frame_id' =>
          read_until_loop target_id later c' frame_id'
            (output_frames ++ [this_frame])
        end
      end
    else read_until_loop target_id later c frame_id output_frames
  end.

Definition read_until_frame_id (target_id : Z) (polls : list (list Z))
  (c : conn) : result (list frame) * conn :=
  read_until_loop target_id polls c (VInt 0) [].

(** The [for i in range(len(result) - 1)] check of
    [discard_until_frame_id]; [idxs] are the indexes still to visit. *)
Fixpoint check_discarded (target_id : Z) (frames : list frame)
  (idxs : list nat) : result unit :=
  match idxs with
  | [] => Ok tt
  | i :: r =>
    f <- index frames i ;;
    f0 <- index f 0 ;;
    if negb (py_eqb f0 (VInt 0x8B)) then
      f1 <- index f 1 ;;
      if negb (py_eqb f1 (VInt target_id))
      then Raise DiscardedValidPacket
      else check_discarded target_id frames r
    else check_discarded target_id frames r
  end.

Definition discard_until_frame_id (target_id : Z) (except_on_not_status : bool)
  (polls : list (list Z)) (c : conn) : result frame * conn :=
  match read_until_frame_id target_id polls c with
  | (Raise e, c') => (Raise e, c')
  | (Ok [], c') => (Ok [], c')
  | (Ok frames, c') =>
    let checked :=
      if except_on_not_status
      then check_discarded target_id frames
             (seq 0 (List.length frames - 1))
      else Ok tt in
    match checked with
    | Raise e => (Raise e, c')
    | Ok _ => (index frames (List.length frames - 1), c')
    end
  end.

(* ================================================================== *)
(** ** [xbee.py]: the paced [write]

    Wall-clock time is counted in integer ticks.  [now] is the current
    instant and [ticks] the amounts by which the clock will have advanced
    at each of the next observations or transport actions; once the list is
    used up the clock stands still.  [time.time()] and [conn.write] each
    take the next advance and then act at the instant reached.  The output
    side of the connection is the log [sent]. *)

Inductive event : Type :=
| Written (at_time : Z) (data : list Z)    (* conn.write(data) *)
| Flushed (at_time : Z).                   (* conn.flush() *)

Record session : Type := Session {
  now : Z;
  ticks : list nat;
  last_message : Z;
  frame_delay : Z;
  motor_unblocked : Z;
  sent : list event
}.

Definition advance (s : session) : session :=
  match ticks s with
  | [] => s
  | d :: r =>
    Session (now s + Z.of_nat d) r (last_message s) (frame_delay s)
      (motor_unblocked s) (sent s)
  end.

(** [time.time()]. *)
Definition time_time (s : session) : Z * session :=
  let s' := advance s in (now s', s').

(** The loop [while time.time() < max(...): pass].  With no advance left
    and the deadline still ahead the loop spins forever: [None]. *)
Fixpoint delay_loop (deadline : Z) (t : Z) (pending : list nat)
  : option (Z * list nat) :=
  match pending with
  | [] => if t <? deadline then None else Some (t, [])
  | d :: r =>
    let t' := t + Z.of_nat d in
    if t' <? deadline then delay_loop deadline t' r else Some (t', r)
  end.

Definition delay_until_ready (s : session) : option session :=
  let deadline := Z.max (last_message s + frame_delay s) (motor_unblocked s) in
  match delay_loop deadline (now s) (ticks s) with
  | None => None
  | Some (t, r) =>
    Some (Session t r (last_message s) (frame_delay s) (motor_unblocked s)
            (sent s))
  end.

Definition conn_write (msg : list Z) (s : session) : session :=
  let s' := advance s in
  Session (now s') (ticks s') (last_message s') (frame_delay s')
    (motor_unblocked s') (sent s' ++ [Written (now s') msg]).

Definition conn_flush (s : session) : session :=
  Session (now s) (ticks s) (last_message s) (frame_delay s)
    (motor_unblocked s) (sent s ++ [Flushed (now s)]).

Definition set_last_message (t : Z) (s : session) : session :=
  Session (now s) (ticks s) t (frame_delay s) (motor_unblocked s) (sent s).

(** [write(args...)]: [None] when the delay loop never ends, otherwise the
    outcome of the call and the session it leaves. *)
Definition write (args : list value) (s : session)
  : option (result bool * session) :=
  let prepared :=
    a0 <- index args 0 ;;
    tag <- bytes_of_int a0 ;;
    ok <- can_process tag ;;
    if negb ok then Raise UnrecognizedMessage else
    packed <- pack_message args ;;
    Ok (_prepare_write packed) in
  match prepared with
  | Raise e => Some (Raise e, s)
  | Ok msg =>
    match delay_until_ready s with
    | None => None
    | Some s1 =>
      let s2 := conn_write msg s1 in
      let '(t, s3) := time_time s2 in
      let s4 := set_last_message t s3 in
      let s5 := conn_flush s4 in
      Some (Ok true, s5)
    end
  end.

(** [transmit_request(frame_id, destination, radius, options, data)]. *)
Definition transmit_request (frame_id destination radius options : Z)
  (data : list Z) (s : session) : option (result unit * session) :=
  match write [VInt 0x10; VInt frame_id; VInt destination; VInt 0xFFFE;
               VInt radius; VInt options; VBytes data] s with
  | None => None
  | Some (Raise e, s') => Some (Raise e, s')
  | Some (Ok _, s') => Some (Ok tt, s')      (* the result is dropped *)
  end.

(* ================================================================== *)
(** ** The frame format in the words of the specification

    These definitions restate the wire format of the specification; the
    theorems below compare them with the functions translated from the
    source. *)

(** The four reserved values. *)
Definition reserved (b : Z) : bool :=
  (b =? 0x7E) || (b =? 0x7D) || (b =? 0x11) || (b =? 0x13).

(** Byte stuffing of one byte and of a sequence. *)
Definition stuff_byte (b : Z) : list Z :=
  if reserved b then [0x7D; Z.lxor b 0x20] else [b].

Definition stuffed (bs : list Z) : list Z := flat_map stuff_byte bs.

(** The checksum byte [0xFF - (sum(payload) & 0xFF)]. *)
Definition checksum_of (payload : list Z) : Z :=
  0xFF - Z.land (fold_right Z.add 0 payload) 0xFF.

(** The wire frame: delimiter, big-endian 16-bit length, stuffed payload and
    checksum. *)
Definition wire_frame (payload : list Z) : list Z :=
  [0x7E] ++ [len payload / 256 mod 256; len payload mod 256]
  ++ stuffed (payload ++ [checksum_of payload]).

(** The length field of a wire frame: bytes 1 and 2, big-endian. *)
Definition length_field (wire : list Z) : Z :=
  be_value (firstn 2 (skipn 1 wire)).

(* ================================================================== *)
(** ** Schema vocabulary used in the statements *)

(** A field whose table entry carries the word "optional" (as fifth element
    or, for schema 0x09, in the datatype position). *)
Definition declared_optional (f : field) : bool :=
  existsb (String.eqb "optional") (ftype f :: fextra f).

Definition last_field (t : template) : option field :=
  nth_error (tfields t) (List.length (tfields t) - 1).

(** Length of a payload that stops right after the fields before the last:
    the tag byte and the declared lengths of those fields. *)
Definition fixed_length (t : template) : Z :=
  1 + fold_right Z.add 0 (map flen (removelast (tfields t))).

(** The byte span a field of fixed length occupies in the payload (the
    table counts offsets from the start of the wire frame, three bytes
    before the payload). *)
Definition field_span (f : field) (payload : list Z) : list Z :=
  firstn (Z.to_nat (flen f)) (skipn (Z.to_nat (fstart f - 3)) payload).

(** Every text field of the payload holds well-formed UTF-8. *)
Definition str_fields_decode (t : template) (payload : list Z) : bool :=
  forallb
    (fun f =>
       if String.eqb (ftype f) "str" then
         match utf8_decode (field_span f payload) with
         | Ok _ => true
         | Raise _ => false
         end
       else true)
    (tfields t).

(* ================================================================== *)
(** ** Legal argument assignments *)

(** Width in bytes of an integer datatype of the table. *)
Definition int_width (ty : string) : option nat :=
  if String.eqb ty "uint8_t" then Some 1%nat
  else if String.eqb ty "uint16_t" then Some 2%nat
  else if String.eqb ty "uint64_t" then Some 8%nat
  else None.

Definition is_byte (b : Z) : bool := (0 <=? b) && (b <? 256).

Definition is_ascii (c : Z) : bool := (0 <=? c) && (c <? 128).

(** A legal value for a field: an integer within the range of an integer
    datatype; a byte string for "bytes" and a character string for "str",
    of the declared length unless the field is of variable length. *)
Definition legal_value (f : field) (v : value) : bool :=
  match v with
  | VInt x =>
    match int_width (ftype f) with
    | Some w => (0 <=? x) && (x <? 256 ^ Z.of_nat w)
    | None => false
    end
  | VBytes b =>
    String.eqb (ftype f) "bytes" && forallb is_byte b
    && ((flen f =? -1) || (len b =? flen f))
  | VStr s =>
    String.eqb (ftype f) "str" && forallb is_ascii s
    && ((flen f =? -1) || (len s =? flen f))
  | VNone => false
  end.

Fixpoint legal_values (fields : list field) (vals : list value) : bool :=
  match fields, vals with
  | [], [] => true
  | f :: fs, v :: vs => legal_value f v && legal_values fs vs
  | _, _ => false
  end.

(** A legal ordered argument assignment for a registered tag: the tag,
    then one legal value per field of its schema, in declaration order. *)
Definition legal_args (tag : Z) (args : list value) : bool :=
  match lookup tag templates, args with
  | Some t, VInt a0 :: vals => (a0 =? tag) && legal_values (tfields t) vals
  | _, _ => false
  end.

Definition has_str_field (t : template) : bool :=
  existsb (fun f => String.eqb (ftype f) "str") (tfields t).

(** No argument is the empty byte string. *)
Definition nonempty_value (v : value) : bool :=
  match v with
  | VBytes [] => false
  | _ => true
  end.

(** *** Schemas made of integer fields and a trailing byte field *)

Definition int_field (f : field) : bool :=
  match int_width (ftype f) with
  | Some _ => true
  | None => false
  end.

Definition field_width (f : field) : nat :=
  match int_width (ftype f) with
  | Some w => w
  | None => 0%nat
  end.

(** The [struct] item the code generators choose for an integer field. *)
Definition item_of (f : field) : fmt_item :=
  if String.eqb (ftype f) "uint64_t" then FQ
  else if String.eqb (ftype f) "uint16_t" then FH
  else FB.

(** A variable-length, non-optional byte field. *)
Definition bytes_tail (f : field) : bool :=
  String.eqb (ftype f) "bytes" && (flen f =? -1) && negb (is_optional f).

(** The leading integer fields of a schema and what follows them. *)
Fixpoint leading_ints (fields : list field) : list field * list field :=
  match fields with
  | [] => ([], [])
  | f :: r =>
    if int_field f
    then let '(a, b) := leading_ints r in (f :: a, b)
    else ([], fields)
  end.

Definition widths (ints : list field) : Z :=
  fold_right Z.add 0 (map (fun f => Z.of_nat (field_width f)) ints).

(** The fourth character of the schema name, which the code reads as the
    "datatype" of the tag, is none of the datatype names it tests for. *)
Definition name_ok (t : template) : bool :=
  match entry3 t 0 with
  | Ok s =>
    negb (String.eqb s "bytes") && negb (String.eqb s "str")
    && negb (String.eqb s "uint64_t") && negb (String.eqb s "uint8_t")
  | Raise _ => false
  end.

(** Integer fields only, or integer fields followed by one variable byte
    field placed right after them. *)
Definition supported (t : template) : bool :=
  name_ok t &&
  match leading_ints (tfields t) with
  | (_, []) => true
  | (ints, [vf]) => bytes_tail vf && (fstart vf =? 4 + widths ints)
  | _ => false
  end.

(** Concatenated big-endian images of integer values. *)
Fixpoint pack_ints (ints : list field) (xs : list Z) : list Z :=
  match ints, xs with
  | f :: fs, x :: r => be_bytes (field_width f) x ++ pack_ints fs r
  | _, _ => []
  end.

Fixpoint in_ranges (ints : list field) (xs : list Z) : Prop :=
  match ints, xs with
  | [], [] => True
  | f :: fs, x :: r =>
    0 <= x < 256 ^ Z.of_nat (field_width f) /\ in_ranges fs r
  | _, _ => False
  end.

(** [c, c+1, ..., c+n-1]. *)
Fixpoint count_from (c : Z) (n : nat) : list Z :=
  match n with
  | O => []
  | S n' => c :: count_from (c + 1) n'
  end.

(* ================================================================== *)
(** ** Vocabulary for the wait loops and the paced write *)

(** The connection delivers bytes. *)
Definition byte_stream (polls : list (list Z)) (c : conn) : bool :=
  forallb (forallb is_byte) polls && forallb is_byte c.

(** Everything a poll loop receives if it never stops on a match: the
    frames read, in arrival order, and the error that ended the reading,
    if one did. *)
Fixpoint receive_all (polls : list (list Z)) (c : conn)
  : list frame * option error :=
  match polls with
  | [] => ([], None)
  | arrived :: later =>
    let c := c ++ arrived in
    if in_waiting c then
      match read c with
      | (Raise e, _) => ([], Some e)
      | (Ok f, c') => let '(fs, e) := receive_all later c' in (f :: fs, e)
      end
    else receive_all later c
  end.

(** A frame correlates with [target_id] when its element at index 1 equals
    it. *)
Definition correlates (target_id : Z) (f : frame) : bool :=
  match nth_error f 1 with
  | Some v => py_eqb (VInt target_id) v
  | None => false
  end.

(** The frames up to and including the first one that correlates, and
    whether there is one. *)
Fixpoint up_to_match (target_id : Z) (fs : list frame) : list frame * bool :=
  match fs with
  | [] => ([], false)
  | f :: r =>
    if correlates target_id f then ([f], true)
    else let '(l, found) := up_to_match target_id r in (f :: l, found)
  end.

(** The outcome of waiting for [target_id].  The id 0 is the initial value
    of the loop's own frame id, so waiting for it ends before the first
    poll. *)
Definition await_result (target_id : Z) (polls : list (list Z)) (c : conn)
  : result (list frame) :=
  if target_id =? 0 then Ok [] else
  let '(fs, err) := receive_all polls c in
  match up_to_match target_id fs, err with
  | (l, true), _ => Ok l
  | (l, false), None => Ok l
  | (_, false), Some e => Raise e
  end.

(** A collected frame that is neither a transmit status (type 0x8B) nor
    tagged with the target id. *)
Definition stray (target_id : Z) (f : frame) : bool :=
  negb (py_eqb (nth 0 f VNone) (VInt 0x8B))
  && negb (py_eqb (nth 1 f VNone) (VInt target_id)).

(** The caller moves the device-busy deadline
    ([self.motor_unblocked = ...] in [nasa_sl.py]). *)
Definition with_busy (deadline : Z) (s : session) : session :=
  Session (now s) (ticks s) (last_message s) (frame_delay s) deadline (sent s).

(** The instant the clock reaches when all pending advances are used. *)
Definition clock_end (s : session) : Z :=
  now s + Z.of_nat (fold_right Nat.add 0%nat (ticks s)).

(** A frame with a tag and at least one field. *)
Definition has_id (f : frame) : Prop := (2 <= List.length f)%nat.

(* ================================================================== *)
(** ** [xbee.py]: sending several transmit requests *)

(** The argument [frame_ids] of [queue_multiple_messages]: one id for all
    messages, or a list of ids. *)
Inductive frame_ids_arg : Type :=
| OneId (frame_id : Z)
| IdList (ids : list Z).

(** The loop [for index in range(len(messages))]; [idxs] are the indexes
    still to visit. *)
Fixpoint queue_loop (frame_ids : frame_ids_arg)
  (destination radius options : Z) (messages : list (list Z))
  (idxs : list nat) (s : session) : option (result unit * session) :=
  match idxs with
  | [] => Some (Ok tt, s)
  | i :: r =>
    let chosen :=
      frame_id <- match frame_ids with
                  | OneId n => Ok n
                  | IdList ids => index ids i
                  end ;;
      data <- index messages i ;;
      Ok (frame_id, data) in
    match chosen with
    | Raise e => Some (Raise e, s)
    | Ok (frame_id, data) =>
      match transmit_request frame_id destination radius options data s with
      | None => None
      | Some (Raise e, s') => Some (Raise e, s')
      | Some (Ok _, s') =>
        queue_loop frame_ids destination radius options messages r s'
      end
    end
  end.

(** [queue_multiple_messages(frame_ids, destination, radius, options,
    messages)]. *)
Definition queue_multiple_messages (frame_ids : frame_ids_arg)
  (destination radius options : Z) (messages : list (list Z)) (s : session)
  : option (result unit * session) :=
  let sizes_agree :=
    match frame_ids with
    | OneId _ => true
    | IdList ids => (List.length messages =? List.length ids)%nat
    end in
  if negb sizes_agree then Some (Raise AssertionError, s) else
  queue_loop frame_ids destination radius options messages
    (seq 0 (List.length messages)) s.

(* ================================================================== *)
(** ** [nasa_sl.py]: the rocket controller built on the session

    [do_stepper_steps] computes its busy deadline in floating point and is
    not modelled. *)

Record rocket : Type := Rocket {
  xbee : session;          (* the inherited XBee state *)
  _next_frame : Z;
  rpm_setting : Z
}.

(** The property [next_frame]: the frame number it returns and the
    controller it leaves. *)
Definition next_frame (r : rocket) : Z * rocket :=
  let return_frame := _next_frame r in
  let incremented := _next_frame r + 1 in
  let wrapped := if 0xFF <? incremented then 0x01 else incremented in
  (return_frame, Rocket (xbee r) wrapped (rpm_setting r)).

(** [send_message_to_rocket(message, frame_id)]. *)
Definition send_message_to_rocket (message : list Z) (frame_id : Z)
  (r : rocket) : option (result unit * rocket) :=
  match transmit_request frame_id 0xFFFF 0x00 0x00 message (xbee r) with
  | None => None
  | Some (Raise e, s') =>
    Some (Raise e, Rocket s' (_next_frame r) (rpm_setting r))
  | Some (Ok _, s') =>
    Some (Ok tt, Rocket s' (_next_frame r) (rpm_setting r))
  end.

(** [set_stepper_speed(rpm)]. *)
Definition set_stepper_speed (rpm : Z) (r : rocket)
  : option (result unit * rocket) :=
  let r1 := Rocket (xbee r) (_next_frame r) rpm in
  match struct_pack [FH] [VInt rpm] with
  | Raise e => Some (Raise e, r1)
  | Ok packed =>
    let speed_select := [0x03] ++ packed in
    send_message_to_rocket ([0x03] ++ speed_select) 0 r1
  end.

(** [struct.unpack(">h", v)[0]]: a signed 16-bit big-endian integer from a
    two-byte [bytes] object. *)
Definition unpack_h (v : value) : result Z :=
  match v with
  | VBytes [b0; b1] =>
    let u := b0 * 256 + b1 in
    Ok (if u <? 32768 then u else u - 65536)
  | VBytes _ => Raise StructError
  | _ => Raise TypeError
  end.

(** [get_angle()].  [clear_incoming] empties the input buffer, so the wait
    starts from an empty connection; [polls] is what arrives during the
    wait. *)
Definition get_angle (polls : list (list Z)) (r : rocket)
  : option (result Z * rocket) :=
  let cleared : conn := [] in
  let '(this_frame, r1) := next_frame r in
  match send_message_to_rocket [0x02] this_frame r1 with
  | None => None
  | Some (Raise e, r2) => Some (Raise e, r2)
  | Some (Ok _, r2) =>
    match fst (discard_until_frame_id this_frame false polls cleared) with
    | Raise e => Some (Raise e, r2)
    | Ok message =>
      Some ((m4 <- index message 4 ;; unpack_h m4), r2)
    end
  end.

(* ================================================================== *)
(** ** Further vocabulary for the statements *)

(** The frames handed to the transport, with their instants, in order. *)
Fixpoint written (events : list event) : list (Z * list Z) :=
  match events with
  | [] => []
  | Written t data :: r => (t, data) :: written r
  | Flushed _ :: r => written r
  end.

(** Successive instants are at least [gap] apart. *)
Fixpoint spaced (gap : Z) (instants : list Z) : Prop :=
  match instants with
  | t1 :: ((t2 :: _) as r) => t1 + gap <= t2 /\ spaced gap r
  | _ => True
  end.

(** The payload of a transmit request. *)
Definition transmit_payload (frame_id destination radius options : Z)
  (data : list Z) : list Z :=
  [0x10; frame_id] ++ be_bytes 8 destination ++ [0xFF; 0xFE]
  ++ [radius; options] ++ data.

(** The frame id used for the message at position [i]. *)
Definition frame_id_at (frame_ids : frame_ids_arg) (i : nat) : Z :=
  match frame_ids with
  | OneId n => n
  | IdList ids => nth i ids 0
  end.

(** The state of [_next_frame] after [n] uses of [next_frame]. *)
Fixpoint after_frames (n : nat) (r : rocket) : rocket :=
  match n with
  | O => r
  | S n' => snd (next_frame (after_frames n' r))
  end.

(** Shortest payload a schema can describe: the tag and every field of
    declared length. *)
Definition min_length (t : template) : Z :=
  1 + fold_right Z.add 0
        (map (fun f => if flen f <? 0 then 0 else flen f) (tfields t)).

(** The fields of the transmit-request schema 0x10. *)
Definition transmit_ints : list field :=
  [ Field "Frame ID" 4 1 "uint8_t" [];
    Field "Destination Address" 5 8 "uint64_t" [];
    Field "Reserved" 13 2 "uint16_t" [];
    Field "Broadcast Radius" 15 1 "uint8_t" [];
    Field "Transmit Options" 16 1 "uint8_t" [] ].

Definition transmit_data : field := Field "RF data" 17 (-1) "bytes" [].

(** The fields of the receive-packet schema 0x90. *)
Definition receive_ints : list field :=
  [ Field "Source Address" 4 8 "uint64_t" [];
    Field "Reserved" 12 2 "uint16_t" [];
    Field "Receive options" 14 1 "uint8_t" [] ].

Definition receive_data : field := Field "Received data" 15 (-1) "bytes" [].

(** The dict [explain_message] builds from a decoded frame: the schema
    name, then every field name in schema order, bound to the frame's
    element at the field's index or to [None] when the frame is shorter. *)
Definition explanation_of (t : template) (data : list value) : dict :=
  ("Name"%string, VStr (code_points (tname t)))
  :: map (fun p => (fname (snd p), nth (fst p) data VNone))
       (combine (seq 1 (List.length (tfields t))) (tfields t)).

(* ================================================================== *)
(** * Framing: checksum, escaping, length *)

Section Framing.

Lemma np_sum_from (l : list Z) (a : Z) :
  fold_left Z.add l a = a + fold_right Z.add 0 l.
Proof.
  revert a; induction l as [|x l IH]; intro a; simpl.
  - lia.
  - rewrite IH. lia.
Qed.

Lemma np_sum_fold_right (l : list Z) : np_sum l = fold_right Z.add 0 l.
Proof. unfold np_sum. rewrite np_sum_from. lia. Qed.

Lemma land_255 (x : Z) : Z.land x 0xFF = x mod 256.
Proof. change 0xFF with (Z.ones 8). rewrite Z.land_ones by lia. reflexivity. Qed.

Lemma shiftr_8 (x : Z) : Z.shiftr x 8 = x / 256.
Proof. rewrite Z.shiftr_div_pow2 by lia. reflexivity. Qed.

Lemma generate_checksum_spec (payload : list Z) :
  _generate_checksum payload = [checksum_of payload].
Proof.
  unfold _generate_checksum, checksum_of.
  now rewrite np_sum_fold_right.
Qed.

Lemma escape_loop_stuffed (message acc : list Z) :
  fold_left
    (fun escaped byte =>
       if (byte =? 0x7E) || (byte =? 0x7D) || (byte =? 0x11) || (byte =? 0x13)
       then escaped ++ ([0x7D] ++ [Z.lxor byte 0x20])
       else escaped ++ [byte])
    message acc
  = acc ++ stuffed message.
Proof.
  revert acc; induction message as [|b m IH]; intro acc; simpl.
  - now rewrite app_nil_r.
  - rewrite IH. unfold stuff_byte, reserved.
    destruct ((b =? 0x7E) || (b =? 0x7D) || (b =? 0x11) || (b =? 0x13));
      now rewrite <- app_assoc.
Qed.

Lemma escape_stuffed (message : list Z) : _escape message = stuffed message.
Proof. unfold _escape. now rewrite escape_loop_stuffed. Qed.

(** [_prepare_write] builds the wire frame of the specification. *)
Lemma prepare_write_wire_frame (payload : list Z) :
  _prepare_write payload = wire_frame payload.
Proof.
  unfold _prepare_write, wire_frame.
  rewrite escape_stuffed, generate_checksum_spec, !land_255, shiftr_8.
  reflexivity.
Qed.

Lemma stuffed_app (a b : list Z) : stuffed (a ++ b) = stuffed a ++ stuffed b.
Proof. unfold stuffed. now rewrite flat_map_app. Qed.

(** The two length bytes hold the payload length below 65536. *)
Lemma length_bytes_value (n : Z) :
  0 <= n < 65536 ->
  Z.shiftl (n / 256 mod 256) 8 + n mod 256 = n.
Proof.
  intro H. rewrite Z.shiftl_mul_pow2 by lia. change (2 ^ 8) with 256.
  rewrite (Z.mod_small (n / 256)).
  - pose proof (Z.div_mod n 256). lia.
  - split.
    + apply Z.div_pos; lia.
    + apply Z.div_lt_upper_bound; lia.
Qed.

Lemma len_nonneg {A : Type} (l : list A) : 0 <= len l.
Proof. unfold len. lia. Qed.

Lemma len_app {A : Type} (a b : list A) : len (a ++ b) = len a + len b.
Proof. unfold len. rewrite length_app. lia. Qed.

Lemma len_cons {A : Type} (x : A) (l : list A) : len (x :: l) = 1 + len l.
Proof. unfold len. simpl List.length. lia. Qed.

Lemma len_nil {A : Type} : len (@nil A) = 0.
Proof. reflexivity. Qed.

(** C2.  For every payload the frame built by [_prepare_write] is the byte
    0x7E, then the two bytes of the big-endian 16-bit length of the
    (unescaped) payload, then the stuffed form of the payload followed by
    the checksum byte 0xFF - (sum(payload) & 0xFF); stuffing replaces each
    of 0x7E, 0x7D, 0x11, 0x13 by 0x7D and the byte XOR 0x20 and keeps every
    other byte. *)
Theorem prepare_write_is_wire_frame (payload : list Z) :
  _prepare_write payload
  = [0x7E] ++ [len payload / 256 mod 256; len payload mod 256]
    ++ stuffed (payload ++ [0xFF - Z.land (fold_right Z.add 0 payload) 0xFF])
  /\ (forall b, stuff_byte b
                = if (b =? 0x7E) || (b =? 0x7D) || (b =? 0x11) || (b =? 0x13)
                  then [0x7D; Z.lxor b 0x20] else [b])
  /\ (len payload < 65536 ->
      (len payload / 256 mod 256) * 256 + len payload mod 256 = len payload).
Proof.
  split; [apply prepare_write_wire_frame|]. split; [reflexivity|].
  intro H. pose proof (len_nonneg payload) as Hpos.
  rewrite <- (length_bytes_value (len payload)) at 3 by lia.
  rewrite Z.shiftl_mul_pow2 by lia. reflexivity.
Qed.

Lemma prepare_write_is_wire_frame_witness :
  _prepare_write [0x7E; 0x01]
  = [0x7E; 0x00; 0x02; 0x7D; 0x5E; 0x01; 0x80]
  /\ 0 * 256 + 2 = len [0x7E; 0x01].
Proof.
  destruct (prepare_write_is_wire_frame [0x7E; 0x01]) as [H1 [_ H2]].
  split; [exact H1 | exact (H2 eq_refl)].
Defined.

(** C4 (as amended).  For a payload shorter than 65536 bytes the length
    field of the frame is the byte count of the payload alone; the checksum
    byte is not counted. *)
Theorem length_field_counts_payload_only (payload : list Z) :
  len payload < 65536 ->
  length_field (_prepare_write payload) = len payload.
Proof.
  intro H. rewrite prepare_write_wire_frame.
  unfold wire_frame, length_field, be_value. simpl.
  pose proof (len_nonneg payload).
  pose proof (length_bytes_value (len payload)) as E.
  rewrite Z.shiftl_mul_pow2 in E by lia. change (2 ^ 8) with 256 in E.
  lia.
Qed.

Lemma length_field_counts_payload_only_witness :
  len [0x8A; 0x06] < 65536
  /\ length_field (_prepare_write [0x8A; 0x06]) = len [0x8A; 0x06].
Proof.
  split; [reflexivity|].
  apply (length_field_counts_payload_only [0x8A; 0x06]).
  reflexivity.
Defined.

(** C4 (as stated) fails: for the two-byte modem-status payload 8A 06 the
    length field is 2, not 2 + 1. *)
Lemma length_field_excludes_checksum :
  length_field (_prepare_write [0x8A; 0x06]) <> len [0x8A; 0x06] + 1.
Proof. vm_compute. discriminate. Qed.

End Framing.

(* ================================================================== *)
(** * The reader: [_read_if_available] and the checksum test of [read] *)

Section Reader.

Lemma list_set_middle {A : Type} (pre post : list A) (x v : A) :
  list_set (pre ++ x :: post) (List.length pre) v = pre ++ v :: post.
Proof. induction pre as [|p pre IH]; simpl; [reflexivity | now rewrite IH]. Qed.

Lemma index_middle {A : Type} (pre post : list A) (v : A) :
  index (pre ++ v :: post) (List.length pre) = Ok v.
Proof.
  unfold index. rewrite nth_error_app2 by lia.
  now rewrite Nat.sub_diag.
Qed.

Lemma index_last {A : Type} (l : list A) (v : A) :
  index (l ++ [v]) (List.length (l ++ [v]) - 1) = Ok v.
Proof.
  rewrite length_app. simpl.
  replace (List.length l + 1 - 1)%nat with (List.length l) by lia.
  apply index_middle.
Qed.

Lemma lxor_0x20_twice (b : Z) : Z.lxor (Z.lxor b 0x20) 0x20 = b.
Proof. now rewrite Z.lxor_assoc, Z.lxor_nilpotent, Z.lxor_0_r. Qed.

(** Reading back a stuffed sequence: the loop of [_read_if_available]
    fills the prepared buffer with the original bytes. *)
Lemma read_bytes_stuffed (data pre rest : list Z) :
  read_bytes (List.length data) (List.length pre)
    (pre ++ repeat 0 (List.length data)) (stuffed data ++ rest)
  = (Ok (pre ++ data), rest).
Proof.
  revert pre; induction data as [|b d IH]; intro pre.
  - simpl. now rewrite !app_nil_r.
  - assert (Hnext : forall c,
      read_bytes (List.length d) (S (List.length pre))
        (pre ++ b :: repeat 0 (List.length d)) (stuffed d ++ rest) = c ->
      c = (Ok (pre ++ b :: d), rest)).
    { intros c <-.
      replace (S (List.length pre)) with (List.length (pre ++ [b]))
        by (rewrite length_app; simpl; lia).
      replace (pre ++ b :: repeat 0 (List.length d))
        with ((pre ++ [b]) ++ repeat 0 (List.length d))
        by now rewrite <- app_assoc.
      rewrite IH. now rewrite <- app_assoc. }
    change (stuffed (b :: d)) with (stuff_byte b ++ stuffed d).
    unfold stuff_byte. destruct (reserved b) eqn:Hres.
    + cbn [List.length repeat read_bytes app in_waiting negb conn_read].
      cbn [index nth_error].
      rewrite list_set_middle, index_middle.
      cbn [Z.eqb Pos.eqb]. cbn [index nth_error].
      rewrite list_set_middle, lxor_0x20_twice.
      now apply Hnext.
    + cbn [List.length repeat read_bytes app in_waiting negb conn_read].
      cbn [index nth_error].
      rewrite list_set_middle, index_middle.
      assert (Hb : (b =? 0x7D) = false).
      { unfold reserved in Hres.
        destruct (b =? 0x7D); [|reflexivity].
        now rewrite orb_true_r in Hres. }
      rewrite Hb. now apply Hnext.
Qed.

(** Decoding an encoded payload gives the payload back, and consumes
    exactly the frame. *)
Lemma read_if_available_wire_frame (payload rest : list Z) :
  len payload < 65536 ->
  _read_if_available (_prepare_write payload ++ rest)
  = (Ok (payload ++ [checksum_of payload]), rest).
Proof.
  intro Hlen. rewrite prepare_write_wire_frame. unfold wire_frame.
  pose proof (len_nonneg payload) as Hpos.
  unfold _read_if_available.
  cbn [app in_waiting conn_read list_Z_eqb Z.eqb Pos.eqb andb negb].
  cbn [index nth_error].
  rewrite length_bytes_value by lia.
  replace (Z.to_nat (len payload + 1))
    with (List.length (payload ++ [checksum_of payload]))
    by (rewrite length_app; unfold len; simpl; lia).
  apply (read_bytes_stuffed (payload ++ [checksum_of payload]) [] rest).
Qed.

Lemma validate_checksum_appended (payload : list Z) (c : Z) :
  _validate_checksum (payload ++ [c]) = Ok (checksum_of payload =? c).
Proof.
  unfold _validate_checksum.
  rewrite removelast_last, index_last. unfold bind.
  now rewrite np_sum_fold_right.
Qed.

(** Round trip of the framing layer. *)
Lemma read_payload_wire_frame (payload rest : list Z) :
  len payload < 65536 ->
  read_payload (_prepare_write payload ++ rest) = (Ok (Some payload), rest).
Proof.
  intro Hlen. unfold read_payload.
  rewrite read_if_available_wire_frame by assumption.
  destruct (payload ++ [checksum_of payload]) as [|x l] eqn:E.
  - now destruct payload.
  - rewrite <- E, validate_checksum_appended, Z.eqb_refl.
    cbn [negb]. now rewrite removelast_last.
Qed.

(** With a byte buffered that is not the delimiter, the reader reports lost
    synchronisation. *)
Lemma read_payload_sync_lost (b : Z) (rest : list Z) :
  b <> 0x7E -> read_payload (b :: rest) = (Raise BytesLost, rest).
Proof.
  intro Hb. unfold read_payload, _read_if_available.
  cbn [in_waiting conn_read list_Z_eqb].
  apply Z.eqb_neq in Hb. rewrite Hb. reflexivity.
Qed.

(** The loop over the message bytes raises nothing but the timeout and the
    index error of [self.conn.read()[0]] on an empty read. *)
Lemma read_bytes_errors (todo : nat) :
  forall byte_count msg c e c',
    read_bytes todo byte_count msg c = (Raise e, c') ->
    e = SerialTimeout \/ e = IndexError.
Proof.
  induction todo as [|n IH]; intros k msg c e c' H; simpl in H.
  - discriminate.
  - destruct c as [|b c1]; simpl in H.
    + left. congruence.
    + cbn [index nth_error] in H.
      destruct (index (list_set msg k b) k) as [cur|err] eqn:Hcur.
      * destruct (cur =? 0x7D).
        -- destruct c1 as [|x c2]; simpl in H.
           ++ right. unfold index in H. simpl in H. congruence.
           ++ cbn [index nth_error] in H. eauto.
        -- eauto.
      * right. unfold index in Hcur.
        destruct (nth_error (list_set msg k b) k); congruence.
Qed.

(** When the first byte is the delimiter, the failure is never the lost
    synchronisation. *)
Lemma read_payload_delimiter_keeps_sync (rest c' : list Z) :
  read_payload (0x7E :: rest) <> (Raise BytesLost, c').
Proof.
  unfold read_payload, _read_if_available.
  cbn [in_waiting conn_read list_Z_eqb Z.eqb Pos.eqb andb negb].
  destruct rest as [|hi [|lo r]]; cbn [conn_read index nth_error];
    try discriminate.
  destruct (read_bytes _ 0 _ r) as [[msg|e] c''] eqn:E.
  - destruct msg as [|m0 msg]; [discriminate|].
    destruct (@exists_last _ (m0 :: msg)) as [body [a Hsplit]];
      [discriminate|].
    rewrite Hsplit, validate_checksum_appended.
    destruct (checksum_of body =? a); cbn [negb]; discriminate.
  - apply read_bytes_errors in E. intro H. injection H as H _.
    destruct E; congruence.
Qed.

(** The checksum test: a frame read in full is rejected exactly when the
    checksum computed over all bytes but the last differs from the last. *)
Lemma read_payload_checksum (c c' body : list Z) (last_byte : Z) :
  _read_if_available c = (Ok (body ++ [last_byte]), c') ->
  read_payload c =
    if checksum_of body =? last_byte
    then (Ok (Some body), c')
    else (Raise ChecksumIncorrect, c').
Proof.
  intro H. unfold read_payload. rewrite H.
  destruct (body ++ [last_byte]) as [|x l] eqn:E.
  - now destruct body.
  - rewrite <- E, validate_checksum_appended.
    destruct (checksum_of body =? last_byte); cbn [negb];
      [now rewrite removelast_last | reflexivity].
Qed.

(** C3.  The reader at two streams that stop short.  The per-byte timeout
    is detected ([SerialTimeout]) only for the first raw byte of a logical
    byte; when the stream ends after the delimiter, after the first length
    byte, or right after an escape byte 0x7D, the empty read is indexed and
    the call ends in an index error instead. *)
Theorem read_missing_byte_index_error :
  read_payload [0x7E; 0x00; 0x01; 0x7D] = (Raise IndexError, [])
  /\ read_payload [0x7E] = (Raise IndexError, [])
  /\ read_payload [0x7E; 0x00] = (Raise IndexError, [])
  /\ read_payload [0x7E; 0x00; 0x01] = (Raise SerialTimeout, []).
Proof. repeat split; reflexivity. Qed.

End Reader.

(* ================================================================== *)
(** * The schema table *)

Section Table.

Lemma lookup_In (tag : Z) (t : template) (table : list (Z * template)) :
  lookup tag table = Some t -> In (tag, t) table.
Proof.
  induction table as [|[k t'] r IH]; simpl; [discriminate|].
  destruct (k =? tag) eqn:E.
  - intro H. injection H as ->. apply Z.eqb_eq in E. subst. now left.
  - intro H. right. auto.
Qed.

End Table.

(** Case analysis over the twelve registered schemas. *)
Ltac registered H :=
  apply lookup_In in H; simpl in H;
  repeat (destruct H as [H | H]; [injection H as <- <- | ]);
  [ .. | contradiction ].

(* ================================================================== *)
(** * [pack_message] and the number of arguments *)

Section Arity.

Lemma encode_fields_too_many (fields : list field) :
  forall args type_string,
    (List.length fields < List.length args)%nat ->
    encode_fields fields args type_string = Raise IndexError.
Proof.
  induction fields as [|f fs IH]; intros [|a args] ts Hlen; simpl in *;
    try lia; try reflexivity.
  destruct (String.eqb (ftype f) "bytes" || String.eqb (ftype f) "str");
    [apply IH; lia|].
  destruct (String.eqb (ftype f) "uint64_t"); [apply IH; lia|].
  destruct (String.eqb (ftype f) "uint16_t"); [apply IH; lia|].
  destruct (String.eqb (ftype f) "uint8_t"); apply IH; lia.
Qed.

Lemma bytes_of_int_byte (tag : Z) :
  0 <= tag < 256 -> bytes_of_int (VInt tag) = Ok [tag].
Proof.
  intro H. unfold bytes_of_int.
  replace (0 <=? tag) with true by (symmetry; apply Z.leb_le; lia).
  replace (tag <? 256) with true by (symmetry; apply Z.ltb_lt; lia).
  reflexivity.
Qed.

(** C6 (as stated) fails: the transmit-status schema 0x8B has five fields,
    yet [pack_message] given the tag and a single field value returns a
    two-byte payload instead of failing. *)
Lemma pack_message_accepts_missing_arguments :
  (exists t, lookup 0x8B templates = Some t /\ List.length (tfields t) = 5%nat)
  /\ List.length [VInt 5] <> 5%nat
  /\ pack_message (VInt 0x8B :: [VInt 5]) = Ok [0x8B; 5].
Proof.
  split; [eexists; split; reflexivity|].
  split; [discriminate | reflexivity].
Qed.

End Arity.

(* ================================================================== *)
(** * Optional trailing fields *)

Section Optional.

(** Split a message of known length into its bytes. *)
Ltac bytes_of msg Hlen n :=
  lazymatch n with
  | O =>
    destruct msg;
    [| exfalso; unfold len in Hlen; simpl List.length in Hlen; lia]
  | S ?k =>
    destruct msg as [|? msg];
    [exfalso; unfold len in Hlen; simpl List.length in Hlen; lia
    | bytes_of msg Hlen k]
  end.

Ltac absent_case msg Hhd Hlen Hstr n :=
  unfold fixed_length in Hlen; cbn in Hlen;
  bytes_of msg Hlen n;
  injection Hhd as ->;
  cbv -[utf8_decode] in Hstr;
  match type of Hstr with
  | context [utf8_decode ?l] =>
    let E := fresh "E" in
    destruct (utf8_decode l) as [s|] eqn:E; [|discriminate Hstr];
    match goal with
    | |- exists frame d, unpack_message ?m = _ /\ _ =>
      let fr := fresh "fr" in
      let U := fresh "U" in
      evar (fr : list value);
      assert (U : unpack_message m = Ok fr)
        by (subst fr; cbv -[utf8_decode be_value]; rewrite E; reflexivity);
      subst fr;
      eexists; eexists;
      split; [exact U|];
      split; [reflexivity|];
      split; [reflexivity|];
      split; [unfold explain_message; rewrite U; reflexivity|];
      split; reflexivity
    end
  end.

(** C5 (as amended).  For every registered schema whose last field is
    declared optional, take a payload of that schema that stops exactly
    after the fixed fields and whose text field is well-formed UTF-8.
    [unpack_message] returns the tag and the fixed fields only: the result
    has no entry at the optional field's index, not even an empty one.
    [explain_message] on the same payload lists every field name of the
    schema and binds the optional field's name to [None]. *)
Theorem optional_field_absent (tag : Z) (t : template) (f : field)
  (msg : list Z) :
  lookup tag templates = Some t ->
  last_field t = Some f ->
  declared_optional f = true ->
  hd_error msg = Some tag ->
  len msg = fixed_length t ->
  str_fields_decode t msg = true ->
  exists frame d,
    unpack_message msg = Ok frame
    /\ List.length frame = List.length (tfields t)
    /\ nth_error frame (List.length (tfields t)) = None
    /\ explain_message msg = Ok d
    /\ map fst d = "Name"%string :: map fname (tfields t)
    /\ dict_get d (fname f) = Some VNone.
Proof.
  intros Ht Hlast Hopt Hhd Hlen Hstr.
  registered Ht; cbv in Hlast; injection Hlast as <-; try discriminate Hopt.
  - absent_case msg Hhd Hlen Hstr 4%nat.
  - absent_case msg Hhd Hlen Hstr 4%nat.
  - absent_case msg Hhd Hlen Hstr 15%nat.
  - absent_case msg Hhd Hlen Hstr 5%nat.
Qed.

Lemma optional_field_absent_witness :
  exists frame d,
    unpack_message [0x08; 1; 78; 73] = Ok frame
    /\ List.length frame = 3%nat
    /\ nth_error frame 3 = None
    /\ explain_message [0x08; 1; 78; 73] = Ok d
    /\ map fst d
       = ["Name"; "Frame ID"; "AT Command"; "Parameter Value"]%string
    /\ dict_get d "Parameter Value" = Some VNone.
Proof.
  exact (optional_field_absent 0x08 _ _ [0x08; 1; 78; 73]
           eq_refl eq_refl eq_refl eq_refl eq_refl eq_refl).
Defined.

(** C5 (as stated) fails: the AT-command schema 0x08 ends in an optional
    field, and the payload 08 01 FF FE stops exactly after its fixed
    fields; its two command bytes are not UTF-8, so neither
    [unpack_message] nor [explain_message] returns a result. *)
Lemma optional_field_text_not_decodable :
  (exists t f,
     lookup 0x08 templates = Some t /\ last_field t = Some f
     /\ declared_optional f = true
     /\ hd_error [0x08; 1; 0xFF; 0xFE] = Some 0x08
     /\ len [0x08; 1; 0xFF; 0xFE] = fixed_length t)
  /\ unpack_message [0x08; 1; 0xFF; 0xFE] = Raise UnicodeDecodeError
  /\ explain_message [0x08; 1; 0xFF; 0xFE] = Raise UnicodeDecodeError.
Proof.
  split; [|split; reflexivity].
  eexists; eexists. repeat split; reflexivity.
Qed.

End Optional.

(* ================================================================== *)
(** * Round trip of [pack_message] and [unpack_message]

    The schemas without a text field consist of integer fields, possibly
    followed by one variable-length byte field.  The round trip is proved
    once for every schema of that shape ([supported]) and then read off for
    the registered ones. *)

Section Integers.

Lemma int_field_cases (f : field) :
  int_field f = true ->
  ftype f = "uint8_t"%string \/ ftype f = "uint16_t"%string
  \/ ftype f = "uint64_t"%string.
Proof.
  unfold int_field, int_width.
  destruct (String.eqb (ftype f) "uint8_t") eqn:E1;
    [apply String.eqb_eq in E1; auto|].
  destruct (String.eqb (ftype f) "uint16_t") eqn:E2;
    [apply String.eqb_eq in E2; auto|].
  destruct (String.eqb (ftype f) "uint64_t") eqn:E3;
    [apply String.eqb_eq in E3; auto|].
  discriminate.
Qed.

Lemma be_value_snoc (l : list Z) (b : Z) :
  be_value (l ++ [b]) = be_value l * 256 + b.
Proof. unfold be_value. now rewrite fold_left_app. Qed.

Lemma length_be_bytes (n : nat) : forall x, List.length (be_bytes n x) = n.
Proof.
  induction n as [|n IH]; intro x; simpl; [reflexivity|].
  rewrite length_app, IH. simpl. lia.
Qed.

Lemma be_value_be_bytes (n : nat) :
  forall x, 0 <= x < 256 ^ Z.of_nat n -> be_value (be_bytes n x) = x.
Proof.
  induction n as [|n IH]; intros x Hx.
  - simpl in *. unfold be_value. simpl. lia.
  - simpl be_bytes. rewrite be_value_snoc, IH.
    + pose proof (Z.div_mod x 256). lia.
    + rewrite Nat2Z.inj_succ, Z.pow_succ_r in Hx by lia.
      split; [apply Z.div_pos; lia | apply Z.div_lt_upper_bound; lia].
Qed.

Lemma item_width_item_of (f : field) :
  int_field f = true -> item_width (item_of f) = field_width f.
Proof.
  intro H. unfold item_of, field_width, int_width.
  destruct (int_field_cases f H) as [E|[E|E]]; rewrite E; reflexivity.
Qed.

Lemma length_pack_ints (ints : list field) :
  forall xs, List.length xs = List.length ints ->
    len (pack_ints ints xs) = widths ints.
Proof.
  unfold len, widths.
  induction ints as [|f fs IH]; intros [|x xs] H; simpl in *;
    try reflexivity; try discriminate.
  rewrite length_app, length_be_bytes, Nat2Z.inj_add, IH by lia.
  reflexivity.
Qed.

End Integers.

(** Rewrite the datatype tests of the generators for an integer field. *)
Ltac int_type f H :=
  let E := fresh "E" in
  destruct (int_field_cases f H) as [E|[E|E]].

Section PackSide.

(** The format string built for the integer fields. *)
Lemma encode_fields_ints (ints : list field) :
  forall xs tail tailargs type_string,
    forallb int_field ints = true ->
    List.length xs = List.length ints ->
    encode_fields (ints ++ tail) (map VInt xs ++ tailargs) type_string
    = encode_fields tail tailargs (type_string ++ map item_of ints).
Proof.
  induction ints as [|f fs IH]; intros [|x xs] tail targs ts Hint Hlen;
    simpl in *; try discriminate.
  - now rewrite app_nil_r.
  - apply andb_true_iff in Hint as [Hf Hfs].
    transitivity (encode_fields (fs ++ tail) (map VInt xs ++ targs)
                    (ts ++ [item_of f])).
    + unfold item_of. int_type f Hf; rewrite E; reflexivity.
    + rewrite IH by (auto; lia). now rewrite <- app_assoc.
Qed.

Lemma encode_fields_bytes_tail (vf : field) (data : list Z)
  (type_string : list fmt_item) :
  bytes_tail vf = true ->
  encode_fields [vf] [VBytes data] type_string
  = Ok (type_string ++ [Fc (len data)]).
Proof.
  unfold bytes_tail. intro H.
  apply andb_true_iff in H as [H _]. apply andb_true_iff in H as [H _].
  simpl. now rewrite H.
Qed.

Lemma entry3_field (t : template) (pre post : list field) (f : field) :
  tfields t = pre ++ f :: post ->
  entry3 t (1 + len pre) = Ok (ftype f).
Proof.
  intro H. unfold entry3.
  pose proof (len_nonneg pre).
  replace (1 + len pre =? 0) with false by (symmetry; apply Z.eqb_neq; lia).
  replace (Z.to_nat (1 + len pre - 1)) with (List.length pre)
    by (unfold len; lia).
  now rewrite H, index_middle.
Qed.

(** The struct arguments collected for the integer fields. *)
Lemma pack_args_ints (t : template) (suf : list field) :
  forall pre xs post targs out,
    tfields t = pre ++ suf ++ post ->
    forallb int_field suf = true ->
    List.length xs = List.length suf ->
    pack_args t (1 + len pre) (map VInt xs ++ targs) out
    = pack_args t (1 + len pre + len suf) targs (out ++ map VInt xs).
Proof.
  induction suf as [|f fs IH]; intros pre [|x xs] post targs out Ht Hint Hlen;
    simpl in Hlen; try discriminate.
  - cbn [map app]. rewrite app_nil_r. f_equal. rewrite len_nil. lia.
  - simpl in Hint. apply andb_true_iff in Hint as [Hf Hfs].
    cbn [map app pack_args]. cbn [app] in Ht.
    rewrite (entry3_field t pre (fs ++ post) f Ht). cbn [bind].
    replace (String.eqb (ftype f) "bytes") with false
      by (int_type f Hf; rewrite E; reflexivity).
    replace (1 + len pre + 1) with (1 + len (pre ++ [f]))
      by (rewrite len_app, len_cons, len_nil; lia).
    rewrite (IH (pre ++ [f]) xs post targs (out ++ [VInt x]));
      [| now rewrite <- app_assoc | assumption | lia].
    rewrite <- app_assoc. f_equal.
    rewrite len_app, !len_cons, len_nil. lia.
Qed.

Lemma pack_int_in_range (n : nat) (x : Z) :
  0 <= x < 256 ^ Z.of_nat n -> pack_int n (VInt x) = Ok (be_bytes n x).
Proof.
  intro H. unfold pack_int.
  replace (0 <=? x) with true by (symmetry; apply Z.leb_le; lia).
  replace (x <? 256 ^ Z.of_nat n) with true
    by (symmetry; apply Z.ltb_lt; lia).
  reflexivity.
Qed.

(** Packing the integer items. *)
Lemma struct_pack_ints (ints : list field) :
  forall xs tailfmt tailvals,
    forallb int_field ints = true ->
    in_ranges ints xs ->
    struct_pack (map item_of ints ++ tailfmt) (map VInt xs ++ tailvals)
    = (tl <- struct_pack tailfmt tailvals ;; Ok (pack_ints ints xs ++ tl)).
Proof.
  induction ints as [|f fs IH]; intros [|x xs] tfmt tvals Hint Hr;
    simpl in Hr; try contradiction.
  - simpl. destruct (struct_pack tfmt tvals); reflexivity.
  - simpl in Hint. apply andb_true_iff in Hint as [Hf Hfs].
    destruct Hr as [Hx Hr].
    assert (Hstep : struct_pack (item_of f :: map item_of fs ++ tfmt)
                      (VInt x :: map VInt xs ++ tvals)
                    = (bs <- pack_int (item_width (item_of f)) (VInt x) ;;
                       tl <- struct_pack (map item_of fs ++ tfmt)
                               (map VInt xs ++ tvals) ;;
                       Ok (bs ++ tl))).
    { unfold item_of. int_type f Hf; rewrite E; reflexivity. }
    simpl map. simpl app. rewrite Hstep.
    rewrite item_width_item_of, pack_int_in_range, IH by assumption.
    cbn [bind pack_ints].
    destruct (struct_pack tfmt tvals); cbn [bind]; [|reflexivity].
    now rewrite <- app_assoc.
Qed.

Lemma pack_chars_all (data : list Z) (rest : list value) :
  pack_chars (List.length data) (map (fun b => VBytes [b]) data ++ rest)
  = Ok (data, rest).
Proof.
  induction data as [|b d IH]; simpl; [reflexivity|].
  now rewrite IH.
Qed.

Lemma struct_pack_chars (data : list Z) :
  struct_pack [Fc (len data)] (map (fun b => VBytes [b]) data) = Ok data.
Proof.
  pose proof (len_nonneg data) as H. simpl.
  replace (len data <? 0) with false by (symmetry; apply Z.ltb_ge; lia).
  unfold len. rewrite Nat2Z.id.
  rewrite <- (app_nil_r (map _ data)), pack_chars_all. cbn.
  now rewrite app_nil_r.
Qed.

End PackSide.

Section UnpackSide.

(** Format and mask generated for the integer fields. *)
Lemma decode_fields_ints (ints : list field) :
  forall L c rest type_string mask_string,
    forallb int_field ints = true ->
    decode_fields L c (ints ++ rest) type_string mask_string
    = decode_fields L (c + len ints) rest
        (type_string ++ map item_of ints)
        (mask_string ++ count_from c (List.length ints)).
Proof.
  induction ints as [|f fs IH]; intros L c rest ts mask Hint.
  - cbn [app map List.length count_from]. rewrite !app_nil_r, len_nil.
    now rewrite Z.add_0_r.
  - simpl in Hint. apply andb_true_iff in Hint as [Hf Hfs].
    transitivity (decode_fields L (c + 1) (fs ++ rest)
                    (ts ++ [item_of f]) (mask ++ [c])).
    + cbn [app decode_fields]. unfold item_of.
      int_type f Hf; rewrite E; reflexivity.
    + rewrite IH by assumption.
      cbn [map List.length count_from]. rewrite <- !app_assoc.
      rewrite len_cons. f_equal. lia.
Qed.

Lemma decode_fields_bytes_tail (vf : field) (L c : Z)
  (type_string : list fmt_item) (mask_string : list Z) :
  bytes_tail vf = true ->
  decode_fields L c [vf] type_string mask_string
  = (type_string ++ [Fc (L + 3 - fstart vf)],
     mask_string ++ repeat c (Z.to_nat (L + 3 - fstart vf))).
Proof.
  unfold bytes_tail. intro H.
  apply andb_true_iff in H as [H Hopt]. apply andb_true_iff in H as [Hty Hlen].
  apply negb_true_iff in Hopt.
  cbn [decode_fields]. rewrite Hty, Hopt, Hlen. reflexivity.
Qed.

Lemma calcsize_ints (ints : list field) (tailfmt : list fmt_item) :
  forallb int_field ints = true ->
  calcsize (map item_of ints ++ tailfmt)
  = (b <- calcsize tailfmt ;; Ok (widths ints + b)).
Proof.
  induction ints as [|f fs IH]; intro Hint.
  - cbn. destruct (calcsize tailfmt); reflexivity.
  - simpl in Hint. apply andb_true_iff in Hint as [Hf Hfs].
    cbn [map app calcsize]. rewrite IH by assumption.
    assert (Hsz : item_size (item_of f) = Ok (Z.of_nat (field_width f))).
    { unfold item_of, field_width, int_width.
      int_type f Hf; rewrite E; reflexivity. }
    rewrite Hsz. cbn [bind].
    destruct (calcsize tailfmt); cbn [bind]; [|reflexivity].
    unfold widths. cbn [map fold_right]. f_equal. lia.
Qed.

Lemma firstn_exact {A : Type} (a b : list A) :
  firstn (List.length a) (a ++ b) = a.
Proof.
  rewrite firstn_app, Nat.sub_diag, firstn_all. simpl. apply app_nil_r.
Qed.

Lemma skipn_exact {A : Type} (a b : list A) :
  skipn (List.length a) (a ++ b) = b.
Proof.
  rewrite skipn_app, Nat.sub_diag, skipn_all. reflexivity.
Qed.

(** Unpacking the integer items returns the packed integers. *)
Lemma unpack_items_ints (ints : list field) :
  forall xs tailfmt rest,
    forallb int_field ints = true ->
    in_ranges ints xs ->
    unpack_items (map item_of ints ++ tailfmt) (pack_ints ints xs ++ rest)
    = map VInt xs ++ unpack_items tailfmt rest.
Proof.
  induction ints as [|f fs IH]; intros [|x xs] tfmt rest Hint Hr;
    simpl in Hr; try contradiction.
  - reflexivity.
  - simpl in Hint. apply andb_true_iff in Hint as [Hf Hfs].
    destruct Hr as [Hx Hr].
    assert (Hstep : forall buf,
      unpack_items (item_of f :: map item_of fs ++ tfmt) buf
      = VInt (be_value (firstn (item_width (item_of f)) buf))
        :: unpack_items (map item_of fs ++ tfmt)
             (skipn (item_width (item_of f)) buf)).
    { intro buf. unfold item_of. int_type f Hf; rewrite E; reflexivity. }
    cbn [map app pack_ints]. rewrite Hstep, item_width_item_of by assumption.
    rewrite <- app_assoc.
    rewrite <- (length_be_bytes (field_width f) x) at 1 3.
    rewrite firstn_exact, skipn_exact, be_value_be_bytes, IH by assumption.
    reflexivity.
Qed.

Lemma unpack_items_chars (data : list Z) :
  unpack_items [Fc (len data)] data = map (fun b => VBytes [b]) data.
Proof.
  cbn [unpack_items]. unfold len. rewrite Nat2Z.id.
  now rewrite firstn_all, app_nil_r.
Qed.

(** *** The mask *)

Lemma fold_max_ge (l : list Z) : forall a, a <= fold_left Z.max l a.
Proof.
  induction l as [|x l IH]; intro a; simpl; [lia|].
  specialize (IH (Z.max a x)). lia.
Qed.

Lemma fold_max_count_from (n : nat) :
  forall c a, a <= c ->
    fold_left Z.max (count_from c n) a
    = if (n =? 0)%nat then a else c + Z.of_nat n - 1.
Proof.
  induction n as [|n IH]; intros c a Hle; [reflexivity|].
  cbn [count_from fold_left]. rewrite IH by lia.
  destruct n; cbn [Nat.eqb]; lia.
Qed.

Lemma fold_max_repeat (n : nat) (v : Z) :
  forall a, a <= v ->
    fold_left Z.max (repeat v n) a = if (n =? 0)%nat then a else v.
Proof.
  induction n as [|n IH]; intros a Hle; [reflexivity|].
  cbn [repeat fold_left]. rewrite IH by lia.
  destruct n; cbn [Nat.eqb]; lia.
Qed.

(** The largest mask entry: the index of the last component that owns at
    least one struct item. *)
Lemma np_max_mask (k n : nat) :
  np_max (count_from 0 (S k) ++ repeat (Z.of_nat (S k)) n)
  = Ok (if (n =? 0)%nat then Z.of_nat k else Z.of_nat (S k)).
Proof.
  cbn [count_from app np_max]. rewrite fold_left_app.
  rewrite fold_max_count_from by lia.
  rewrite fold_max_repeat by (destruct k; cbn [Nat.eqb]; lia).
  destruct n; cbn [Nat.eqb]; [|reflexivity].
  destruct k; cbn [Nat.eqb]; f_equal; lia.
Qed.

Lemma np_where_app (a b : list Z) (v : Z) :
  forall i, np_where (a ++ b) v i
            = np_where a v i ++ np_where b v (i + List.length a).
Proof.
  induction a as [|x a IH]; intro i; simpl.
  - now rewrite Nat.add_0_r.
  - rewrite IH. replace (S i + List.length a)%nat
      with (i + S (List.length a))%nat by lia.
    destruct (x =? v); reflexivity.
Qed.

Lemma np_where_count_from (n : nat) :
  forall c v i,
    np_where (count_from c n) v i
    = if (c <=? v) && (v <? c + Z.of_nat n)
      then [(i + Z.to_nat (v - c))%nat] else [].
Proof.
  induction n as [|n IH]; intros c v i.
  - cbn [count_from np_where].
    destruct ((c <=? v) && (v <? c + Z.of_nat 0)) eqn:E; [|reflexivity].
    apply andb_true_iff in E as [E1 E2].
    apply Z.leb_le in E1. apply Z.ltb_lt in E2. lia.
  - cbn [count_from np_where]. rewrite IH.
    destruct (c =? v) eqn:E.
    + apply Z.eqb_eq in E. subst v.
      replace (c + 1 <=? c) with false by (symmetry; apply Z.leb_gt; lia).
      replace (c <=? c) with true by (symmetry; apply Z.leb_le; lia).
      replace (c <? c + Z.of_nat (S n)) with true
        by (symmetry; apply Z.ltb_lt; lia).
      cbn [andb]. rewrite Z.sub_diag. cbn. now rewrite Nat.add_0_r.
    + apply Z.eqb_neq in E.
      destruct (c + 1 <=? v) eqn:E1.
      * apply Z.leb_le in E1.
        replace (c <=? v) with true by (symmetry; apply Z.leb_le; lia).
        replace (c + 1 + Z.of_nat n) with (c + Z.of_nat (S n)) by lia.
        cbn [andb]. destruct (v <? c + Z.of_nat (S n)); [|reflexivity].
        f_equal. lia.
      * apply Z.leb_gt in E1.
        replace (c <=? v) with false by (symmetry; apply Z.leb_gt; lia).
        reflexivity.
Qed.

Lemma np_where_repeat (n : nat) (c v : Z) :
  forall i, np_where (repeat c n) v i = if c =? v then seq i n else [].
Proof.
  induction n as [|n IH]; intro i; cbn [repeat np_where seq].
  - destruct (c =? v); reflexivity.
  - rewrite IH. destruct (c =? v); reflexivity.
Qed.

Lemma mapM_index_seq {A : Type} (pre tail : list A) :
  forall front,
    mapM (index (front ++ pre ++ tail))
      (seq (List.length front + List.length pre) (List.length tail))
    = Ok tail.
Proof.
  revert pre. induction tail as [|x tail IH]; intros pre front;
    [reflexivity|].
  cbn [List.length seq mapM].
  replace (front ++ pre ++ x :: tail) with ((front ++ pre) ++ x :: tail)
    by now rewrite <- app_assoc.
  rewrite <- length_app, index_middle. cbn [bind].
  replace ((front ++ pre) ++ x :: tail) with (front ++ (pre ++ [x]) ++ tail)
    by (now rewrite <- !app_assoc).
  replace (S (List.length (front ++ pre)))
    with (List.length front + List.length (pre ++ [x]))%nat
    by (rewrite !length_app; simpl; lia).
  now rewrite IH.
Qed.

Lemma join_bytes_chars (data : list Z) :
  join_bytes (map (fun b => VBytes [b]) data) = Ok data.
Proof.
  induction data as [|b d IH]; [reflexivity|].
  cbn [map join_bytes]. now rewrite IH.
Qed.

Lemma length_list_set {A : Type} (l : list A) :
  forall i v, List.length (list_set l i v) = List.length l.
Proof.
  induction l as [|x l IH]; intros [|i] v; simpl; auto.
Qed.

(** The loop of [unpack_message] when every component stores its own slot:
    the result array ends up holding the expected values. *)
Lemma unpack_loop_fills (t : template) (mask : list Z) (data : list value)
  (expected : list value) :
  (forall j arr v,
      nth_error expected j = Some v ->
      unpack_component t mask data arr (Z.of_nat j)
      = Ok (list_set arr j v)) ->
  forall m j,
    (j + m)%nat = List.length expected ->
    unpack_loop t mask data (map Z.of_nat (seq j m))
      (firstn j expected ++ repeat (VStr []) m)
    = Ok expected.
Proof.
  intro Hcomp. induction m as [|m IH]; intros j Hlen.
  - cbn. rewrite app_nil_r, firstn_all2 by lia. reflexivity.
  - cbn [seq map unpack_loop repeat].
    destruct (nth_error expected j) as [v|] eqn:Hv.
    2:{ apply nth_error_None in Hv. lia. }
    rewrite (Hcomp j _ v Hv). cbn [bind].
    apply nth_error_split in Hv as [l1 [l2 [He Hl1]]].
    assert (H1 : firstn j expected = l1)
      by (subst expected j; apply firstn_exact).
    assert (H2 : firstn (S j) expected = l1 ++ [v]).
    { subst expected j.
      replace (S (List.length l1)) with (List.length (l1 ++ [v]))
        by (rewrite length_app; simpl; lia).
      replace (l1 ++ v :: l2) with ((l1 ++ [v]) ++ l2)
        by now rewrite <- app_assoc.
      apply firstn_exact. }
    specialize (IH (S j)). rewrite H2 in IH. rewrite H1.
    rewrite <- Hl1, list_set_middle.
    replace (l1 ++ v :: repeat (VStr []) m)
      with ((l1 ++ [v]) ++ repeat (VStr []) m)
      by now rewrite <- app_assoc.
    rewrite Hl1. apply IH. lia.
Qed.

End UnpackSide.

Lemma tail_value_cases (d : list Z) :
  (d = [] /\ match d with [] => [] | _ => [VBytes d] end = @nil value)
  \/ (d <> [] /\ match d with [] => [] | _ => [VBytes d] end = [VBytes d]).
Proof. destruct d; [left | right]; split; auto; discriminate. Qed.

Section Supported.

Variables (tag : Z) (t : template) (ints tail : list field).
Variables (xs data : list Z).

Hypothesis Htag : 0 <= tag < 256.
Hypothesis Ht : lookup tag templates = Some t.
Hypothesis Hname : name_ok t = true.
Hypothesis Hfields : tfields t = ints ++ tail.
Hypothesis Hints : forallb int_field ints = true.
Hypothesis Hranges : in_ranges ints xs.
(** Either there is no byte field and no data, or the byte field follows
    the integers immediately. *)
Hypothesis Htail :
  (tail = [] /\ data = [])
  \/ (exists vf, tail = [vf] /\ bytes_tail vf = true
                 /\ fstart vf = 4 + widths ints).

Let k : nat := List.length ints.
Let vals : list value := VInt tag :: map VInt xs.
Let chars : list value := map (fun b => VBytes [b]) data.
Let mask : list Z :=
  count_from 0 (S k) ++ repeat (Z.of_nat (S k)) (List.length data).
Let expected : list value :=
  vals ++ match data with [] => [] | _ => [VBytes data] end.

Lemma in_ranges_length : List.length xs = List.length ints.
Proof.
  clear - Hranges. revert xs Hranges.
  induction ints as [|f fs IH]; intros [|x r] H; simpl in *;
    try contradiction; [reflexivity|].
  destruct H as [_ H]. now rewrite (IH r H).
Qed.

Lemma entry3_tag : exists s, entry3 t 0 = Ok s /\ String.eqb s "bytes" = false.
Proof.
  clear - Hname. unfold name_ok in Hname.
  destruct (entry3 t 0) as [s|]; [|discriminate].
  exists s. split; [reflexivity|].
  destruct (String.eqb s "bytes"); [discriminate|reflexivity].
Qed.

Lemma entry3_int (j : nat) :
  (j < k)%nat -> exists f, entry3 t (Z.of_nat (S j)) = Ok (ftype f).
Proof.
  intro Hj. subst k.
  destruct (nth_error ints j) as [f|] eqn:Hf.
  2:{ apply nth_error_None in Hf. lia. }
  exists f. apply nth_error_split in Hf as [l1 [l2 [He Hl1]]].
  replace (Z.of_nat (S j)) with (1 + len l1) by (unfold len; lia).
  apply (entry3_field t l1 (l2 ++ tail) f).
  rewrite Hfields, He. now rewrite <- app_assoc.
Qed.

Lemma vals_are_ints (j : nat) (v : value) :
  nth_error vals j = Some v -> exists y, v = VInt y.
Proof.
  intro H. apply nth_error_In in H. subst vals.
  destruct H as [H|H]; [eauto|].
  apply in_map_iff in H as [y [H _]]. eauto.
Qed.

Lemma length_vals : List.length vals = S k.
Proof. subst vals k. simpl. now rewrite length_map, in_ranges_length. Qed.

(** A component of the integer part reads exactly its own struct item. *)
Lemma unpack_component_int (j : nat) (arr : list value) (v : value) :
  (j < S k)%nat ->
  nth_error vals j = Some v ->
  unpack_component t mask (vals ++ chars) arr (Z.of_nat j)
  = Ok (list_set arr j v).
Proof.
  intros Hj Hv. unfold unpack_component, mask.
  rewrite np_where_app, np_where_count_from, np_where_repeat.
  replace ((0 <=? Z.of_nat j) && (Z.of_nat j <? 0 + Z.of_nat (S k)))
    with true
    by (symmetry; apply andb_true_iff; split;
        [apply Z.leb_le | apply Z.ltb_lt]; lia).
  replace (Z.of_nat (S k) =? Z.of_nat j) with false
    by (symmetry; apply Z.eqb_neq; lia).
  replace (0 + Z.to_nat (Z.of_nat j - 0))%nat with j by lia.
  cbn [app mapM]. unfold index at 1.
  rewrite nth_error_app1 by (rewrite length_vals; lia).
  rewrite Hv. cbn [bind].
  assert (He : exists ty, entry3 t (Z.of_nat j) = Ok ty).
  { destruct j as [|j].
    - destruct entry3_tag as [s [Hs _]]. eauto.
    - destruct (entry3_int j) as [f Hf]; [lia|]. eauto. }
  destruct He as [ty ->]. cbn [bind].
  rewrite Nat2Z.id.
  destruct (vals_are_ints j v Hv) as [y ->].
  change (1 <? len [VInt y]) with false. cbn iota.
  destruct (String.eqb ty "uint64_t"); [reflexivity|].
  destruct (String.eqb ty "uint8_t"); reflexivity.
Qed.

(** The component of the byte field joins the single characters. *)
Lemma unpack_component_bytes (arr : list value) (vf : field) :
  tail = [vf] -> bytes_tail vf = true -> data <> [] ->
  unpack_component t mask (vals ++ chars) arr (Z.of_nat (S k))
  = Ok (list_set arr (S k) (VBytes data)).
Proof.
  intros Hvf Hbt Hdata. unfold unpack_component, mask.
  rewrite np_where_app, np_where_count_from, np_where_repeat.
  replace ((0 <=? Z.of_nat (S k)) && (Z.of_nat (S k) <? 0 + Z.of_nat (S k)))
    with false
    by (symmetry; apply andb_false_iff; right; apply Z.ltb_ge; lia).
  rewrite Z.eqb_refl. cbn [app].
  replace (0 + List.length (count_from 0 (S k)))%nat
    with (List.length vals).
  2:{ rewrite length_vals. clear. simpl. f_equal.
      generalize 1. induction k; intro c; simpl; auto. }
  replace (List.length data) with (List.length chars)
    by (subst chars; apply length_map).
  pose proof (mapM_index_seq vals chars []) as Hm.
  cbn [app List.length Nat.add] in Hm. rewrite Hm. cbn [bind].
  assert (He : entry3 t (Z.of_nat (S k)) = Ok "bytes"%string).
  { replace (Z.of_nat (S k)) with (1 + len ints) by (unfold len; subst k; lia).
    rewrite (entry3_field t ints [] vf) by (now rewrite Hfields, Hvf).
    unfold bytes_tail in Hbt.
    apply andb_true_iff in Hbt as [Hbt _].
    apply andb_true_iff in Hbt as [Hbt _].
    apply String.eqb_eq in Hbt. now rewrite Hbt. }
  rewrite He. cbn [bind]. rewrite Nat2Z.id.
  destruct (1 <? len chars) eqn:Hlen.
  - cbn [String.eqb Ascii.eqb Bool.eqb andb].
    unfold chars. rewrite join_bytes_chars. reflexivity.
  - destruct data as [|b [|b' d]]; [contradiction| reflexivity |].
    exfalso. apply Z.ltb_ge in Hlen. unfold chars, len in Hlen.
    simpl in Hlen. lia.
Qed.

(** The loop of [unpack_message] over this mask and these struct values. *)
Lemma unpack_loop_supported :
  exists mx,
    np_max mask = Ok mx
    /\ unpack_loop t mask (vals ++ chars) (range (mx + 1))
         (repeat (VStr []) (Z.to_nat (mx + 1)))
       = Ok expected.
Proof.
  pose proof length_vals as Hlv.
  assert (Hcomp : forall j arr v,
      nth_error expected j = Some v ->
      unpack_component t mask (vals ++ chars) arr (Z.of_nat j)
      = Ok (list_set arr j v)).
  { intros j arr v Hv. unfold expected in Hv.
    destruct (Nat.lt_ge_cases j (S k)) as [Hj|Hj].
    - rewrite nth_error_app1 in Hv by lia.
      now apply unpack_component_int.
    - rewrite nth_error_app2 in Hv by lia. rewrite Hlv in Hv.
      destruct (tail_value_cases data) as [[Hd He]|[Hd He]];
        rewrite He in Hv.
      + destruct (j - S k)%nat; discriminate.
      + destruct (j - S k)%nat as [|m] eqn:Hm.
        2:{ destruct m; discriminate. }
        injection Hv as <-. assert (j = S k) by lia. subst j.
        destruct Htail as [[_ Habs]|[vf [Hvf [Hbt _]]]]; [contradiction|].
        apply (unpack_component_bytes arr vf); auto. }
  unfold mask at 1. rewrite np_max_mask. eexists. split; [reflexivity|].
  assert (Hlen : List.length expected
                 = Z.to_nat ((if (List.length data =? 0)%nat
                              then Z.of_nat k else Z.of_nat (S k)) + 1)).
  { unfold expected. rewrite length_app, Hlv.
    destruct (tail_value_cases data) as [[Hd He]|[Hd He]]; rewrite He.
    - rewrite Hd. simpl. lia.
    - replace (List.length data =? 0)%nat with false; [simpl; lia|].
      symmetry. apply Nat.eqb_neq. intro H0.
      apply length_zero_iff_nil in H0. contradiction. }
  unfold range. rewrite <- Hlen.
  apply (unpack_loop_fills t mask (vals ++ chars) expected Hcomp
           (List.length expected) 0%nat).
  reflexivity.
Qed.

Let payload : list Z := tag :: pack_ints ints xs ++ data.

(** The arguments of the byte field: none if the schema has none. *)
Let targs : list value :=
  match tail with [] => [] | _ => [VBytes data] end.

Lemma can_process_tag (rest : list Z) : can_process (tag :: rest) = Ok true.
Proof.
  unfold can_process. cbn [index nth_error bind]. now rewrite Ht.
Qed.

Lemma pack_message_supported :
  pack_message (vals ++ targs) = Ok payload.
Proof.
  pose proof in_ranges_length as Hlen.
  unfold pack_message, generate_struct_encode, vals.
  cbn [app index nth_error bind tl].
  rewrite bytes_of_int_byte by assumption. cbn [bind].
  rewrite can_process_tag. cbn [negb bind index nth_error].
  unfold get_template. rewrite Ht. cbn [bind].
  rewrite Hfields, encode_fields_ints by assumption.
  cbn [pack_args].
  destruct entry3_tag as [s [Hs Hb]]. rewrite Hs. cbn [bind]. rewrite Hb.
  change (0 + 1) with (1 + len (@nil field)).
  cbn [app].
  assert (Hargs : forall out,
    pack_args t (1 + len (@nil field)) (map VInt xs ++ targs) out
    = pack_args t (1 + len ints) targs (out ++ map VInt xs)).
  { intro out.
    rewrite (pack_args_ints t ints [] xs tail targs out) by auto.
    now rewrite len_nil. }
  destruct Htail as [[Htl Hd]|[vf [Hvf [Hbt Hstart]]]].
  - (* integer fields only *)
    unfold targs in *. rewrite Htl in *. cbn [encode_fields bind].
    rewrite Hargs. cbn [pack_args bind].
    change (FB :: map item_of ints) with ([FB] ++ map item_of ints).
    cbn [app struct_pack item_width].
    rewrite pack_int_in_range by (simpl; lia). cbn [bind].
    rewrite <- (app_nil_r (map item_of ints)),
            <- (app_nil_r (map VInt xs)).
    rewrite struct_pack_ints by assumption.
    cbn [struct_pack bind be_bytes app].
    unfold payload. rewrite Hd, Z.mod_small by lia. reflexivity.
  - (* integer fields, then the byte field *)
    unfold targs in *. rewrite Hvf in *.
    rewrite encode_fields_bytes_tail by assumption. cbn [bind].
    rewrite Hargs. cbn [pack_args].
    rewrite (entry3_field t ints [] vf) by (now rewrite Hfields).
    cbn [bind pack_args].
    cbn [app struct_pack item_width].
    rewrite pack_int_in_range by (simpl; lia). cbn [bind].
    rewrite struct_pack_ints by assumption.
    rewrite struct_pack_chars. cbn [bind be_bytes app].
    unfold payload. rewrite Z.mod_small by lia. reflexivity.
Qed.

Lemma len_payload : len payload = 1 + widths ints + len data.
Proof.
  unfold payload. rewrite len_cons, len_app, length_pack_ints.
  - lia.
  - apply in_ranges_length.
Qed.

Lemma unpack_message_supported :
  unpack_message payload = Ok expected.
Proof.
  assert (Hdec : exists tailfmt,
    generate_struct_decode payload
    = Ok (FB :: map item_of ints ++ tailfmt, mask)
    /\ calcsize tailfmt = Ok (len data)
    /\ unpack_items tailfmt data = chars).
  { unfold generate_struct_decode. unfold payload at 1 2.
    rewrite can_process_tag. cbn [negb bind index nth_error].
    unfold get_template. rewrite Ht. cbn [bind].
    rewrite Hfields, decode_fields_ints by assumption.
    destruct Htail as [[Htl Hd]|[vf [Hvf [Hbt Hstart]]]].
    - exists []. rewrite Htl. cbn [decode_fields].
      unfold mask, chars. rewrite Hd. cbn [List.length repeat map].
      rewrite !app_nil_r. repeat split.
    - exists [Fc (len data)]. rewrite Hvf.
      rewrite decode_fields_bytes_tail by assumption.
      rewrite len_payload, Hstart.
      replace (1 + widths ints + len data + 3 - (4 + widths ints))
        with (len data) by lia.
      unfold mask, chars. cbn [app count_from].
      replace (1 + len ints) with (Z.of_nat (S k))
        by (unfold len; subst k; lia).
      replace (Z.to_nat (len data)) with (List.length data)
        by (unfold len; lia).
      split; [reflexivity|]. split; [|apply unpack_items_chars].
      pose proof (len_nonneg data). cbn [calcsize item_size].
      replace (len data <? 0) with false by (symmetry; apply Z.ltb_ge; lia).
      cbn [bind]. f_equal. lia. }
  destruct Hdec as [tailfmt [Hdec [Hsize Hitems]]].
  unfold unpack_message. rewrite Hdec. cbn [bind].
  unfold struct_unpack.
  cbn [calcsize item_size bind].
  rewrite calcsize_ints, Hsize by assumption. cbn [bind].
  rewrite len_payload.
  replace (1 + widths ints + len data =? 1 + (widths ints + len data))
    with true by (symmetry; apply Z.eqb_eq; lia).
  cbn [bind]. unfold payload at 1 2.
  cbn [unpack_items item_width firstn skipn index nth_error bind].
  rewrite unpack_items_ints, Hitems by assumption.
  unfold get_template. rewrite Ht. cbn [bind].
  change (be_value [tag]) with (0 * 256 + tag).
  replace (0 * 256 + tag) with tag by lia.
  change (VInt tag :: map VInt xs ++ chars) with (vals ++ chars).
  destruct unpack_loop_supported as [mx [Hmx Hloop]].
  rewrite Hmx. cbn [bind]. exact Hloop.
Qed.

End Supported.

(* ================================================================== *)
(** * [pack_message] and the number of arguments, continued *)

Section MissingArguments.

Lemma registered_name_ok (tag : Z) (t : template) :
  lookup tag templates = Some t -> name_ok t = true.
Proof. intro Ht. registered Ht; reflexivity. Qed.

(** Values for a leading run of integer fields are packed whatever fields
    follow the run in the schema. *)
Lemma pack_message_leading_ints (tag : Z) (t : template)
    (ints rest : list field) (xs : list Z) :
  0 <= tag < 256 ->
  lookup tag templates = Some t ->
  tfields t = ints ++ rest ->
  forallb int_field ints = true ->
  in_ranges ints xs ->
  pack_message (VInt tag :: map VInt xs) = Ok (tag :: pack_ints ints xs).
Proof.
  intros Htag Ht Hfields Hints Hranges.
  pose proof (in_ranges_length ints xs Hranges) as Hlen.
  pose proof (registered_name_ok tag t Ht) as Hname.
  assert (Hnil : forall ts, encode_fields rest [] ts = Ok ts)
    by (intro ts; destruct rest; reflexivity).
  unfold pack_message, generate_struct_encode.
  cbn [app index nth_error bind tl].
  rewrite bytes_of_int_byte by assumption. cbn [bind].
  rewrite (can_process_tag tag t Ht). cbn [negb bind index nth_error].
  unfold get_template. rewrite Ht. cbn [bind].
  rewrite Hfields.
  rewrite <- (app_nil_r (map VInt xs)).
  rewrite encode_fields_ints, Hnil by assumption.
  cbn [bind pack_args].
  destruct (entry3_tag t Hname) as [s [Hs Hb]]. rewrite Hs. cbn [bind].
  rewrite Hb.
  change (0 + 1) with (1 + len (@nil field)). cbn [app].
  rewrite (pack_args_ints t ints [] xs rest [] [VInt tag]) by auto.
  cbn [pack_args bind app struct_pack item_width].
  rewrite pack_int_in_range by (simpl; lia). cbn [bind].
  rewrite <- (app_nil_r (map item_of ints)), <- (app_nil_r (map VInt xs)).
  rewrite struct_pack_ints by assumption.
  cbn [struct_pack bind be_bytes app].
  rewrite Z.mod_small by lia. now rewrite app_nil_r.
Qed.

(** C6 (as amended).  For a one-byte tag: an unregistered tag makes
    [pack_message] fail with the assertion error; more arguments than the
    schema has fields make it fail with an index error; missing arguments
    are not detected: the tag followed by in-range values for a leading run
    of the schema's integer fields (none of them, some, or all) is packed
    into the tag byte followed by those values, big-endian in their
    declared widths, whatever fields of the schema are left without a
    value. *)
Theorem pack_message_argument_count (tag : Z) (args : list value) :
  0 <= tag < 256 ->
  (lookup tag templates = None ->
   pack_message (VInt tag :: args) = Raise AssertionError)
  /\ (forall t, lookup tag templates = Some t ->
        ((List.length (tfields t) < List.length args)%nat ->
         pack_message (VInt tag :: args) = Raise IndexError)
        /\ (forall ints rest xs,
              tfields t = ints ++ rest ->
              forallb int_field ints = true ->
              in_ranges ints xs ->
              args = map VInt xs ->
              pack_message (VInt tag :: args)
              = Ok (tag :: pack_ints ints xs))).
Proof.
  intro Htag. split.
  - intro Hnone. unfold pack_message. cbn [index nth_error bind].
    rewrite bytes_of_int_byte by assumption.
    unfold can_process. cbn [index nth_error bind]. now rewrite Hnone.
  - intros t Ht. split.
    + intro Hlen. unfold pack_message, generate_struct_encode, get_template.
      cbn [index nth_error bind].
      rewrite bytes_of_int_byte by assumption.
      unfold can_process. cbn [index nth_error bind]. rewrite Ht.
      cbn [negb bind tl].
      now rewrite encode_fields_too_many.
    + intros ints rest xs Hfields Hints Hranges ->.
      now apply (pack_message_leading_ints tag t ints rest xs).
Qed.

Lemma pack_message_argument_count_witness :
  pack_message [VInt 0x8A; VInt 1; VInt 2] = Raise IndexError
  /\ pack_message [VInt 0x8B; VInt 5; VInt 0x0102]
     = Ok [0x8B; 5; 0x01; 0x02]
  /\ pack_message [VInt 0x8B] = Ok [0x8B].
Proof.
  split; [|split].
  - destruct (pack_message_argument_count 0x8A [VInt 1; VInt 2]) as [_ H];
      [lia|].
    destruct (H (Template "Modem Status Frame"
                   [Field "Status" 4 1 "uint8_t" []]) eq_refl)
      as [Hmany _].
    apply Hmany. simpl. lia.
  - destruct (pack_message_argument_count 0x8B [VInt 5; VInt 0x0102])
      as [_ H]; [lia|].
    destruct (H _ eq_refl) as [_ Hfew].
    exact (Hfew [Field "Frame ID" 4 1 "uint8_t" [];
                 Field "Reserved" 5 2 "uint16_t" []]
             [Field "Transmit Retry Count" 7 1 "uint8_t" [];
              Field "Delivery Status" 8 1 "uint8_t" [];
              Field "Discovery Status" 9 1 "uint8_t" []]
             [5; 0x0102] eq_refl eq_refl
             ltac:(simpl; lia) eq_refl).
  - destruct (pack_message_argument_count 0x8B []) as [_ H]; [lia|].
    destruct (H _ eq_refl) as [_ Hfew].
    exact (Hfew [] _ [] eq_refl eq_refl I eq_refl).
Defined.

End MissingArguments.

Section RegisteredRoundTrip.

Lemma leading_ints_spec (fields : list field) :
  forall a b, leading_ints fields = (a, b) ->
    fields = a ++ b /\ forallb int_field a = true.
Proof.
  induction fields as [|f r IH]; intros a b H; simpl in H.
  - injection H as <- <-. auto.
  - destruct (int_field f) eqn:Hf.
    + destruct (leading_ints r) as [a' b'] eqn:E.
      injection H as <- <-. destruct (IH a' b' eq_refl) as [-> Hi].
      simpl. rewrite Hf. auto.
    + injection H as <- <-. auto.
Qed.

Lemma legal_int_value (f : field) (v : value) :
  int_field f = true -> legal_value f v = true ->
  exists x, v = VInt x /\ 0 <= x < 256 ^ Z.of_nat (field_width f).
Proof.
  intros Hf Hv. destruct v as [x|s|b|]; simpl in Hv.
  - exists x. split; [reflexivity|]. unfold field_width.
    destruct (int_width (ftype f)); [|discriminate].
    apply andb_true_iff in Hv as [H1 H2].
    apply Z.leb_le in H1. apply Z.ltb_lt in H2. lia.
  - int_type f Hf; rewrite E in Hv; discriminate.
  - int_type f Hf; rewrite E in Hv; discriminate.
  - discriminate.
Qed.

Lemma legal_values_ints (ints : list field) :
  forall tail vals,
    forallb int_field ints = true ->
    legal_values (ints ++ tail) vals = true ->
    exists xs tvals,
      vals = map VInt xs ++ tvals /\ in_ranges ints xs
      /\ legal_values tail tvals = true.
Proof.
  induction ints as [|f fs IH]; intros tail vals Hint Hv.
  - exists [], vals. simpl. auto.
  - simpl in Hint. apply andb_true_iff in Hint as [Hf Hfs].
    destruct vals as [|v vs]; [discriminate|].
    cbn [app legal_values] in Hv. apply andb_true_iff in Hv as [Hv Hvs].
    destruct (legal_int_value f v Hf Hv) as [x [-> Hx]].
    destruct (IH tail vs Hfs Hvs) as [xs [tvals [-> [Hr Ht]]]].
    exists (x :: xs), tvals. simpl. auto.
Qed.

Lemma legal_bytes_value (vf : field) (tvals : list value) :
  bytes_tail vf = true -> legal_values [vf] tvals = true ->
  exists data, tvals = [VBytes data].
Proof.
  intros Hbt Hv. unfold bytes_tail in Hbt.
  apply andb_true_iff in Hbt as [Hbt _].
  apply andb_true_iff in Hbt as [Hbt _]. apply String.eqb_eq in Hbt.
  destruct tvals as [|v [|v' r]]; try discriminate.
  - simpl in Hv. rewrite andb_true_r in Hv.
    destruct v as [x|s|b|]; simpl in Hv; try discriminate.
    + rewrite Hbt in Hv. discriminate.
    + rewrite Hbt in Hv. discriminate.
    + eauto.
  - simpl in Hv. rewrite andb_false_r in Hv. discriminate.
Qed.

Lemma registered_without_text (tag : Z) (t : template) :
  lookup tag templates = Some t -> has_str_field t = false ->
  supported t = true /\ 0 <= tag < 256.
Proof.
  intros Ht Hs. registered Ht; try discriminate Hs;
    (split; [reflexivity | lia]).
Qed.

(** X19.  For every registered schema without a text field and every
    legal argument assignment in which no byte string is empty,
    [unpack_message] applied to the packed payload returns the arguments
    field for field; and whenever the payload is shorter than 65536 bytes,
    reading the wire frame built from it returns exactly the payload. *)
Theorem roundtrip_without_text_fields (tag : Z) (t : template)
  (args : list value) :
  lookup tag templates = Some t ->
  has_str_field t = false ->
  legal_args tag args = true ->
  forallb nonempty_value args = true ->
  exists payload,
    pack_message args = Ok payload
    /\ unpack_message payload = Ok args
    /\ (len payload < 65536 ->
        forall rest,
          read_payload (_prepare_write payload ++ rest)
          = (Ok (Some payload), rest)).
Proof.
  intros Ht Hstr Hlegal Hne.
  destruct (registered_without_text tag t Ht Hstr) as [Hsup Htag].
  unfold supported in Hsup. apply andb_true_iff in Hsup as [Hname Hshape].
  destruct (leading_ints (tfields t)) as [ints tail] eqn:Hlead.
  destruct (leading_ints_spec _ _ _ Hlead) as [Hfields Hints].
  unfold legal_args in Hlegal. rewrite Ht in Hlegal.
  destruct args as [|[a0| | |] vals]; try discriminate.
  apply andb_true_iff in Hlegal as [Ha0 Hvals].
  apply Z.eqb_eq in Ha0. subst a0.
  rewrite Hfields in Hvals.
  destruct (legal_values_ints ints tail vals Hints Hvals)
    as [xs [tvals [-> [Hranges Htvals]]]].
  destruct tail as [|vf [|vf' tail']]; try discriminate.
  - (* integer fields only *)
    destruct tvals; [|discriminate].
    pose proof (pack_message_supported tag t ints [] xs [] Htag Ht Hname
                  Hfields Hints Hranges (or_introl (conj eq_refl eq_refl)))
      as Hpack.
    pose proof (unpack_message_supported tag t ints [] xs [] Ht Hname
                  Hfields Hints Hranges (or_introl (conj eq_refl eq_refl)))
      as Hunpack.
    cbn [app] in Hpack, Hunpack.
    rewrite (@app_nil_r value), (@app_nil_r Z) in Hpack, Hunpack.
    rewrite (@app_nil_r value).
    eexists. split; [exact Hpack|]. split; [exact Hunpack|].
    intros Hlen rest. now apply read_payload_wire_frame.
  - (* integer fields and the byte field *)
    apply andb_true_iff in Hshape as [Hbt Hstart]. apply Z.eqb_eq in Hstart.
    destruct (legal_bytes_value vf tvals Hbt Htvals) as [data ->].
    assert (Hdata : data <> []).
    { intros ->. cbn [forallb] in Hne.
      rewrite forallb_app in Hne. cbn in Hne.
      rewrite andb_false_r in Hne. discriminate. }
    assert (Hcase : ([vf] = [] /\ data = [])
                    \/ (exists vf0, [vf] = [vf0] /\ bytes_tail vf0 = true
                                    /\ fstart vf0 = 4 + widths ints))
      by (right; eauto).
    pose proof (pack_message_supported tag t ints [vf] xs data Htag Ht Hname
                  Hfields Hints Hranges Hcase) as Hpack.
    pose proof (unpack_message_supported tag t ints [vf] xs data Ht
                  Hname Hfields Hints Hranges Hcase) as Hunpack.
    destruct (tail_value_cases data) as [[Hd _]|[_ He]]; [contradiction|].
    rewrite He in Hunpack. cbn [app] in Hpack, Hunpack.
    eexists. split; [exact Hpack|]. split; [exact Hunpack|].
    intros Hlen rest. now apply read_payload_wire_frame.
Qed.

Lemma roundtrip_without_text_fields_witness :
  exists payload,
    pack_message [VInt 0x10; VInt 5; VInt 0xFFFFFFFFFFFFFFFF; VInt 0xFFFE;
                  VInt 0; VInt 0; VBytes [0x03; 0x00; 0xC8]] = Ok payload
    /\ unpack_message payload
       = Ok [VInt 0x10; VInt 5; VInt 0xFFFFFFFFFFFFFFFF; VInt 0xFFFE;
             VInt 0; VInt 0; VBytes [0x03; 0x00; 0xC8]]
    /\ (len payload < 65536 ->
        forall rest,
          read_payload (_prepare_write payload ++ rest)
          = (Ok (Some payload), rest)).
Proof.
  exact (roundtrip_without_text_fields 0x10 _
           [VInt 0x10; VInt 5; VInt 0xFFFFFFFFFFFFFFFF; VInt 0xFFFE;
            VInt 0; VInt 0; VBytes [0x03; 0x00; 0xC8]]
           eq_refl eq_refl eq_refl eq_refl).
Defined.

(** A byte string of length zero is not reproduced.  A transmit request
    with empty RF data packs (seven values for the tag and six fields of
    schema 0x10), but the packed payload unpacks to six values only: the
    data field is gone. *)
Lemma roundtrip_drops_empty_data :
  legal_args 0x10 [VInt 0x10; VInt 5; VInt 0xFFFF; VInt 0xFFFE;
                   VInt 0; VInt 0; VBytes []] = true
  /\ pack_message [VInt 0x10; VInt 5; VInt 0xFFFF; VInt 0xFFFE;
                   VInt 0; VInt 0; VBytes []]
     = Ok [0x10; 5; 0; 0; 0; 0; 0; 0; 0xFF; 0xFF; 0xFF; 0xFE; 0; 0]
  /\ unpack_message [0x10; 5; 0; 0; 0; 0; 0; 0; 0xFF; 0xFF; 0xFF; 0xFE; 0; 0]
     = Ok [VInt 0x10; VInt 5; VInt 0xFFFF; VInt 0xFFFE; VInt 0; VInt 0]
  /\ unpack_message [0x10; 5; 0; 0; 0; 0; 0; 0; 0xFF; 0xFF; 0xFF; 0xFE; 0; 0]
     <> Ok [VInt 0x10; VInt 5; VInt 0xFFFF; VInt 0xFFFE;
            VInt 0; VInt 0; VBytes []].
Proof.
  split; [reflexivity|]. split; [reflexivity|]. split; [reflexivity|].
  vm_compute. discriminate.
Qed.

(** C1.  The round trip fails at a legal assignment of the AT-command
    schema 0x08: frame id 1, the two-character command NI and one
    parameter byte.  For the string argument [generate_struct_encode]
    emits one character item whatever the length of the string, while
    [pack_message] hands over one item per character, so [struct_pack]
    rejects the arguments and no payload is produced.  The decoding side
    does handle the text field: the payload 08 01 4E 49 01 unpacks to
    exactly these arguments. *)
Theorem pack_message_text_argument_fails :
  legal_args 0x08 [VInt 0x08; VInt 1; VStr [78; 73]; VBytes [1]] = true
  /\ generate_struct_encode [VInt 0x08; VInt 1; VStr [78; 73]; VBytes [1]]
     = Ok [FB; FB; Fc 1; Fc 1]
  /\ pack_message [VInt 0x08; VInt 1; VStr [78; 73]; VBytes [1]]
     = Raise StructError
  /\ unpack_message [0x08; 1; 78; 73; 1]
     = Ok [VInt 0x08; VInt 1; VStr [78; 73]; VBytes [1]].
Proof. repeat split; reflexivity. Qed.

End RegisteredRoundTrip.

(* ================================================================== *)
(** * Every decoded frame has an element at index 1 *)

Section FrameShape.

Lemma unpack_component_length (t : template) (mask : list Z)
  (data arr r : list value) (idx : Z) :
  unpack_component t mask data arr idx = Ok r ->
  List.length r = List.length arr.
Proof.
  unfold unpack_component.
  destruct (mapM (index data) (np_where mask idx 0)) as [values|];
    [|discriminate].
  cbn [bind]. destruct (entry3 t idx) as [ty|]; [|discriminate].
  cbn [bind].
  destruct (1 <? len values).
  - destruct (String.eqb ty "str").
    + destruct (join_bytes values) as [j|]; [|discriminate]. cbn [bind].
      destruct (utf8_decode j); [|discriminate]. cbn [bind].
      intro H. injection H as <-. apply length_list_set.
    + destruct (String.eqb ty "bytes").
      * destruct (join_bytes values) as [j|]; [|discriminate]. cbn [bind].
        intro H. injection H as <-. apply length_list_set.
      * intro H. injection H as <-. reflexivity.
  - destruct (String.eqb ty "uint64_t"); [|destruct (String.eqb ty "uint8_t")];
      (destruct (index values 0) as [v0|]; [|discriminate]); cbn [bind];
      try (destruct (py_int v0); [|discriminate]; cbn [bind]);
      intro H; injection H as <-; apply length_list_set.
Qed.

Lemma unpack_loop_length (t : template) (mask : list Z) (data : list value)
  (idxs : list Z) :
  forall arr r,
    unpack_loop t mask data idxs arr = Ok r ->
    List.length r = List.length arr.
Proof.
  induction idxs as [|i idxs IH]; intros arr r H; simpl in H.
  - now injection H as <-.
  - destruct (unpack_component t mask data arr i) as [arr'|] eqn:E;
      [|discriminate].
    cbn [bind] in H. rewrite (IH _ _ H).
    now apply unpack_component_length in E.
Qed.

Lemma decode_fields_mask_prefix (fields : list field) :
  forall L c type_string mask_string,
    exists extra,
      snd (decode_fields L c fields type_string mask_string)
      = mask_string ++ extra.
Proof.
  induction fields as [|f fs IH]; intros L c ts mask.
  - exists []. simpl. now rewrite app_nil_r.
  - cbn [decode_fields].
    repeat match goal with
    | |- context [if ?b then _ else _] => destruct b
    end;
    match goal with
    | |- context [decode_fields L (c + 1) fs ?ts' (mask ++ ?e)] =>
      destruct (IH L (c + 1) ts' (mask ++ e)) as [extra ->];
      exists (e ++ extra); now rewrite app_assoc
    | |- context [decode_fields L (c + 1) fs ?ts' mask] =>
      destruct (IH L (c + 1) ts' mask) as [extra ->];
      exists extra; reflexivity
    end.
Qed.

(** Every registered schema starts with an integer field. *)
Lemma registered_first_field (tag : Z) (t : template) :
  lookup tag templates = Some t ->
  exists f rest, tfields t = f :: rest /\ int_field f = true.
Proof.
  intro Ht. registered Ht; do 2 eexists; split; reflexivity.
Qed.

Lemma unpack_message_has_id (msg : list Z) (f : frame) :
  unpack_message msg = Ok f -> (2 <= List.length f)%nat.
Proof.
  unfold unpack_message, generate_struct_decode, can_process, get_template.
  destruct (index msg 0) as [m0|]; [|discriminate]. cbn [bind].
  destruct (lookup m0 templates) as [t|] eqn:Ht; [|discriminate].
  cbn [negb bind].
  destruct (registered_first_field m0 t Ht) as [f1 [rest [Hf Hint]]].
  rewrite Hf.
  change (f1 :: rest) with ([f1] ++ rest).
  rewrite decode_fields_ints by (simpl; now rewrite Hint).
  destruct (decode_fields_mask_prefix rest (len msg) (1 + len [f1])
              ([FB] ++ map item_of [f1]) ([0] ++ count_from 1 1))
    as [extra Hmask].
  destruct (decode_fields _ _ rest _ _) as [ts mask]. simpl in Hmask.
  subst mask.
  destruct (struct_unpack ts msg); [|discriminate]. cbn [bind np_max].
  intro H. apply unpack_loop_length in H. rewrite H, repeat_length.
  change (fold_left Z.max (1 :: extra) 0) with (fold_left Z.max extra 1).
  pose proof (fold_max_ge extra 1) as Hge. lia.
Qed.

End FrameShape.

(* ================================================================== *)
(** * What one [read] consumes and returns *)

Section ReadOne.

Lemma conn_read_suffix (c c' b : list Z) :
  conn_read c = (b, c') -> exists pre, c = pre ++ c'.
Proof.
  destruct c as [|x r]; simpl; intro H; injection H as <- <-.
  - now exists [].
  - now exists [x].
Qed.

Lemma read_bytes_suffix (todo : nat) :
  forall byte_count msg c r c',
    read_bytes todo byte_count msg c = (r, c') -> exists pre, c = pre ++ c'.
Proof.
  induction todo as [|n IH]; intros k msg c r c' H; simpl in H.
  - injection H as <- <-. now exists [].
  - destruct c as [|b c1]; simpl in H.
    + injection H as <- <-. now exists [].
    + cbn [index nth_error] in H.
      destruct (index (list_set msg k b) k) as [cur|err].
      * destruct (cur =? 0x7D).
        -- destruct c1 as [|x c2]; simpl in H.
           ++ cbn [index nth_error] in H. injection H as <- <-.
              now exists [b].
           ++ cbn [index nth_error] in H.
              apply IH in H as [pre ->]. now exists (b :: x :: pre).
        -- apply IH in H as [pre ->]. now exists (b :: pre).
      * injection H as <- <-. now exists [b].
Qed.

Lemma read_bytes_length (todo : nat) :
  forall byte_count msg c m c',
    read_bytes todo byte_count msg c = (Ok m, c') ->
    List.length m = List.length msg.
Proof.
  induction todo as [|n IH]; intros k msg c m c' H; simpl in H.
  - now injection H as <- <-.
  - destruct c as [|b c1]; simpl in H; [discriminate|].
    cbn [index nth_error] in H.
    destruct (index (list_set msg k b) k) as [cur|err]; [|discriminate].
    destruct (cur =? 0x7D).
    + destruct c1 as [|x c2]; simpl in H; cbn [index nth_error] in H;
        [discriminate|].
      apply IH in H. now rewrite H, !length_list_set.
    + apply IH in H. now rewrite H, length_list_set.
Qed.

Lemma read_if_available_suffix (c c' : list Z) (r : result (list Z)) :
  _read_if_available c = (r, c') -> exists pre, c = pre ++ c'.
Proof.
  unfold _read_if_available.
  destruct c as [|b0 c1]; cbn [in_waiting conn_read].
  - intro H. injection H as <- <-. now exists [].
  - destruct (negb (list_Z_eqb [b0] [0x7E])).
    + intro H. injection H as <- <-. now exists [b0].
    + destruct c1 as [|hi [|lo c3]]; cbn [conn_read index nth_error].
      * intro H. injection H as <- <-. now exists [b0].
      * intro H. injection H as <- <-. now exists [b0; hi].
      * intro H. apply read_bytes_suffix in H as [pre ->].
        now exists (b0 :: hi :: lo :: pre).
Qed.

Lemma read_suffix (c c' : list Z) (r : result frame) :
  read c = (r, c') -> exists pre, c = pre ++ c'.
Proof.
  unfold read, read_payload.
  destruct (_read_if_available c) as [[msg|e] c1] eqn:E;
    apply read_if_available_suffix in E.
  - destruct msg as [|m0 msg].
    + intro H. now injection H as <- <-.
    + destruct (_validate_checksum (m0 :: msg)) as [v|e].
      * destruct (negb v); intro H; now injection H as <- <-.
      * intro H. now injection H as <- <-.
  - intro H. now injection H as <- <-.
Qed.

Lemma read_keeps_bytes (c c' : list Z) (r : result frame) :
  read c = (r, c') -> forallb is_byte c = true -> forallb is_byte c' = true.
Proof.
  intros H Hc. apply read_suffix in H as [pre ->].
  rewrite forallb_app in Hc. now apply andb_true_iff in Hc as [_ Hc].
Qed.

(** With bytes waiting, a successful [read] returns a frame with at least
    the tag and one field. *)
Lemma read_has_id (c c' : list Z) (f : frame) :
  forallb is_byte c = true -> in_waiting c = true ->
  read c = (Ok f, c') -> exists v, nth_error f 1 = Some v.
Proof.
  intros Hb Hw H.
  assert (Hlen : (2 <= List.length f)%nat).
  { unfold read, read_payload in H.
    destruct (_read_if_available c) as [[msg|e] c1] eqn:E; [|discriminate].
    destruct msg as [|m0 msg].
    - exfalso. unfold _read_if_available in E. rewrite Hw in E.
      destruct c as [|b0 c0]; [discriminate|]. cbn [conn_read] in E.
      destruct (negb (list_Z_eqb [b0] [0x7E])); [discriminate|].
      destruct c0 as [|hi [|lo c3]]; cbn [conn_read index nth_error] in E;
        try discriminate.
      apply read_bytes_length in E. rewrite repeat_length in E.
      cbn [forallb] in Hb.
      apply andb_true_iff in Hb as [_ Hb].
      apply andb_true_iff in Hb as [Hhi Hb].
      apply andb_true_iff in Hb as [Hlo _].
      unfold is_byte in Hhi, Hlo.
      apply andb_true_iff in Hhi as [Hhi _]. apply Z.leb_le in Hhi.
      apply andb_true_iff in Hlo as [Hlo _]. apply Z.leb_le in Hlo.
      pose proof (Z.shiftl_nonneg hi 8) as Hs. simpl List.length in E. lia.
    - destruct (_validate_checksum (m0 :: msg)) as [v|e]; [|discriminate].
      destruct (negb v); [discriminate|].
      injection H as H _. now apply unpack_message_has_id in H. }
  destruct f as [|a [|v f']]; simpl in Hlen; try lia.
  now exists v.
Qed.

End ReadOne.

(* ================================================================== *)
(** * Waiting for a frame id *)

Section Await.

Variable target_id : Z.

Lemma byte_stream_step (arrived : list Z) (later : list (list Z))
  (c : conn) :
  byte_stream (arrived :: later) c = true ->
  forallb is_byte (c ++ arrived) = true
  /\ forall c' r, read (c ++ arrived) = (r, c') ->
                  byte_stream later c' = true.
Proof.
  unfold byte_stream. cbn [forallb]. intro H.
  apply andb_true_iff in H as [H Hc]. apply andb_true_iff in H as [Ha Hl].
  assert (Hca : forallb is_byte (c ++ arrived) = true)
    by (rewrite forallb_app, Hc, Ha; reflexivity).
  split; [assumption|]. intros c' r Hr.
  rewrite Hl. cbn [andb]. now apply (read_keeps_bytes _ _ _ Hr).
Qed.

(** Once the loop's frame id equals the target, the loop returns what it
    has collected. *)
Lemma read_until_loop_matched (polls : list (list Z)) (c : conn)
  (frame_id : value) (out : list frame) :
  py_eqb (VInt target_id) frame_id = true ->
  fst (read_until_loop target_id polls c frame_id out) = Ok out.
Proof.
  intro H. destruct polls; cbn [read_until_loop]; [|rewrite H]; reflexivity.
Qed.

Lemma read_until_loop_spec (polls : list (list Z)) :
  forall c frame_id out,
    byte_stream polls c = true ->
    py_eqb (VInt target_id) frame_id = false ->
    fst (read_until_loop target_id polls c frame_id out)
    = let '(fs, err) := receive_all polls c in
      match up_to_match target_id fs, err with
      | (l, true), _ => Ok (out ++ l)
      | (l, false), None => Ok (out ++ l)
      | (_, false), Some e => Raise e
      end.
Proof.
  induction polls as [|arrived later IH]; intros c fid out Hb Hfid.
  - cbn. now rewrite app_nil_r.
  - destruct (byte_stream_step arrived later c Hb) as [Hca Hnext].
    cbn [read_until_loop receive_all]. rewrite Hfid.
    destruct (in_waiting (c ++ arrived)) eqn:Hw.
    + destruct (read (c ++ arrived)) as [[f|e] c'] eqn:Hr.
      * destruct (read_has_id _ _ _ Hca Hw Hr) as [v Hv].
        unfold index. rewrite Hv.
        specialize (Hnext c' _ eq_refl).
        destruct (receive_all later c') as [fs err] eqn:Hall.
        cbn [up_to_match]. unfold correlates. rewrite Hv.
        destruct (py_eqb (VInt target_id) v) eqn:Hm.
        -- now apply read_until_loop_matched.
        -- rewrite (IH c' v (out ++ [f]) Hnext Hm), Hall.
           destruct (up_to_match target_id fs) as [l found].
           rewrite <- app_assoc. reflexivity.
      * reflexivity.
    + apply IH; [|assumption].
      unfold byte_stream in *. cbn [forallb] in Hb.
      apply andb_true_iff in Hb as [Hb _].
      apply andb_true_iff in Hb as [_ Hl]. now rewrite Hl, Hca.
Qed.

(** The collected frames are a prefix of the received ones. *)
Lemma up_to_match_prefix (fs : list frame) :
  exists rest, fs = fst (up_to_match target_id fs) ++ rest.
Proof.
  induction fs as [|f r IH]; [now exists []|].
  destruct IH as [rest IH].
  cbn [up_to_match]. destruct (correlates target_id f).
  - now exists r.
  - destruct (up_to_match target_id r) as [l found]. simpl in *.
    exists rest. now rewrite <- IH.
Qed.

(** No frame before the last collected one correlates with the target. *)
Lemma up_to_match_stops (fs : list frame) :
  existsb (correlates target_id)
    (removelast (fst (up_to_match target_id fs))) = false.
Proof.
  induction fs as [|f r IH]; [reflexivity|].
  cbn [up_to_match]. destruct (correlates target_id f) eqn:E; [reflexivity|].
  destruct (up_to_match target_id r) as [l found]. cbn [fst] in *.
  destruct l as [|x l]; [reflexivity|].
  cbn [removelast existsb] in *. now rewrite E.
Qed.

(** Without a match everything received is collected; with one, the match
    is the last collected frame. *)
Lemma up_to_match_found (fs : list frame) :
  match up_to_match target_id fs with
  | (l, false) => l = fs /\ existsb (correlates target_id) fs = false
  | (l, true) => correlates target_id (last l []) = true
  end.
Proof.
  induction fs as [|f r IH]; [split; reflexivity|].
  cbn [up_to_match]. destruct (correlates target_id f) eqn:E; [exact E|].
  destruct (up_to_match target_id r) as [l [|]].
  - destruct l as [|x l]; [discriminate IH | exact IH].
  - destruct IH as [-> IH]. cbn [existsb]. now rewrite E.
Qed.

(** C7.  On a connection that delivers bytes, [read_until_frame_id]
    returns the frames received while it waited, in arrival order: all of
    them up to and including the first whose element at index 1 equals the
    target, where polling stops; if the time runs out first, all frames
    collected so far (possibly none), and this is a normal return.  A
    failing read ends the wait with that read's error.  (The target 0,
    the loop's initial frame id, ends the wait before the first poll.) *)
Theorem read_until_frame_id_returns (polls : list (list Z)) (c : conn) :
  byte_stream polls c = true ->
  fst (read_until_frame_id target_id polls c)
  = await_result target_id polls c.
Proof.
  intro Hb. unfold read_until_frame_id, await_result.
  destruct (target_id =? 0) eqn:E.
  - now apply read_until_loop_matched.
  - rewrite read_until_loop_spec by assumption.
    destruct (receive_all polls c) as [fs err].
    destruct (up_to_match target_id fs) as [l [|]]; [reflexivity|].
    destruct err; reflexivity.
Qed.

End Await.

Lemma read_until_frame_id_returns_witness :
  fst (read_until_frame_id 5
         [_prepare_write [0x8A; 0x06]; [];
          _prepare_write [0x8B; 0x05; 0; 0; 0; 0; 0]; []] [])
  = Ok [[VInt 0x8A; VInt 6];
        [VInt 0x8B; VInt 5; VInt 0; VInt 0; VInt 0; VInt 0]].
Proof.
  exact (eq_trans
           (read_until_frame_id_returns 5
              [_prepare_write [0x8A; 0x06]; [];
               _prepare_write [0x8B; 0x05; 0; 0; 0; 0; 0]; []] [] eq_refl)
           eq_refl).
Defined.

(* ================================================================== *)
(** * Discarding until a frame id *)

Section Discard.

Variable target_id : Z.

(** Every frame the wait loop collects has passed the [this_frame[1]]
    access. *)
Lemma read_until_loop_has_id (polls : list (list Z)) :
  forall c frame_id out frames c',
    read_until_loop target_id polls c frame_id out = (Ok frames, c') ->
    Forall has_id out -> Forall has_id frames.
Proof.
  induction polls as [|arrived later IH]; intros c fid out frames c' H Hout;
    cbn [read_until_loop] in H.
  - now injection H as <- _.
  - destruct (py_eqb (VInt target_id) fid); [now injection H as <- _|].
    destruct (in_waiting (c ++ arrived)); [|eauto].
    destruct (read (c ++ arrived)) as [[f|e] c1]; [|discriminate].
    destruct (index f 1) as [v|] eqn:Hv; [|discriminate].
    apply IH in H; [assumption|].
    apply Forall_app. split; [assumption|]. constructor; [|constructor].
    unfold index in Hv. destruct f as [|a [|b f']]; try discriminate.
    unfold has_id. simpl. lia.
Qed.

Lemma index_nth {A : Type} (l : list A) (i : nat) (d : A) :
  (i < List.length l)%nat -> index l i = Ok (nth i l d).
Proof.
  intro H. unfold index. now rewrite (nth_error_nth' l d H).
Qed.

Lemma check_discarded_spec (frames : list frame) (idxs : list nat) :
  Forall has_id frames ->
  Forall (fun i => (i < List.length frames)%nat) idxs ->
  check_discarded target_id frames idxs
  = if existsb (fun i => stray target_id (nth i frames [])) idxs
    then Raise DiscardedValidPacket else Ok tt.
Proof.
  intros Hid. induction idxs as [|i r IH]; intro Hr; [reflexivity|].
  inversion Hr as [|? ? Hi Hr']; subst.
  cbn [check_discarded existsb].
  rewrite (index_nth frames i []) by assumption. cbn [bind].
  assert (Hf : has_id (nth i frames [])).
  { rewrite Forall_forall in Hid. apply Hid. now apply nth_In. }
  unfold has_id in Hf.
  rewrite (index_nth (nth i frames []) 0 VNone) by lia.
  rewrite (index_nth (nth i frames []) 1 VNone) by lia.
  cbn [bind]. unfold stray.
  destruct (py_eqb (nth 0 (nth i frames []) VNone) (VInt 0x8B));
    cbn [negb andb orb]; [now apply IH|].
  destruct (py_eqb (nth 1 (nth i frames []) VNone) (VInt target_id));
    cbn [negb andb orb]; [now apply IH | reflexivity].
Qed.

Lemma existsb_nth_seq {A : Type} (P : A -> bool) (d : A) (l : list A) :
  forall pre n,
    (n <= List.length l)%nat ->
    existsb (fun i => P (nth i (pre ++ l) d)) (seq (List.length pre) n)
    = existsb P (firstn n l).
Proof.
  induction l as [|x l IH]; intros pre [|n] Hn; simpl in Hn;
    try reflexivity; try lia.
  cbn [seq existsb firstn].
  rewrite app_nth2, Nat.sub_diag by lia. cbn [nth]. f_equal.
  replace (pre ++ x :: l) with ((pre ++ [x]) ++ l)
    by now rewrite <- app_assoc.
  replace (S (List.length pre)) with (List.length (pre ++ [x]))
    by (rewrite length_app; simpl; lia).
  apply IH. lia.
Qed.

(** What [discard_until_frame_id] makes of the outcome of the wait. *)
Lemma discard_until_frame_id_spec (strict : bool)
  (polls : list (list Z)) (c : conn) :
  fst (discard_until_frame_id target_id strict polls c)
  = match fst (read_until_frame_id target_id polls c) with
    | Raise e => Raise e
    | Ok frames =>
      if strict && existsb (stray target_id) (removelast frames)
      then Raise DiscardedValidPacket
      else Ok (last frames [])
    end.
Proof.
  unfold discard_until_frame_id.
  destruct (read_until_frame_id target_id polls c) as [[frames|e] c'] eqn:E;
    [|reflexivity].
  cbn [fst].
  assert (Hid : Forall has_id frames).
  { unfold read_until_frame_id in E.
    apply read_until_loop_has_id in E; [assumption | constructor]. }
  destruct frames as [|f0 fs] eqn:Hfs.
  - now rewrite andb_false_r.
  - rewrite <- Hfs in *.
    assert (Hne : frames <> []) by (rewrite Hfs; discriminate).
    assert (Hlast : index frames (List.length frames - 1)
                    = Ok (last frames [])).
    { destruct (exists_last Hne) as [body [a ->]].
      now rewrite index_last, last_last. }
    assert (Hcheck : check_discarded target_id frames
                       (seq 0 (List.length frames - 1))
                     = if existsb (stray target_id) (removelast frames)
                       then Raise DiscardedValidPacket else Ok tt).
    { rewrite check_discarded_spec; [|assumption|].
      - rewrite (existsb_nth_seq (stray target_id) [] frames []) by lia.
        rewrite removelast_firstn_len.
        now replace (pred (List.length frames))
          with (List.length frames - 1)%nat by lia.
      - apply Forall_forall. intros i Hi. apply in_seq in Hi.
        destruct frames; [contradiction|]. simpl in *. lia. }
    destruct strict; cbn [andb].
    + rewrite Hcheck.
      destruct (existsb (stray target_id) (removelast frames));
        [reflexivity|]. cbn [fst]. exact Hlast.
    + cbn [fst]. exact Hlast.
Qed.

(** C8.  [discard_until_frame_id] fails when the wait fails; otherwise it
    returns the last frame the wait collected, or the empty list if there
    is none; and with the strict flag set it fails with "Discarded valid
    packet!" exactly when some collected frame other than the last is
    neither of type 0x8B nor tagged with the target id. *)
Theorem discard_until_frame_id_returns (strict : bool)
  (polls : list (list Z)) (c : conn) :
  fst (discard_until_frame_id target_id strict polls c)
  = match fst (read_until_frame_id target_id polls c) with
    | Raise e => Raise e
    | Ok frames =>
      if strict && existsb (stray target_id) (removelast frames)
      then Raise DiscardedValidPacket
      else Ok (last frames [])
    end.
Proof. apply discard_until_frame_id_spec. Qed.

End Discard.

(* ================================================================== *)
(** * Frames without a frame id field *)

Section NoFrameId.

Variable target_id : Z.
Hypothesis Htarget : 0 < target_id < 256.

Lemma wait_stops_after (payload : list Z) (f : frame)
  (later : list (list Z)) :
  len payload < 65536 ->
  unpack_message payload = Ok f ->
  nth_error f 1 = Some (VInt target_id) ->
  read_until_frame_id target_id (_prepare_write payload :: later) []
  = (Ok [f], []).
Proof.
  intros Hlen Hf Hid. unfold read_until_frame_id.
  cbn [read_until_loop py_eqb].
  replace (target_id =? 0) with false by (symmetry; apply Z.eqb_neq; lia).
  cbn [app].
  replace (in_waiting (_prepare_write payload)) with true by reflexivity.
  unfold read.
  rewrite <- (app_nil_r (_prepare_write payload)).
  rewrite read_payload_wire_frame by assumption.
  rewrite Hf. unfold index. rewrite Hid. cbn [app].
  destruct later; cbn [read_until_loop py_eqb]; [reflexivity|].
  now rewrite Z.eqb_refl.
Qed.

(** C10.  The wait loop compares the element at index 1 of each decoded
    frame with the target, whatever the frame type.  A modem-status frame
    (0x8A, no frame id field) whose status byte equals the target, or a
    receive-packet frame (0x90, no frame id field) whose source address
    equals it, ends the wait at once, whatever would arrive later, and
    [discard_until_frame_id] returns that frame. *)
Theorem wait_matches_frames_without_frame_id (strict : bool)
  (later : list (list Z)) :
  let status := _prepare_write [0x8A; target_id] in
  let packet :=
    _prepare_write [0x90; 0; 0; 0; 0; 0; 0; 0; target_id; 0xFF; 0xFE;
                    0x01; 0x2A] in
  fst (read_until_frame_id target_id (status :: later) [])
  = Ok [[VInt 0x8A; VInt target_id]]
  /\ fst (discard_until_frame_id target_id strict (status :: later) [])
     = Ok [VInt 0x8A; VInt target_id]
  /\ fst (read_until_frame_id target_id (packet :: later) [])
     = Ok [[VInt 0x90; VInt target_id; VInt 0xFFFE; VInt 1; VBytes [0x2A]]]
  /\ fst (discard_until_frame_id target_id strict (packet :: later) [])
     = Ok [VInt 0x90; VInt target_id; VInt 0xFFFE; VInt 1; VBytes [0x2A]].
Proof.
  intros status packet.
  assert (Hs : read_until_frame_id target_id (status :: later) []
               = (Ok [[VInt 0x8A; VInt target_id]], [])).
  { apply wait_stops_after; [reflexivity | | reflexivity].
    cbv -[be_value]. unfold be_value. cbn [fold_left].
    repeat f_equal; lia. }
  assert (Hp : read_until_frame_id target_id (packet :: later) []
               = (Ok [[VInt 0x90; VInt target_id; VInt 0xFFFE; VInt 1;
                       VBytes [0x2A]]], [])).
  { apply wait_stops_after; [reflexivity | | reflexivity].
    cbv -[be_value]. unfold be_value. cbn [fold_left].
    repeat f_equal; lia. }
  rewrite !discard_until_frame_id_spec, Hs, Hp. cbn [fst].
  repeat split; destruct strict; reflexivity.
Qed.

End NoFrameId.

Lemma wait_matches_frames_without_frame_id_witness :
  fst (read_until_frame_id 5
         [_prepare_write [0x8A; 5];
          _prepare_write [0x8B; 5; 0; 0; 0; 0; 0]] [])
  = Ok [[VInt 0x8A; VInt 5]]
  /\ fst (discard_until_frame_id 5 true
            [_prepare_write [0x8A; 5];
             _prepare_write [0x8B; 5; 0; 0; 0; 0; 0]] [])
     = Ok [VInt 0x8A; VInt 5].
Proof.
  destruct (wait_matches_frames_without_frame_id 5 ltac:(lia) true
              [_prepare_write [0x8B; 5; 0; 0; 0; 0; 0]])
    as [H1 [H2 _]].
  split; [exact H1 | exact H2].
Defined.

(* ================================================================== *)
(** * The paced write *)

Section Pacing.

Lemma advance_spec (s : session) :
  now s <= now (advance s)
  /\ last_message (advance s) = last_message s
  /\ frame_delay (advance s) = frame_delay s
  /\ motor_unblocked (advance s) = motor_unblocked s
  /\ sent (advance s) = sent s.
Proof.
  unfold advance. destruct (ticks s); cbn; repeat split; lia.
Qed.

Lemma delay_loop_reaches (deadline : Z) (pending : list nat) :
  forall t t' r,
    delay_loop deadline t pending = Some (t', r) ->
    deadline <= t' /\ t <= t'.
Proof.
  induction pending as [|d p IH]; intros t t' r H; cbn [delay_loop] in H.
  - destruct (t <? deadline) eqn:E; [discriminate|].
    injection H as <- _. apply Z.ltb_ge in E. lia.
  - destruct (t + Z.of_nat d <? deadline) eqn:E.
    + apply IH in H. lia.
    + injection H as <- _. apply Z.ltb_ge in E. lia.
Qed.

(** The delay loop ends as soon as the clock gets to the deadline. *)
Lemma delay_loop_ends (deadline : Z) (pending : list nat) :
  forall t,
    deadline <= t + Z.of_nat (fold_right Nat.add 0%nat pending) ->
    exists t' r, delay_loop deadline t pending = Some (t', r).
Proof.
  induction pending as [|d p IH]; intros t H; cbn [delay_loop].
  - simpl in H. replace (t <? deadline) with false
      by (symmetry; apply Z.ltb_ge; lia). eauto.
  - destruct (t + Z.of_nat d <? deadline); [|eauto].
    apply IH. cbn [fold_right] in H. lia.
Qed.

Lemma write_sends_after_deadline (args : list value) (s s' : session)
  (r : bool) :
  write args s = Some (Ok r, s') ->
  exists data t_write,
    sent s' = sent s ++ [Written t_write data; Flushed (last_message s')]
    /\ Z.max (last_message s + frame_delay s) (motor_unblocked s) <= t_write
    /\ t_write <= last_message s'
    /\ last_message s' = now s'
    /\ frame_delay s' = frame_delay s.
Proof.
  unfold write.
  match goal with
  | |- match ?p with _ => _ end = _ -> _ => destruct p as [msg|e]
  end; [|discriminate].
  unfold delay_until_ready.
  destruct (delay_loop _ (now s) (ticks s)) as [[t pending]|] eqn:E;
    [|discriminate].
  apply delay_loop_reaches in E as [Hdeadline _].
  set (s1 := Session t pending (last_message s) (frame_delay s)
               (motor_unblocked s) (sent s)).
  unfold time_time.
  pose proof (advance_spec s1) as [H1 [_ [H1d [_ H1s]]]].
  set (s2 := conn_write msg s1).
  assert (Hs2 : now s2 = now (advance s1)
                /\ sent s2 = sent s ++ [Written (now s2) msg]
                /\ frame_delay s2 = frame_delay s)
    by (subst s2; unfold conn_write; cbn; rewrite H1s, H1d; auto).
  destruct Hs2 as [Hn2 [Hsent2 Hd2]].
  pose proof (advance_spec s2) as [H3 [_ [H3d [_ H3s]]]].
  intro H. injection H as _ <-.
  exists msg, (now s2). cbn.
  rewrite H3s, Hsent2, <- app_assoc, H3d, Hd2. cbn [app].
  repeat split; try reflexivity; try assumption.
  subst s1. cbn in H1. lia.
Qed.

Lemma write_failure_sends_nothing (args : list value) (s s' : session)
  (e : error) :
  write args s = Some (Raise e, s') -> s' = s.
Proof.
  unfold write.
  match goal with
  | |- match ?p with _ => _ end = _ -> _ => destruct p as [msg|e']
  end.
  - destruct (delay_until_ready s); [|discriminate].
    unfold time_time. discriminate.
  - intro H. now injection H as _ <-.
Qed.

(** C9.  A successful [write] hands the frame to the transport at an
    instant that is not before
    [max(last_message + frame_delay, motor_unblocked)], then records the
    time read after the write as [last_message] and flushes; a failing
    [write] sends nothing.  Hence for two consecutive successful writes
    (the caller may move [motor_unblocked] in between) the two
    transport-write instants are at least [frame_delay] apart. *)
Theorem write_pacing :
  (forall args s s' r,
      write args s = Some (Ok r, s') ->
      exists data t_write,
        sent s' = sent s ++ [Written t_write data; Flushed (last_message s')]
        /\ Z.max (last_message s + frame_delay s) (motor_unblocked s)
           <= t_write
        /\ t_write <= last_message s')
  /\ (forall args s s' e, write args s = Some (Raise e, s') -> s' = s)
  /\ (forall args1 args2 busy s s1 s2 r1 r2,
         write args1 s = Some (Ok r1, s1) ->
         write args2 (with_busy busy s1) = Some (Ok r2, s2) ->
         exists data1 t1 flush1 data2 t2 flush2,
           sent s2 = sent s ++ [Written t1 data1; Flushed flush1;
                                Written t2 data2; Flushed flush2]
           /\ t1 + frame_delay s <= t2).
Proof.
  split; [|split].
  - intros args s s' r H.
    destruct (write_sends_after_deadline args s s' r H)
      as [data [t [Hs [Hd [Hl _]]]]].
    exists data, t. auto.
  - intros args s s' e. apply write_failure_sends_nothing.
  - intros args1 args2 busy s s1 s2 r1 r2 H1 H2.
    destruct (write_sends_after_deadline _ _ _ _ H1)
      as [d1 [t1 [Hs1 [_ [Hl1 [_ Hfd]]]]]].
    destruct (write_sends_after_deadline _ _ _ _ H2)
      as [d2 [t2 [Hs2 [Hd2 _]]]].
    cbn in Hs2, Hd2.
    exists d1, t1, (last_message s1), d2, t2, (last_message s2).
    split.
    + rewrite Hs2, Hs1, <- app_assoc. reflexivity.
    + lia.
Qed.

(** [write] returns when the pending clock advances take the clock to the
    deadline. *)
Lemma write_returns (args : list value) (s : session) (payload : list Z) :
  pack_message args = Ok payload ->
  Z.max (last_message s + frame_delay s) (motor_unblocked s) <= clock_end s ->
  exists s', write args s = Some (Ok true, s').
Proof.
  intros Hpack Hclock. unfold write.
  assert (Hprep : exists msg,
    (a0 <- index args 0 ;;
     tag <- bytes_of_int a0 ;;
     ok <- can_process tag ;;
     if negb ok then Raise UnrecognizedMessage else
     packed <- pack_message args ;;
     Ok (_prepare_write packed)) = Ok msg).
  { rewrite Hpack. unfold pack_message in Hpack.
    destruct (index args 0) as [a0|]; [|discriminate]. cbn [bind] in *.
    destruct (bytes_of_int a0) as [tag|]; [|discriminate]. cbn [bind] in *.
    destruct (can_process tag) as [ok|]; [|discriminate]. cbn [bind] in *.
    destruct ok; [|discriminate]. cbn [negb bind]. eauto. }
  destruct Hprep as [msg ->].
  unfold delay_until_ready, clock_end in *.
  destruct (delay_loop_ends _ (ticks s) (now s) Hclock) as [t [r ->]].
  unfold time_time. eauto.
Qed.

End Pacing.

Lemma write_pacing_witness :
  exists data1 t1 flush1 data2 t2 flush2,
    sent (Session 131 [] 131 10 0
            [Written 115 (_prepare_write [0x8A; 1]); Flushed 121;
             Written 131 (_prepare_write [0x8A; 2]); Flushed 131])
    = sent (Session 100 [1; 2; 3; 4; 5; 6; 7; 3]%nat 98 10 0 [])
      ++ [Written t1 data1; Flushed flush1;
          Written t2 data2; Flushed flush2]
    /\ t1 + frame_delay (Session 100 [1; 2; 3; 4; 5; 6; 7; 3]%nat 98 10 0 [])
       <= t2.
Proof.
  destruct write_pacing as [_ [_ H]].
  exact (H [VInt 0x8A; VInt 1] [VInt 0x8A; VInt 2] 0
           (Session 100 [1; 2; 3; 4; 5; 6; 7; 3]%nat 98 10 0 [])
           (Session 121 [7; 3]%nat 121 10 0
              [Written 115 (_prepare_write [0x8A; 1]); Flushed 121])
           (Session 131 [] 131 10 0
              [Written 115 (_prepare_write [0x8A; 1]); Flushed 121;
               Written 131 (_prepare_write [0x8A; 2]); Flushed 131])
           true true eq_refl eq_refl).
Defined.

(* ================================================================== *)
(** * Further properties of the checksum and of escaping *)

Section ChecksumMore.

(** X1.  A message followed by its generated checksum always validates. *)
Theorem generated_checksum_validates (message : list Z) :
  _validate_checksum (message ++ _generate_checksum message) = Ok true.
Proof.
  rewrite generate_checksum_spec, validate_checksum_appended.
  now rewrite Z.eqb_refl.
Qed.

Lemma sum_middle (pre post : list Z) (b : Z) :
  fold_right Z.add 0 (pre ++ b :: post)
  = fold_right Z.add 0 pre + b + fold_right Z.add 0 post.
Proof.
  induction pre as [|x pre IH]; simpl; [lia|]. rewrite IH. lia.
Qed.

Lemma checksum_of_changes (pre post : list Z) (b b' : Z) :
  0 <= b < 256 -> 0 <= b' < 256 -> b <> b' ->
  checksum_of (pre ++ b :: post) <> checksum_of (pre ++ b' :: post).
Proof.
  intros Hb Hb' Hne. unfold checksum_of. rewrite !land_255, !sum_middle.
  set (x := fold_right Z.add 0 pre + fold_right Z.add 0 post).
  replace (fold_right Z.add 0 pre + b + fold_right Z.add 0 post)
    with (x + b) by (subst x; lia).
  replace (fold_right Z.add 0 pre + b' + fold_right Z.add 0 post)
    with (x + b') by (subst x; lia).
  intro H.
  assert (Hm : (x + b) mod 256 = (x + b') mod 256) by lia.
  pose proof (Z.div_mod (x + b) 256 ltac:(lia)) as D1.
  pose proof (Z.div_mod (x + b') 256 ltac:(lia)) as D2.
  assert (Hd : b - b' = 256 * ((x + b) / 256 - (x + b') / 256)) by lia.
  lia.
Qed.

(** X2.  Changing any single byte of a checksummed message, payload or
    checksum, into a different byte makes the validation fail. *)
Theorem corrupted_byte_fails_validation (message pre post : list Z)
  (b b' : Z) :
  message ++ _generate_checksum message = pre ++ b :: post ->
  0 <= b < 256 -> 0 <= b' < 256 -> b <> b' ->
  _validate_checksum (pre ++ b' :: post) = Ok false.
Proof.
  intros Hsplit Hb Hb' Hne. rewrite generate_checksum_spec in Hsplit.
  induction post as [|c post' _] using rev_ind.
  2:{ (* the changed byte lies in the payload *)
    replace (pre ++ b :: post' ++ [c]) with ((pre ++ b :: post') ++ [c])
      in Hsplit by (rewrite <- app_assoc; reflexivity).
    apply app_inj_tail in Hsplit as [Hm Hc].
    replace (pre ++ b' :: post' ++ [c]) with ((pre ++ b' :: post') ++ [c])
      by (rewrite <- app_assoc; reflexivity).
    rewrite validate_checksum_appended. f_equal.
    apply Z.eqb_neq. rewrite <- Hc, Hm.
    apply not_eq_sym, checksum_of_changes; assumption. }
  (* the changed byte is the checksum *)
  apply app_inj_tail in Hsplit as [Hm Hc].
    rewrite validate_checksum_appended. f_equal.
  apply Z.eqb_neq. rewrite <- Hm, Hc. assumption.
Qed.

Lemma corrupted_byte_fails_validation_witness :
  _validate_checksum ([0x8A] ++ 0x07 :: [0x6F]) = Ok false.
Proof.
  apply (corrupted_byte_fails_validation [0x8A; 0x06] [0x8A] [0x6F] 0x06 0x07);
    [reflexivity | lia | lia | discriminate].
Defined.

(** X3.  The escaped form of any message contains none of the bytes 0x7E,
    0x11 and 0x13: inside the escaped part of a frame the delimiter and
    the flow-control bytes never occur. *)
Theorem escape_removes_control_bytes (message : list Z) :
  ~ In 0x7E (_escape message) /\ ~ In 0x11 (_escape message)
  /\ ~ In 0x13 (_escape message).
Proof.
  rewrite escape_stuffed.
  assert (H : forall b x, In x (stuff_byte b) ->
                          x <> 0x7E /\ x <> 0x11 /\ x <> 0x13).
  { intros b x. unfold stuff_byte, reserved.
    destruct (b =? 0x7E) eqn:E1; [apply Z.eqb_eq in E1; subst b|].
    { simpl. intros [<-|[<-|[]]]; repeat split; discriminate. }
    destruct (b =? 0x7D) eqn:E2; [apply Z.eqb_eq in E2; subst b|].
    { simpl. intros [<-|[<-|[]]]; repeat split; discriminate. }
    destruct (b =? 0x11) eqn:E3; [apply Z.eqb_eq in E3; subst b|].
    { simpl. intros [<-|[<-|[]]]; repeat split; discriminate. }
    destruct (b =? 0x13) eqn:E4; [apply Z.eqb_eq in E4; subst b|].
    { simpl. intros [<-|[<-|[]]]; repeat split; discriminate. }
    apply Z.eqb_neq in E1, E3, E4. simpl. intros [<-|[]]. auto. }
  unfold stuffed.
  repeat split; intro Hin; apply in_flat_map in Hin as [b [_ Hx]];
    apply H in Hx; destruct Hx as [H1 [H2 H3]]; congruence.
Qed.

(** X4.  Escaping lengthens a message by exactly one byte per reserved
    byte it contains, and never shortens it. *)
Theorem escape_length (message : list Z) :
  len (_escape message) = len message + len (filter reserved message)
  /\ len message <= len (_escape message).
Proof.
  rewrite escape_stuffed.
  assert (H : len (stuffed message)
              = len message + len (filter reserved message)).
  { induction message as [|b m IH]; [reflexivity|].
    change (stuffed (b :: m)) with (stuff_byte b ++ stuffed m).
    rewrite len_app, IH, len_cons. cbn [filter]. unfold stuff_byte.
    destruct (reserved b); rewrite ?len_cons, ?len_nil; lia. }
  split; [exact H|]. rewrite H.
  pose proof (len_nonneg (filter reserved message)). lia.
Qed.

End ChecksumMore.

(* ================================================================== *)
(** * Further properties of the reader *)

Section ReaderMore.

(** X5.  With a byte buffered, [_read_if_available] gives up with "Bytes
    lost" exactly when that first byte is not the delimiter 0x7E; in that
    case it has consumed that one byte only. *)
Theorem bytes_lost_iff_no_delimiter (b : Z) (rest : list Z) :
  ((exists c', _read_if_available (b :: rest) = (Raise BytesLost, c'))
   <-> b <> 0x7E)
  /\ (b <> 0x7E ->
      _read_if_available (b :: rest) = (Raise BytesLost, rest)).
Proof.
  assert (Hlost : b <> 0x7E ->
                  _read_if_available (b :: rest) = (Raise BytesLost, rest)).
  { intro Hb. unfold _read_if_available.
    cbn [in_waiting conn_read list_Z_eqb].
    apply Z.eqb_neq in Hb. now rewrite Hb. }
  split; [|exact Hlost]. split.
  - intros [c' H] ->. unfold _read_if_available in H.
    cbn [in_waiting conn_read list_Z_eqb Z.eqb Pos.eqb andb negb] in H.
    destruct rest as [|hi [|lo r]]; cbn [conn_read index nth_error] in H;
      try discriminate.
    apply read_bytes_errors in H. destruct H; discriminate.
  - intro Hb. eexists. now apply Hlost.
Qed.

Lemma bytes_lost_iff_no_delimiter_witness :
  _read_if_available (0x00 :: [0x7E; 0x00; 0x00; 0xFF])
  = (Raise BytesLost, [0x7E; 0x00; 0x00; 0xFF]).
Proof.
  apply (bytes_lost_iff_no_delimiter 0x00 [0x7E; 0x00; 0x00; 0xFF]).
  discriminate.
Defined.

(** Reading back a stuffed sequence in which one byte travels raw: any raw
    byte other than the escape byte is stored as it is. *)
Lemma read_bytes_raw_middle (d1 d2 rest : list Z) (x : Z) :
  x <> 0x7D ->
  forall pre,
    read_bytes (List.length (d1 ++ x :: d2)) (List.length pre)
      (pre ++ repeat 0 (List.length (d1 ++ x :: d2)))
      (stuffed d1 ++ x :: stuffed d2 ++ rest)
    = (Ok (pre ++ d1 ++ x :: d2), rest).
Proof.
  intro Hx. apply Z.eqb_neq in Hx.
  induction d1 as [|b d IH]; intro pre.
  - cbn [app stuffed flat_map List.length repeat read_bytes in_waiting negb
         conn_read].
    cbn [index nth_error].
    rewrite list_set_middle, index_middle, Hx.
    replace (S (List.length pre)) with (List.length (pre ++ [x]))
      by (rewrite length_app; simpl; lia).
    replace (pre ++ x :: repeat 0 (List.length d2))
      with ((pre ++ [x]) ++ repeat 0 (List.length d2))
      by now rewrite <- app_assoc.
    rewrite read_bytes_stuffed. now rewrite <- app_assoc.
  - assert (Hnext : forall c,
      read_bytes (List.length (d ++ x :: d2)) (S (List.length pre))
        (pre ++ b :: repeat 0 (List.length (d ++ x :: d2)))
        (stuffed d ++ x :: stuffed d2 ++ rest) = c ->
      c = (Ok (pre ++ (b :: d) ++ x :: d2), rest)).
    { intros c <-.
      replace (S (List.length pre)) with (List.length (pre ++ [b]))
        by (rewrite length_app; simpl; lia).
      replace (pre ++ b :: repeat 0 (List.length (d ++ x :: d2)))
        with ((pre ++ [b]) ++ repeat 0 (List.length (d ++ x :: d2)))
        by now rewrite <- app_assoc.
      rewrite IH. now rewrite <- app_assoc. }
    change (stuffed (b :: d)) with (stuff_byte b ++ stuffed d).
    change (List.length ((b :: d) ++ x :: d2))
      with (S (List.length (d ++ x :: d2))).
    unfold stuff_byte. destruct (reserved b) eqn:Hres.
    + cbn [repeat read_bytes app in_waiting negb conn_read].
      cbn [index nth_error].
      rewrite list_set_middle, index_middle.
      cbn [Z.eqb Pos.eqb]. cbn [index nth_error].
      rewrite list_set_middle, lxor_0x20_twice.
      now apply Hnext.
    + cbn [repeat read_bytes app in_waiting negb conn_read].
      cbn [index nth_error].
      rewrite list_set_middle, index_middle.
      assert (Hb : (b =? 0x7D) = false).
      { unfold reserved in Hres.
        destruct (b =? 0x7D); [|reflexivity].
        now rewrite orb_true_r in Hres. }
      rewrite Hb. now apply Hnext.
Qed.

(** X6.  Take the frame [_prepare_write] builds for a payload shorter than
    65536 bytes, and a payload byte that needs no escaping, so that it
    travels as one byte on the wire.  Replace that one wire byte by any
    different byte other than the escape byte 0x7D: [read] consumes the
    whole frame and fails with "Checksum incorrect". *)
Theorem read_rejects_corrupted_frame (pre post rest : list Z) (b b' : Z) :
  len (pre ++ b :: post) < 65536 ->
  0 <= b < 256 -> 0 <= b' < 256 ->
  reserved b = false -> b' <> b -> b' <> 0x7D ->
  _prepare_write (pre ++ b :: post)
  = firstn 3 (_prepare_write (pre ++ b :: post))
    ++ _escape pre
    ++ b :: _escape (post ++ _generate_checksum (pre ++ b :: post))
  /\ read (firstn 3 (_prepare_write (pre ++ b :: post))
           ++ _escape pre
           ++ b' :: _escape (post ++ _generate_checksum (pre ++ b :: post))
           ++ rest)
     = (Raise ChecksumIncorrect, rest).
Proof.
  intros Hlen Hb Hb' Hres Hne Hesc.
  set (payload := pre ++ b :: post) in *.
  set (bad := pre ++ b' :: post).
  rewrite prepare_write_wire_frame. unfold wire_frame.
  cbn [app firstn]. rewrite !escape_stuffed, generate_checksum_spec.
  split.
  - do 3 f_equal. subst payload.
    rewrite <- app_assoc. cbn [app]. rewrite stuffed_app.
    f_equal. change (b :: post ++ [checksum_of (pre ++ b :: post)])
      with ([b] ++ (post ++ [checksum_of (pre ++ b :: post)])).
    rewrite stuffed_app. cbn [stuffed flat_map app].
    unfold stuff_byte. rewrite Hres. reflexivity.
  - assert (Hread : _read_if_available
                      (0x7E :: (len payload / 256) mod 256
                            :: len payload mod 256
                            :: stuffed pre
                               ++ b' :: stuffed (post ++ [checksum_of payload])
                               ++ rest)
                    = (Ok (bad ++ [checksum_of payload]), rest)).
    { pose proof (len_nonneg payload) as Hpos.
      unfold _read_if_available.
      cbn [app in_waiting conn_read list_Z_eqb Z.eqb Pos.eqb andb negb].
      cbn [index nth_error].
      rewrite length_bytes_value by lia.
      replace (Z.to_nat (len payload + 1))
        with (List.length (pre ++ b' :: post ++ [checksum_of payload]))
        by (subst payload; rewrite !length_app; unfold len in *; simpl;
            rewrite !length_app; simpl; lia).
      pose proof (read_bytes_raw_middle pre (post ++ [checksum_of payload])
                    rest b' Hesc []) as R.
      cbn [app List.length] in R. rewrite R.
      subst bad. now rewrite <- app_assoc. }
    unfold read. rewrite (read_payload_checksum _ _ _ _ Hread).
    replace (checksum_of bad =? checksum_of payload) with false;
      [reflexivity|].
    symmetry. apply Z.eqb_neq. subst bad payload.
    apply checksum_of_changes; auto.
Qed.

Lemma read_rejects_corrupted_frame_witness :
  read ([0x7E; 0x00; 0x02] ++ [0x8A] ++ 0x7E :: [0x6F] ++ [])
  = (Raise ChecksumIncorrect, []).
Proof.
  exact (proj2 (read_rejects_corrupted_frame [0x8A] [] [] 0x06 0x7E
                  eq_refl ltac:(lia) ltac:(lia) eq_refl
                  ltac:(discriminate) ltac:(discriminate))).
Defined.

End ReaderMore.

(* ================================================================== *)
(** * Frame numbers of the rocket controller *)

Section FrameNumbers.

Lemma next_frame_step (r : rocket) (m : Z) :
  0 <= m < 255 -> _next_frame r = m + 1 ->
  _next_frame (snd (next_frame r)) = (m + 1) mod 255 + 1.
Proof.
  intros Hm Hr. unfold next_frame. cbn [snd _next_frame]. rewrite Hr.
  destruct (0xFF <? m + 1 + 1) eqn:E.
  - apply Z.ltb_lt in E. assert (m = 254) by lia. subst m. reflexivity.
  - apply Z.ltb_ge in E. rewrite Z.mod_small by lia. reflexivity.
Qed.

(** X7.  Starting from the initial value 1, the n-th use of [next_frame]
    (counting from 0) returns (n mod 255) + 1: the numbers run 1, 2, ...,
    255, 1, 2, ... and 0 is never returned. *)
Theorem next_frame_sequence (n : nat) (r : rocket) :
  _next_frame r = 0x01 ->
  fst (next_frame (after_frames n r)) = Z.of_nat n mod 255 + 1
  /\ 1 <= fst (next_frame (after_frames n r)) <= 255.
Proof.
  intro Hr.
  assert (H : _next_frame (after_frames n r) = Z.of_nat n mod 255 + 1).
  { induction n as [|n IH]; [exact Hr|].
    cbn [after_frames].
    pose proof (Z.mod_pos_bound (Z.of_nat n) 255 ltac:(lia)) as Hb.
    rewrite (next_frame_step _ (Z.of_nat n mod 255) Hb IH).
    rewrite Nat2Z.inj_succ. unfold Z.succ.
    rewrite Z.add_mod_idemp_l by lia. reflexivity. }
  unfold next_frame at 1 2 3. cbn [fst]. rewrite H.
  pose proof (Z.mod_pos_bound (Z.of_nat n) 255 ltac:(lia)). lia.
Qed.

Lemma next_frame_sequence_witness :
  fst (next_frame (after_frames 255 (Rocket (Session 0 [] 0 10 0 []) 1 15)))
  = 1.
Proof.
  apply (next_frame_sequence 255 (Rocket (Session 0 [] 0 10 0 []) 1 15)).
  reflexivity.
Defined.

End FrameNumbers.

(* ================================================================== *)
(** * Transmit requests *)

Section Transmit.

(** What a successful [write] leaves in the session. *)
Lemma write_sends_prepared (args : list value) (s s' : session) (r : bool) :
  write args s = Some (Ok r, s') ->
  exists payload t_write,
    pack_message args = Ok payload
    /\ sent s' = sent s ++ [Written t_write (_prepare_write payload);
                            Flushed (last_message s')]
    /\ Z.max (last_message s + frame_delay s) (motor_unblocked s) <= t_write
    /\ t_write <= last_message s'
    /\ frame_delay s' = frame_delay s
    /\ motor_unblocked s' = motor_unblocked s.
Proof.
  unfold write.
  destruct (index args 0) as [a0|]; [|discriminate]. cbn [bind].
  destruct (bytes_of_int a0) as [tag|]; [|discriminate]. cbn [bind].
  destruct (can_process tag) as [ok|]; [|discriminate]. cbn [bind].
  destruct (negb ok); [discriminate|].
  destruct (pack_message args) as [payload|]; [|discriminate]. cbn [bind].
  unfold delay_until_ready.
  destruct (delay_loop _ (now s) (ticks s)) as [[t pending]|] eqn:E;
    [|discriminate].
  apply delay_loop_reaches in E as [Hdeadline _].
  set (s1 := Session t pending (last_message s) (frame_delay s)
               (motor_unblocked s) (sent s)).
  unfold time_time.
  pose proof (advance_spec s1) as [H1 [_ [H1d [H1m H1s]]]].
  set (s2 := conn_write (_prepare_write payload) s1).
  assert (Hs2 : now s2 = now (advance s1)
                /\ sent s2 = sent s ++ [Written (now s2)
                                          (_prepare_write payload)]
                /\ frame_delay s2 = frame_delay s
                /\ motor_unblocked s2 = motor_unblocked s)
    by (subst s2; unfold conn_write; cbn; rewrite H1s, H1d, H1m; auto).
  destruct Hs2 as [Hn2 [Hsent2 [Hd2 Hm2]]].
  pose proof (advance_spec s2) as [H3 [_ [H3d [H3m H3s]]]].
  intro H. injection H as _ <-.
  exists payload, (now s2). cbn.
  rewrite H3s, Hsent2, <- app_assoc, H3d, Hd2, H3m, Hm2. cbn [app].
  repeat split; try reflexivity; try assumption.
  subst s1. cbn in H1. lia.
Qed.

(** [transmit_request] is [write] with its result dropped. *)
Lemma transmit_request_of_write (frame_id destination radius options : Z)
    (data : list Z) (s s' : session) (r : bool) :
  write [VInt 0x10; VInt frame_id; VInt destination; VInt 0xFFFE;
         VInt radius; VInt options; VBytes data] s = Some (Ok r, s') ->
  transmit_request frame_id destination radius options data s
  = Some (Ok tt, s').
Proof. intro H. unfold transmit_request. now rewrite H. Qed.

Lemma transmit_request_inv (frame_id destination radius options : Z)
    (data : list Z) (s s' : session) (u : unit) :
  transmit_request frame_id destination radius options data s
  = Some (Ok u, s') ->
  exists r,
    write [VInt 0x10; VInt frame_id; VInt destination; VInt 0xFFFE;
           VInt radius; VInt options; VBytes data] s = Some (Ok r, s').
Proof.
  unfold transmit_request.
  destruct (write _ s) as [[[r|e] s1]|]; intro H; try discriminate.
  injection H as _ <-. eauto.
Qed.

Lemma be_bytes_1 (x : Z) : 0 <= x < 256 -> be_bytes 1 x = [x].
Proof. intro H. cbn. now rewrite Z.mod_small. Qed.

Lemma transmit_payload_shape (frame_id destination radius options : Z)
  (data : list Z) :
  0 <= frame_id < 256 -> 0 <= radius < 256 -> 0 <= options < 256 ->
  0x10 :: pack_ints transmit_ints
            [frame_id; destination; 0xFFFE; radius; options] ++ data
  = transmit_payload frame_id destination radius options data.
Proof.
  intros Hf Hr Ho. unfold transmit_payload, transmit_ints.
  cbn [pack_ints field_width int_width ftype].
  cbn [String.eqb Ascii.eqb Bool.eqb].
  rewrite !be_bytes_1 by assumption. reflexivity.
Qed.

(** The payload [pack_message] builds for a transmit request. *)
Lemma pack_transmit_request (frame_id destination radius options : Z)
  (data : list Z) :
  0 <= frame_id < 256 -> 0 <= destination < 2 ^ 64 ->
  0 <= radius < 256 -> 0 <= options < 256 ->
  pack_message [VInt 0x10; VInt frame_id; VInt destination; VInt 0xFFFE;
                VInt radius; VInt options; VBytes data]
  = Ok (transmit_payload frame_id destination radius options data).
Proof.
  intros Hf Hd Hr Ho.
  rewrite <- transmit_payload_shape by assumption.
  apply (pack_message_supported 0x10
           (Template "Transmit Request Frame"
              (transmit_ints ++ [transmit_data]))
           transmit_ints [transmit_data]
           [frame_id; destination; 0xFFFE; radius; options] data);
    try reflexivity; try lia.
  - cbn. repeat split; lia.
  - right. eexists. repeat split.
Qed.

Lemma unpack_transmit_request (frame_id destination radius options : Z)
  (data : list Z) :
  0 <= frame_id < 256 -> 0 <= destination < 2 ^ 64 ->
  0 <= radius < 256 -> 0 <= options < 256 -> data <> [] ->
  unpack_message (transmit_payload frame_id destination radius options data)
  = Ok [VInt 0x10; VInt frame_id; VInt destination; VInt 0xFFFE;
        VInt radius; VInt options; VBytes data].
Proof.
  intros Hf Hd Hr Ho Hdata.
  rewrite <- transmit_payload_shape by assumption.
  pose proof (unpack_message_supported 0x10
           (Template "Transmit Request Frame"
              (transmit_ints ++ [transmit_data]))
           transmit_ints [transmit_data]
           [frame_id; destination; 0xFFFE; radius; options] data) as H.
  destruct (tail_value_cases data) as [[Hd0 _]|[_ He]]; [contradiction|].
  rewrite He in H. apply H; try reflexivity.
  - cbn. repeat split; lia.
  - right. eexists. repeat split.
Qed.

Lemma len_transmit_payload (frame_id destination radius options : Z)
  (data : list Z) :
  len (transmit_payload frame_id destination radius options data)
  = 14 + len data.
Proof.
  unfold transmit_payload.
  rewrite !len_app, !len_cons, !len_nil.
  unfold len at 1. rewrite length_be_bytes. lia.
Qed.

(** X8.  A transmit request with in-range arguments and non-empty data of
    at most 65521 bytes, issued when the clock can reach the pacing
    deadline, returns normally; it hands exactly one frame to the
    transport and flushes, and [read] applied to that frame gives back the
    frame type 0x10, the frame id, the destination, the reserved word
    0xFFFE, the radius, the options and the data. *)
Theorem transmit_request_round_trip (frame_id destination radius options : Z)
  (data : list Z) (s : session) :
  0 <= frame_id < 256 -> 0 <= destination < 2 ^ 64 ->
  0 <= radius < 256 -> 0 <= options < 256 ->
  data <> [] -> len data <= 65521 ->
  Z.max (last_message s + frame_delay s) (motor_unblocked s) <= clock_end s ->
  exists s' t frame,
    transmit_request frame_id destination radius options data s
    = Some (Ok tt, s')
    /\ sent s' = sent s ++ [Written t frame; Flushed (last_message s')]
    /\ read frame
       = (Ok [VInt 0x10; VInt frame_id; VInt destination; VInt 0xFFFE;
              VInt radius; VInt options; VBytes data], []).
Proof.
  intros Hf Hd Hr Ho Hdata Hlen Hclock.
  pose proof (pack_transmit_request frame_id destination radius options data
                Hf Hd Hr Ho) as Hpack.
  destruct (write_returns _ s _ Hpack Hclock) as [s' Hw].
  destruct (write_sends_prepared _ _ _ _ Hw)
    as [payload [t [Hp [Hsent _]]]].
  rewrite Hpack in Hp. injection Hp as <-.
  exists s', t, (_prepare_write
                   (transmit_payload frame_id destination radius options
                      data)).
  split; [exact (transmit_request_of_write _ _ _ _ _ _ _ _ Hw)|].
  split; [exact Hsent|].
  unfold read.
  rewrite <- (app_nil_r (_prepare_write _)).
  rewrite read_payload_wire_frame
    by (rewrite len_transmit_payload; lia).
  now rewrite unpack_transmit_request.
Qed.

Lemma transmit_request_round_trip_witness :
  exists s' t frame,
    transmit_request 0x05 0xFFFFFFFFFFFFFFFF 0 0 [0x03; 0x00; 0xC8]
      (Session 100 [1; 2; 3; 4; 5; 6; 7]%nat 98 10 0 [])
    = Some (Ok tt, s')
    /\ sent s'
       = sent (Session 100 [1; 2; 3; 4; 5; 6; 7]%nat 98 10 0 [])
         ++ [Written t frame; Flushed (last_message s')]
    /\ read frame
       = (Ok [VInt 0x10; VInt 0x05; VInt 0xFFFFFFFFFFFFFFFF; VInt 0xFFFE;
              VInt 0; VInt 0; VBytes [0x03; 0x00; 0xC8]], []).
Proof.
  apply (transmit_request_round_trip 0x05 0xFFFFFFFFFFFFFFFF 0 0
           [0x03; 0x00; 0xC8]
           (Session 100 [1; 2; 3; 4; 5; 6; 7]%nat 98 10 0 []));
    try lia; try discriminate; try reflexivity.
Defined.

End Transmit.

(* ================================================================== *)
(** * Queues of transmit requests *)

Section Queue.

Lemma pack_int_inv (n : nat) (x : Z) (bs : list Z) :
  pack_int n (VInt x) = Ok bs ->
  0 <= x < 256 ^ Z.of_nat n /\ bs = be_bytes n x.
Proof.
  unfold pack_int.
  destruct ((0 <=? x) && (x <? 256 ^ Z.of_nat n)) eqn:E; [|discriminate].
  intro H. injection H as <-. apply andb_true_iff in E as [E1 E2].
  apply Z.leb_le in E1. apply Z.ltb_lt in E2. auto.
Qed.

(** Whenever a transmit request can be packed at all, its payload is the
    transmit payload of its arguments. *)
Lemma pack_transmit_request_inv (f d r o : Z) (data p : list Z) :
  pack_message [VInt 0x10; VInt f; VInt d; VInt 0xFFFE; VInt r; VInt o;
                VBytes data] = Ok p ->
  p = transmit_payload f d r o data.
Proof.
  unfold pack_message, generate_struct_encode.
  cbn [index nth_error bind bytes_of_int Z.leb Z.ltb Z.compare Pos.compare
       Pos.compare_cont andb].
  unfold can_process, get_template.
  cbn [index nth_error bind lookup templates Z.eqb Pos.eqb negb tl tfields
       encode_fields ftype String.eqb Ascii.eqb Bool.eqb orb app].
  match goal with
  | |- context [pack_args ?t 0 ?a []] =>
    replace (pack_args t 0 a [])
      with (Ok ([VInt 16; VInt f; VInt d; VInt 65534; VInt r; VInt o]
                ++ map (fun x => VBytes [x]) data))
      by reflexivity
  end.
  cbn [bind app struct_pack item_width].
  destruct (pack_int 1 (VInt 16)) as [b0|] eqn:E0; [|discriminate].
  apply pack_int_inv in E0 as [_ ->].
  destruct (pack_int 1 (VInt f)) as [b1|] eqn:E1; [|discriminate].
  apply pack_int_inv in E1 as [Hf ->].
  destruct (pack_int 8 (VInt d)) as [b2|] eqn:E2; [|discriminate].
  apply pack_int_inv in E2 as [Hd ->].
  destruct (pack_int 2 (VInt 65534)) as [b3|] eqn:E3; [|discriminate].
  apply pack_int_inv in E3 as [_ ->].
  destruct (pack_int 1 (VInt r)) as [b4|] eqn:E4; [|discriminate].
  apply pack_int_inv in E4 as [Hr ->].
  destruct (pack_int 1 (VInt o)) as [b5|] eqn:E5; [|discriminate].
  apply pack_int_inv in E5 as [Ho ->].
  cbn [bind].
  pose proof (struct_pack_chars data) as Hc. cbn [struct_pack] in Hc.
  rewrite Hc. cbn [bind].
  intro H. injection H as <-. unfold transmit_payload.
  cbn [be_bytes app].
  rewrite (Z.mod_small f), (Z.mod_small r), (Z.mod_small o)
    by (simpl in *; lia).
  reflexivity.
Qed.

Lemma written_app (a b : list event) :
  written (a ++ b) = written a ++ written b.
Proof.
  induction a as [|[t d|t] a IH]; simpl; [reflexivity | now rewrite IH | exact IH].
Qed.

Lemma index_nth_value {A : Type} (l : list A) (i : nat) (v d : A) :
  index l i = Ok v -> nth i l d = v.
Proof.
  unfold index. destruct (nth_error l i) eqn:E; [|discriminate].
  intro H. injection H as <-. now apply nth_error_nth.
Qed.

Variables (frame_ids : frame_ids_arg) (destination radius options : Z).
Variable messages : list (list Z).

(** The frame sent for the message at position [i]. *)
Let frame_at (i : nat) : list Z :=
  _prepare_write
    (transmit_payload (frame_id_at frame_ids i) destination radius options
       (nth i messages [])).

Lemma queue_loop_sends (idxs : list nat) :
  forall s s',
    queue_loop frame_ids destination radius options messages idxs s
    = Some (Ok tt, s') ->
    exists events,
      sent s' = sent s ++ events
      /\ map snd (written events) = map frame_at idxs
      /\ spaced (frame_delay s) (map fst (written events))
      /\ match map fst (written events) with
         | [] => True
         | t :: _ => last_message s + frame_delay s <= t
         end
      /\ frame_delay s' = frame_delay s.
Proof.
  induction idxs as [|i r IH]; intros s s' H; cbn [queue_loop] in H.
  - injection H as <-. exists []. rewrite app_nil_r. cbn. auto.
  - destruct (match frame_ids with
              | OneId n => Ok n
              | IdList ids => index ids i
              end) as [fid|] eqn:Hfid; [|discriminate].
    cbn [bind] in H.
    destruct (index messages i) as [data|] eqn:Hdata; [|discriminate].
    cbn [bind] in H.
    assert (Hf : fid = frame_id_at frame_ids i).
    { unfold frame_id_at. destruct frame_ids as [n|ids].
      - now injection Hfid as <-.
      - symmetry. now apply index_nth_value. }
    apply (index_nth_value _ _ _ []) in Hdata.
    destruct (transmit_request fid destination radius options data s)
      as [[[b|e] s1]|] eqn:Hw; try discriminate.
    apply transmit_request_inv in Hw as [b' Hw].
    destruct (write_sends_prepared _ _ _ _ Hw)
      as [payload [t1 [Hp [Hsent [Hdl [Hlm [Hfd _]]]]]]].
    apply pack_transmit_request_inv in Hp. subst payload fid data.
    destruct (IH s1 s' H) as [ev [Hs' [Hfr [Hsp [Hhd Hfd']]]]].
    exists ([Written t1 (frame_at i); Flushed (last_message s1)] ++ ev).
    rewrite written_app. cbn [written app map fst snd].
    split; [rewrite Hs', Hsent, <- app_assoc; reflexivity|].
    split; [now rewrite Hfr|].
    split.
    + rewrite Hfd in Hsp, Hhd.
      destruct (map fst (written ev)) as [|t2 ts]; [exact I|].
      split; [lia | exact Hsp].
    + split; [lia | congruence].
Qed.

(** X9.  When [queue_multiple_messages] returns normally it has handed to
    the transport exactly one frame per message, in the order of the
    messages, each the transmit-request frame of that message with its
    frame id (the single id, or the id at the same position of the list);
    and successive transport-write instants are at least [frame_delay]
    apart. *)
Theorem queue_multiple_messages_sends_all (s s' : session) :
  queue_multiple_messages frame_ids destination radius options messages s
  = Some (Ok tt, s') ->
  exists events,
    sent s' = sent s ++ events
    /\ map snd (written events)
       = map (fun i =>
                _prepare_write
                  (transmit_payload (frame_id_at frame_ids i) destination
                     radius options (nth i messages [])))
           (seq 0 (List.length messages))
    /\ spaced (frame_delay s) (map fst (written events)).
Proof.
  unfold queue_multiple_messages.
  destruct (negb _); [discriminate|].
  intro H. destruct (queue_loop_sends _ _ _ H) as [ev [H1 [H2 [H3 _]]]].
  exists ev. auto.
Qed.

End Queue.

Lemma queue_multiple_messages_sends_all_witness :
  exists events,
    sent (Session 149 [] 149 10 0
            [Written 115 (_prepare_write
                            (transmit_payload 7 0xFFFF 0 0 [0x01]));
             Flushed 135;
             Written 148 (_prepare_write
                            (transmit_payload 7 0xFFFF 0 0 [0x02; 0x03]));
             Flushed 149])
    = sent (Session 100 [5; 5; 5; 20; 6; 6; 1; 1]%nat 98 10 0 []) ++ events
    /\ map snd (written events)
       = map (fun i =>
                _prepare_write
                  (transmit_payload (frame_id_at (OneId 7) i) 0xFFFF 0 0
                     (nth i [[0x01]; [0x02; 0x03]] [])))
           (seq 0 (List.length [[0x01]; [0x02; 0x03]]))
    /\ spaced (frame_delay (Session 100 [5; 5; 5; 20; 6; 6; 1; 1]%nat 98 10 0 []))
         (map fst (written events)).
Proof.
  apply (queue_multiple_messages_sends_all (OneId 7) 0xFFFF 0 0
           [[0x01]; [0x02; 0x03]]
           (Session 100 [5; 5; 5; 20; 6; 6; 1; 1]%nat 98 10 0 [])).
  reflexivity.
Defined.

(* ================================================================== *)
(** * The rocket controller *)

Section Rocket.

Lemma transmit_request_returns (frame_id : Z) (data : list Z) (s : session) :
  0 <= frame_id < 256 ->
  Z.max (last_message s + frame_delay s) (motor_unblocked s) <= clock_end s ->
  exists s' t,
    transmit_request frame_id 0xFFFF 0 0 data s = Some (Ok tt, s')
    /\ sent s' = sent s
                 ++ [Written t (_prepare_write
                                  (transmit_payload frame_id 0xFFFF 0 0 data));
                     Flushed (last_message s')].
Proof.
  intros Hf Hclock.
  assert (Hpack := pack_transmit_request frame_id 0xFFFF 0 0 data Hf
                     ltac:(lia) ltac:(lia) ltac:(lia)).
  destruct (write_returns _ s _ Hpack Hclock) as [s' Hw].
  destruct (write_sends_prepared _ _ _ _ Hw) as [p [t [Hp [Hs _]]]].
  rewrite Hpack in Hp. injection Hp as <-.
  exists s', t. split; [|exact Hs].
  exact (transmit_request_of_write _ _ _ _ _ _ _ _ Hw).
Qed.

(** X10.  [set_stepper_speed] with a speed in 0..65535 (and a clock that
    reaches the pacing deadline) records the speed and sends one transmit
    request with frame id 0 to address 0xFFFF whose data are the bytes
    03 03 followed by the speed as a big-endian 16-bit number.  With a
    speed outside that range it fails with a struct error and sends
    nothing, but the recorded speed has already been overwritten. *)
Theorem set_stepper_speed_behaviour (rpm : Z) (r : rocket) :
  (0 <= rpm < 65536 ->
   Z.max (last_message (xbee r) + frame_delay (xbee r))
     (motor_unblocked (xbee r)) <= clock_end (xbee r) ->
   exists r' t,
     set_stepper_speed rpm r = Some (Ok tt, r')
     /\ rpm_setting r' = rpm
     /\ _next_frame r' = _next_frame r
     /\ sent (xbee r')
        = sent (xbee r)
          ++ [Written t
                (_prepare_write
                   (transmit_payload 0 0xFFFF 0 0
                      ([0x03; 0x03] ++ be_bytes 2 rpm)));
              Flushed (last_message (xbee r'))])
  /\ (~ 0 <= rpm < 65536 ->
      set_stepper_speed rpm r
      = Some (Raise StructError, Rocket (xbee r) (_next_frame r) rpm)).
Proof.
  unfold set_stepper_speed. cbn [struct_pack item_width].
  split.
  - intros Hrpm Hclock.
    rewrite pack_int_in_range by (simpl; lia). cbn [bind].
    rewrite app_nil_r. unfold send_message_to_rocket. cbn [xbee].
    destruct (transmit_request_returns 0 ([3] ++ [3] ++ be_bytes 2 rpm)
                (xbee r) ltac:(lia) Hclock) as [s' [t [Hw Hs]]].
    rewrite Hw. eexists. exists t. cbn. auto.
  - intro Hout. unfold pack_int.
    replace ((0 <=? rpm) && (rpm <? 256 ^ Z.of_nat 2)) with false;
      [reflexivity|].
    symmetry. apply andb_false_iff.
    destruct (Z.lt_ge_cases rpm 0) as [H|H].
    + left. apply Z.leb_gt. lia.
    + right. apply Z.ltb_ge. simpl. lia.
Qed.

Lemma set_stepper_speed_behaviour_witness :
  (exists r' t,
     set_stepper_speed 200 (Rocket (Session 100 [20; 1; 1]%nat 98 10 0 []) 1 15)
     = Some (Ok tt, r')
     /\ rpm_setting r' = 200
     /\ _next_frame r'
        = _next_frame (Rocket (Session 100 [20; 1; 1]%nat 98 10 0 []) 1 15)
     /\ sent (xbee r')
        = sent (xbee (Rocket (Session 100 [20; 1; 1]%nat 98 10 0 []) 1 15))
          ++ [Written t
                (_prepare_write
                   (transmit_payload 0 0xFFFF 0 0
                      ([0x03; 0x03] ++ be_bytes 2 200)));
              Flushed (last_message (xbee r'))])
  /\ set_stepper_speed 70000 (Rocket (Session 100 [] 98 10 0 []) 1 15)
     = Some (Raise StructError, Rocket (Session 100 [] 98 10 0 []) 1 70000).
Proof.
  split.
  - apply (set_stepper_speed_behaviour 200
             (Rocket (Session 100 [20; 1; 1]%nat 98 10 0 []) 1 15));
      [lia | vm_compute; discriminate].
  - apply (set_stepper_speed_behaviour 70000
             (Rocket (Session 100 [] 98 10 0 []) 1 15)).
    lia.
Defined.

Lemma read_until_loop_quiet (target_id : Z) (n : nat) :
  forall frame_id out,
    read_until_loop target_id (repeat [] n) [] frame_id out = (Ok out, []).
Proof.
  induction n as [|n IH]; intros fid out; cbn [repeat read_until_loop];
    [reflexivity|].
  destruct (py_eqb (VInt target_id) fid); [reflexivity|].
  cbn [app in_waiting]. apply IH.
Qed.

Lemma next_frame_value (r : rocket) :
  fst (next_frame r) = _next_frame r
  /\ xbee (snd (next_frame r)) = xbee r.
Proof. split; reflexivity. Qed.

(** X11.  [get_angle] fails in the two most common situations.  When
    nothing arrives during the wait it fails with an index error.  When
    the first frame to arrive is the transmit status (0x8B) that answers
    its own request, the wait stops there, and [get_angle] then applies
    the 16-bit decoder to that frame's delivery status, an integer: a type
    error. *)
Theorem get_angle_failures (r : rocket) (n : nat)
  (reserved_hi reserved_lo retry delivery discovery : Z)
  (later : list (list Z)) :
  1 <= _next_frame r <= 255 ->
  Z.max (last_message (xbee r) + frame_delay (xbee r))
    (motor_unblocked (xbee r)) <= clock_end (xbee r) ->
  (exists r', get_angle (repeat [] n) r = Some (Raise IndexError, r'))
  /\ (exists r',
        get_angle
          (_prepare_write [0x8B; _next_frame r; reserved_hi; reserved_lo;
                           retry; delivery; discovery] :: later) r
        = Some (Raise TypeError, r')).
Proof.
  intros Hid Hclock. unfold get_angle.
  destruct (next_frame r) as [this_frame r1] eqn:Hnf.
  pose proof (next_frame_value r) as [Hfst Hx]. rewrite Hnf in Hfst, Hx.
  cbn [fst snd] in Hfst, Hx. subst this_frame.
  unfold send_message_to_rocket. rewrite Hx.
  destruct (transmit_request_returns (_next_frame r) [2] (xbee r)
              ltac:(lia) Hclock) as [s' [t [Hw _]]].
  rewrite Hw. split.
  - rewrite discard_until_frame_id_spec.
    unfold read_until_frame_id. rewrite read_until_loop_quiet.
    cbn. eauto.
  - rewrite discard_until_frame_id_spec.
    rewrite (wait_stops_after (_next_frame r) ltac:(lia) _
               [VInt 0x8B; VInt (_next_frame r);
                VInt (be_value [reserved_hi; reserved_lo]);
                VInt (be_value [retry]); VInt (be_value [delivery]);
                VInt (be_value [discovery])]).
    + cbn. eauto.
    + reflexivity.
    + cbv -[be_value]. unfold be_value at 1 2. cbn [fold_left].
      repeat f_equal; lia.
    + reflexivity.
Qed.

Lemma get_angle_failures_witness :
  (exists r',
     get_angle (repeat [] 3)
       (Rocket (Session 100 [20; 1; 1]%nat 98 10 0 []) 1 15)
     = Some (Raise IndexError, r'))
  /\ (exists r',
        get_angle
          (_prepare_write
             [0x8B;
              _next_frame
                (Rocket (Session 100 [20; 1; 1]%nat 98 10 0 []) 1 15);
              0xFF; 0xFE; 0; 0; 0] :: [])
          (Rocket (Session 100 [20; 1; 1]%nat 98 10 0 []) 1 15)
        = Some (Raise TypeError, r')).
Proof.
  apply (get_angle_failures
           (Rocket (Session 100 [20; 1; 1]%nat 98 10 0 []) 1 15)
           3 0xFF 0xFE 0 0 0 []);
    [cbn; lia | vm_compute; discriminate].
Defined.

Lemma unpack_receive_packet (source options : Z) (data : list Z) :
  0 <= source < 2 ^ 64 -> 0 <= options < 256 -> data <> [] ->
  unpack_message ([0x90] ++ be_bytes 8 source ++ [0xFF; 0xFE; options]
                  ++ data)
  = Ok [VInt 0x90; VInt source; VInt 0xFFFE; VInt options; VBytes data].
Proof.
  intros Hs Ho Hdata.
  pose proof (unpack_message_supported 0x90
           (Template "Receive Packet Frame" (receive_ints ++ [receive_data]))
           receive_ints [receive_data] [source; 0xFFFE; options] data) as H.
  destruct (tail_value_cases data) as [[Hd0 _]|[_ He]]; [contradiction|].
  rewrite He in H.
  replace ([0x90] ++ be_bytes 8 source ++ [0xFF; 0xFE; options] ++ data)
    with (0x90 :: pack_ints receive_ints [source; 0xFFFE; options] ++ data).
  - apply H; try reflexivity.
    + cbn. repeat split; lia.
    + right. eexists. repeat split.
  - unfold receive_ints.
    cbv [pack_ints field_width int_width ftype String.eqb Ascii.eqb
         Bool.eqb].
    rewrite (be_bytes_1 options) by assumption.
    cbn [app]. rewrite <- !app_assoc. reflexivity.
Qed.

(** X12.  [get_angle] returns an angle when, during the wait, exactly one
    frame arrives and it is a receive packet (0x90) with two data bytes
    from a source address different from the frame id in use: the result
    is the data read as a signed big-endian 16-bit number. *)
Theorem get_angle_reads_reply (r : rocket) (n : nat)
  (source options b0 b1 : Z) :
  1 <= _next_frame r <= 255 ->
  Z.max (last_message (xbee r) + frame_delay (xbee r))
    (motor_unblocked (xbee r)) <= clock_end (xbee r) ->
  0 <= source < 2 ^ 64 -> source <> _next_frame r ->
  0 <= options < 256 ->
  exists r',
    get_angle
      (_prepare_write ([0x90] ++ be_bytes 8 source
                       ++ [0xFF; 0xFE; options] ++ [b0; b1])
       :: repeat [] n) r
    = Some (Ok (if b0 * 256 + b1 <? 32768
                then b0 * 256 + b1 else b0 * 256 + b1 - 65536), r')
    /\ _next_frame r' = _next_frame (snd (next_frame r)).
Proof.
  intros Hid Hclock Hs Hne Ho. unfold get_angle.
  destruct (next_frame r) as [this_frame r1] eqn:Hnf.
  pose proof (next_frame_value r) as [Hfst Hx]. rewrite Hnf in Hfst, Hx.
  cbn [fst snd] in Hfst, Hx. subst this_frame.
  unfold send_message_to_rocket. rewrite Hx.
  destruct (transmit_request_returns (_next_frame r) [2] (xbee r)
              ltac:(lia) Hclock) as [s' [t [Hw _]]].
  rewrite Hw. rewrite discard_until_frame_id_spec.
  set (payload := [0x90] ++ be_bytes 8 source ++ [0xFF; 0xFE; options]
                  ++ [b0; b1]).
  assert (Hwait : read_until_frame_id (_next_frame r)
                    (_prepare_write payload :: repeat [] n) []
                  = (Ok [[VInt 0x90; VInt source; VInt 0xFFFE; VInt options;
                          VBytes [b0; b1]]], [])).
  { unfold read_until_frame_id. cbn [read_until_loop py_eqb].
    replace (_next_frame r =? 0) with false
      by (symmetry; apply Z.eqb_neq; lia).
    cbn [app].
    replace (in_waiting (_prepare_write payload)) with true by reflexivity.
    unfold read. rewrite <- (app_nil_r (_prepare_write payload)).
    rewrite read_payload_wire_frame.
    - subst payload. rewrite unpack_receive_packet by (auto; discriminate).
      cbn [index nth_error]. apply read_until_loop_quiet.
    - subst payload. rewrite !len_app, !len_cons, !len_nil.
      unfold len. rewrite length_be_bytes. lia. }
  rewrite Hwait. cbn. eexists. split; reflexivity.
Qed.

Lemma get_angle_reads_reply_witness :
  exists r',
    get_angle
      (_prepare_write ([0x90] ++ be_bytes 8 0x0013A200 
                       ++ [0xFF; 0xFE; 0x01] ++ [0xFF; 0x38])
       :: repeat [] 2)
      (Rocket (Session 100 [20; 1; 1]%nat 98 10 0 []) 1 15)
    = Some (Ok (if 0xFF * 256 + 0x38 <? 32768
                then 0xFF * 256 + 0x38 else 0xFF * 256 + 0x38 - 65536), r')
    /\ _next_frame r'
       = _next_frame
           (snd (next_frame
                   (Rocket (Session 100 [20; 1; 1]%nat 98 10 0 []) 1 15))).
Proof.
  apply (get_angle_reads_reply
           (Rocket (Session 100 [20; 1; 1]%nat 98 10 0 []) 1 15) 2
           0x0013A200 0x01 0xFF 0x38);
    try (cbn; lia); try (vm_compute; discriminate).
Defined.

End Rocket.

(* ================================================================== *)
(** * Errors and edge cases of the schema layer *)

Section SchemaErrors.

(** X13.  Decoding fails early on what no schema describes: the empty
    payload gives an index error, and a payload whose first byte is not a
    registered tag fails the assertion, in [unpack_message] and in
    [explain_message] alike; [read] on a well-formed wire frame carrying
    such a payload consumes the frame and fails the same way. *)
Theorem unknown_payload_errors (tag : Z) (rest : list Z) :
  unpack_message [] = Raise IndexError
  /\ explain_message [] = Raise IndexError
  /\ (lookup tag templates = None ->
      unpack_message (tag :: rest) = Raise AssertionError
      /\ explain_message (tag :: rest) = Raise AssertionError
      /\ (len (tag :: rest) < 65536 ->
          forall following,
            read (_prepare_write (tag :: rest) ++ following)
            = (Raise AssertionError, following))).
Proof.
  split; [reflexivity|]. split; [reflexivity|]. intro Hnone.
  assert (Hu : unpack_message (tag :: rest) = Raise AssertionError).
  { unfold unpack_message, generate_struct_decode, can_process.
    cbn [index nth_error bind]. now rewrite Hnone. }
  split; [exact Hu|]. split.
  - unfold explain_message. now rewrite Hu.
  - intros Hlen following. unfold read.
    now rewrite read_payload_wire_frame, Hu.
Qed.

Lemma unknown_payload_errors_witness :
  unpack_message (0x55 :: [0x01]) = Raise AssertionError
  /\ read (_prepare_write (0x55 :: [0x01]) ++ [0x7E])
     = (Raise AssertionError, [0x7E]).
Proof.
  destruct (unknown_payload_errors 0x55 [0x01]) as [_ [_ H]].
  destruct (H eq_refl) as [H1 [_ H3]].
  split; [exact H1 | exact (H3 eq_refl [0x7E])].
Defined.

(** Try every payload length below the bound. *)
Ltac too_short msg Hlen :=
  destruct msg as [|? msg];
  [ reflexivity
  | first [ exfalso; unfold len in Hlen; simpl List.length in Hlen; lia
          | too_short msg Hlen ] ].

(** X14.  A payload of a registered schema that is shorter than the tag
    plus the fields of declared length is rejected by [unpack_message]
    with a struct error. *)
Theorem truncated_payload_rejected (tag : Z) (t : template) (msg : list Z) :
  lookup tag templates = Some t ->
  hd_error msg = Some tag ->
  len msg < min_length t ->
  unpack_message msg = Raise StructError.
Proof.
  intros Ht Hhd Hlen.
  destruct msg as [|m0 msg]; [discriminate|]. injection Hhd as ->.
  registered Ht; unfold min_length in Hlen; cbn in Hlen;
    too_short msg Hlen.
Qed.

Lemma truncated_payload_rejected_witness :
  unpack_message [0x8B; 0x05; 0x00] = Raise StructError.
Proof.
  apply (truncated_payload_rejected 0x8B
           (Template "Transmit Status Frame"
              [ Field "Frame ID" 4 1 "uint8_t" [];
                Field "Reserved" 5 2 "uint16_t" [];
                Field "Transmit Retry Count" 7 1 "uint8_t" [];
                Field "Delivery Status" 8 1 "uint8_t" [];
                Field "Discovery Status" 9 1 "uint8_t" [] ]));
    reflexivity.
Defined.

End SchemaErrors.

(* ================================================================== *)
(** * The schema 0x09 and the explanation of a frame *)

Section Explain.

(** X15.  The table entry 0x09 gives its last field no datatype (the word
    "optional" stands in its place), so the decoder allots it no struct
    item: a payload with tag 0x09 is decoded only if it is exactly four
    bytes long, and any 0x09 payload that carries a parameter value is
    rejected with a struct error. *)
Theorem queue_parameter_frame_undecodable (rest : list Z) :
  len (0x09 :: rest) <> 4 ->
  unpack_message (0x09 :: rest) = Raise StructError.
Proof.
  intro Hlen. unfold unpack_message.
  replace (generate_struct_decode (0x09 :: rest))
    with (Ok ([FB; FB; Fc 2], [0; 1; 2; 2])) by reflexivity.
  cbn [bind]. unfold struct_unpack.
  change (calcsize [FB; FB; Fc 2]) with (Ok 4). cbn [bind].
  apply Z.eqb_neq in Hlen. now rewrite Hlen.
Qed.

Lemma queue_parameter_frame_undecodable_witness :
  unpack_message (0x09 :: [0x01; 0x4E; 0x49; 0x05]) = Raise StructError.
Proof.
  apply (queue_parameter_frame_undecodable [0x01; 0x4E; 0x49; 0x05]).
  discriminate.
Defined.

Lemma dict_set_fresh (d : dict) (k : string) (v : value) :
  ~ In k (map fst d) -> dict_set d k v = d ++ [(k, v)].
Proof.
  induction d as [|[k' v'] d IH]; intro Hk; [reflexivity|].
  cbn [dict_set]. destruct (String.eqb k' k) eqn:E.
  - apply String.eqb_eq in E. subst. exfalso. apply Hk. now left.
  - cbn [app]. rewrite IH; [reflexivity|].
    intro Hin. apply Hk. now right.
Qed.

Lemma explain_fields_spec (data : list value) (fields : list field) :
  forall (i : nat) (d0 : dict),
    NoDup (map fst d0 ++ map fname fields) ->
    explain_fields data (Z.of_nat i) fields d0
    = d0 ++ map (fun p => (fname (snd p), nth (fst p) data VNone))
              (combine (seq i (List.length fields)) fields).
Proof.
  induction fields as [|f r IH]; intros i d0 Hnd.
  - cbn. now rewrite app_nil_r.
  - cbn [explain_fields List.length seq combine map].
    assert (Hv : forall d,
      (if Z.of_nat i <? len data
       then explain_fields data (Z.of_nat i + 1) r
              (dict_set d (fname f)
                 (nth (Z.to_nat (Z.of_nat i)) data VNone))
       else explain_fields data (Z.of_nat i + 1) r
              (dict_set d (fname f) VNone))
      = explain_fields data (Z.of_nat (S i)) r
          (dict_set d (fname f) (nth i data VNone))).
    { intro d. rewrite Nat2Z.id.
      replace (Z.of_nat i + 1) with (Z.of_nat (S i)) by lia.
      destruct (Z.of_nat i <? len data) eqn:E; [reflexivity|].
      apply Z.ltb_ge in E. rewrite nth_overflow; [reflexivity|].
      unfold len in E. lia. }
    rewrite Hv.
    assert (Hfresh : ~ In (fname f) (map fst d0)).
    { intro Hin. cbn [map] in Hnd. apply NoDup_remove_2 in Hnd.
      apply Hnd. apply in_or_app. now left. }
    rewrite dict_set_fresh by assumption.
    rewrite IH.
    + now rewrite <- app_assoc.
    + rewrite map_app. cbn [map fst]. rewrite <- app_assoc. exact Hnd.
Qed.

(** In every registered schema the field names are distinct and none is
    "Name". *)
Lemma registered_names_distinct (tag : Z) (t : template) :
  lookup tag templates = Some t ->
  NoDup ("Name"%string :: map fname (tfields t)).
Proof.
  intro Ht.
  registered Ht; cbn [map tfields fname];
    repeat (constructor;
            [cbn [In]; intuition discriminate|]);
    constructor.
Qed.

(** X16.  Whenever [unpack_message] succeeds on a payload,
    [explain_message] succeeds too, and its dict holds the schema name
    under "Name" followed by every field name of the schema, in schema
    order, each bound to the decoded value at the field's index, or to
    [None] when the decoded frame has no such element. *)
Theorem explain_message_lists_every_field (msg : list Z) (data : frame) :
  unpack_message msg = Ok data ->
  exists tag t,
    hd_error msg = Some tag /\ lookup tag templates = Some t
    /\ explain_message msg = Ok (explanation_of t data).
Proof.
  intro Hu. unfold explain_message. rewrite Hu. cbn [bind].
  unfold unpack_message, generate_struct_decode, can_process in Hu.
  destruct msg as [|tag rest]; [discriminate|].
  cbn [index nth_error bind] in *.
  unfold get_template in *.
  destruct (lookup tag templates) as [t|] eqn:Ht; [|discriminate].
  exists tag, t. split; [reflexivity|]. split; [exact Ht|].
  cbn [bind]. f_equal. unfold explanation_of.
  apply (explain_fields_spec data (tfields t) 1
           [("Name"%string, VStr (code_points (tname t)))]).
  cbn [map fst app]. now apply (registered_names_distinct tag).
Qed.

Lemma explain_message_lists_every_field_witness :
  exists tag t,
    hd_error [0x88; 0x01; 0x4E; 0x49; 0x00] = Some tag
    /\ lookup tag templates = Some t
    /\ explain_message [0x88; 0x01; 0x4E; 0x49; 0x00]
       = Ok (explanation_of t [VInt 0x88; VInt 1; VStr [78; 73]; VInt 0]).
Proof.
  apply (explain_message_lists_every_field [0x88; 0x01; 0x4E; 0x49; 0x00]
           [VInt 0x88; VInt 1; VStr [78; 73]; VInt 0]).
  reflexivity.
Defined.

End Explain.

(* ================================================================== *)
(** * The strict check of [discard_until_frame_id] *)

Section StrictCheck.

Variable target_id : Z.

Lemma py_eqb_int_sym (v : value) (n : Z) :
  py_eqb v (VInt n) = py_eqb (VInt n) v.
Proof. destruct v; cbn [py_eqb]; auto using Z.eqb_sym. Qed.

Lemma stray_uncorrelated (f : frame) :
  correlates target_id f = false ->
  stray target_id f = negb (py_eqb (nth 0 f VNone) (VInt 0x8B)).
Proof.
  unfold correlates, stray. intro H.
  destruct f as [|a [|b f']]; cbn [nth nth_error] in *.
  - reflexivity.
  - now rewrite andb_true_r.
  - rewrite (py_eqb_int_sym b target_id), H. now rewrite andb_true_r.
Qed.

Lemma existsb_stray_uncorrelated (frames : list frame) :
  existsb (correlates target_id) frames = false ->
  existsb (stray target_id) frames
  = existsb (fun f => negb (py_eqb (nth 0 f VNone) (VInt 0x8B))) frames.
Proof.
  induction frames as [|f r IH]; [reflexivity|].
  cbn [existsb]. intro H. apply orb_false_iff in H as [Hf Hr].
  now rewrite (stray_uncorrelated f Hf), IH.
Qed.

(** The wait stops at the first frame that carries the target at index 1,
    so no collected frame before the last carries it. *)
Lemma collected_before_last_uncorrelated (polls : list (list Z)) (c : conn)
  (frames : list frame) :
  byte_stream polls c = true ->
  fst (read_until_frame_id target_id polls c) = Ok frames ->
  existsb (correlates target_id) (removelast frames) = false.
Proof.
  intros Hb H. unfold read_until_frame_id in H.
  destruct (target_id =? 0) eqn:E.
  - rewrite read_until_loop_matched in H by exact E.
    now injection H as <-.
  - rewrite read_until_loop_spec in H by assumption.
    destruct (receive_all polls c) as [fs err].
    pose proof (up_to_match_stops target_id fs) as Hstop.
    destruct (up_to_match target_id fs) as [l [|]]; cbn [fst app] in *.
    + now injection H as <-.
    + destruct err; [discriminate|]. now injection H as <-.
Qed.

(** X17.  In strict mode the test [result[i][1] != target_id] never
    decides anything: on a connection that delivers bytes, the strict
    [discard_until_frame_id] raises "Discarded valid packet!" exactly when
    some collected frame other than the last is not of type 0x8B. *)
Theorem strict_discard_depends_on_type_only (polls : list (list Z))
  (c : conn) :
  byte_stream polls c = true ->
  fst (discard_until_frame_id target_id true polls c)
  = match fst (read_until_frame_id target_id polls c) with
    | Raise e => Raise e
    | Ok frames =>
      if existsb (fun f => negb (py_eqb (nth 0 f VNone) (VInt 0x8B)))
           (removelast frames)
      then Raise DiscardedValidPacket
      else Ok (last frames [])
    end.
Proof.
  intro Hb. rewrite discard_until_frame_id_spec.
  destruct (fst (read_until_frame_id target_id polls c)) as [frames|e] eqn:E;
    [|reflexivity].
  cbn [andb].
  rewrite existsb_stray_uncorrelated; [reflexivity|].
  now apply (collected_before_last_uncorrelated polls c).
Qed.

End StrictCheck.

Lemma strict_discard_depends_on_type_only_witness :
  fst (discard_until_frame_id 5 true
         [_prepare_write [0x8A; 0x06];
          _prepare_write [0x8B; 0x05; 0; 0; 0; 0; 0]] [])
  = Raise DiscardedValidPacket.
Proof.
  exact (eq_trans
           (strict_discard_depends_on_type_only 5
              [_prepare_write [0x8A; 0x06];
               _prepare_write [0x8B; 0x05; 0; 0; 0; 0; 0]] [] eq_refl)
           eq_refl).
Defined.

(* ================================================================== *)
(** * Text arguments on the packing side

    [generate_struct_encode] gives a [str] argument one character item
    ([byte_length = 1] unless the argument is a [bytes] object), while
    [pack_message] hands [struct.pack] one item per character.  A schema's
    text fields are two characters long, so the two never agree. *)

Section TextArguments.

(** Too many items for a trailing character run: the run consumes all but
    one of them. *)
Lemma pack_chars_shifted (b : list Z) : forall c,
  exists bs v, pack_chars (List.length b) (map (fun x => VBytes [x]) (c :: b)) = Ok (bs, [v]).
Proof.
  induction b as [|x b IH]; intro c.
  - cbn. eauto.
  - destruct (IH x) as [bs [v H]]. cbn [List.length map pack_chars] in *.
    rewrite H. cbn. eauto.
Qed.

(** A legal value of a two-character text field. *)
Lemma legal_str_value (f : field) (v : value) :
  ftype f = "str"%string -> flen f = 2 -> legal_value f v = true ->
  exists c1 c2, v = VStr [c1; c2] /\ (c1 <? 128) = true /\ (c2 <? 128) = true.
Proof.
  intros Hty Hlen H. destruct v as [x|s|b|]; cbn [legal_value] in H;
    rewrite ?Hty in H; try discriminate.
  rewrite Hlen in H.
  apply andb_true_iff in H as [H Hl]. apply andb_true_iff in H as [_ Ha].
  cbn [Z.eqb orb] in Hl. apply Z.eqb_eq in Hl.
  destruct s as [|c1 [|c2 [|c3 s]]]; try discriminate Hl.
  - exists c1, c2. cbn [forallb] in Ha. unfold is_ascii in Ha.
    repeat (apply andb_true_iff in Ha; destruct Ha as [? Ha]).
    repeat match goal with
           | H : (_ && _) = true |- _ => apply andb_true_iff in H; destruct H
           end. auto.
  - exfalso. unfold len in Hl. simpl List.length in Hl. lia.
Qed.

Lemma legal_bytes_only (f : field) (v : value) :
  ftype f = "bytes"%string -> legal_value f v = true -> exists b, v = VBytes b.
Proof.
  intros Hty H. destruct v as [x|s|b|]; cbn [legal_value] in H;
    rewrite ?Hty in H; try discriminate. eauto.
Qed.

Lemma encode_ascii_two (c1 c2 : Z) :
  (c1 <? 128) = true -> (c2 <? 128) = true ->
  encode_ascii [c1; c2] = Ok [VBytes [c1]; VBytes [c2]].
Proof. intros H1 H2. cbn. now rewrite H1, H2. Qed.

(** An integer item in range passes on to the rest of the format. *)
Lemma struct_pack_int_raise (it : fmt_item) (r : list fmt_item) (x : Z)
    (rest : list value) (e : error) :
  (forall n, it <> Fc n) -> 0 <= x < 256 ^ Z.of_nat (item_width it) ->
  struct_pack r rest = Raise e ->
  struct_pack (it :: r) (VInt x :: rest) = Raise e.
Proof.
  intros Hit Hx Hr.
  destruct it as [| | |n]; try (exfalso; apply (Hit n); reflexivity);
    cbn [struct_pack]; rewrite (pack_int_in_range _ _ Hx); cbn [bind];
    rewrite Hr; reflexivity.
Qed.

(** The text field is followed by the variable byte field: one item is
    left over at the end of the format. *)
Lemma struct_pack_text_then_bytes (c1 c2 : Z) (b : list Z) :
  struct_pack [Fc 1; Fc (len b)]
    ([VBytes [c1]; VBytes [c2]] ++ map (fun y => VBytes [y]) b)
  = Raise StructError.
Proof.
  destruct (pack_chars_shifted b c2) as [bs [v H]].
  cbn [struct_pack app Z.ltb Z.compare Z.to_nat Pos.to_nat Pos.iter_op
       pack_chars bind].
  replace (len b <? 0) with false
    by (symmetry; apply Z.ltb_ge; unfold len; lia).
  unfold len. rewrite Nat2Z.id. cbn [map] in H.
  change (Pos.to_nat 1) with 1%nat. cbn [pack_chars bind].
  rewrite H. reflexivity.
Qed.

(** The text field is followed by an integer field: the integer item
    receives the second character. *)
Lemma struct_pack_text_then_int (c1 c2 : Z) (it : fmt_item)
    (r : list fmt_item) (rest : list value) :
  (forall n, it <> Fc n) ->
  struct_pack (Fc 1 :: it :: r) (VBytes [c1] :: VBytes [c2] :: rest)
  = Raise StructError.
Proof.
  intro Hit.
  destruct it as [| | |n]; try (exfalso; apply (Hit n); reflexivity);
    reflexivity.
Qed.

Ltac legal_split Hl :=
  cbn [legal_values] in Hl;
  repeat (let H := fresh "Hv" in
          apply andb_true_iff in Hl; destruct Hl as [H Hl]).

Ltac wrong_arity Hl :=
  cbn in Hl; rewrite ?andb_false_r in Hl; discriminate Hl.

Ltac start_pack :=
  unfold pack_message, generate_struct_encode;
  cbn [index nth_error bind bytes_of_int Z.leb Z.ltb Z.compare Pos.compare
       Pos.compare_cont andb];
  unfold can_process, get_template;
  cbn [index nth_error bind lookup templates Z.eqb Pos.eqb negb tl tfields
       encode_fields ftype String.eqb Ascii.eqb Bool.eqb orb app].

Ltac int_item := apply struct_pack_int_raise; [discriminate | assumption |].

(** X18.  For every registered schema that has a text field, and every
    argument list that gives each field a value of its declared type and
    length (the text field a two-character ASCII [str]), [pack_message]
    raises [struct.error]: no frame with a text field can be built from a
    [str] argument. *)
Theorem text_argument_never_packs (tag : Z) (t : template)
  (args : list value) :
  lookup tag templates = Some t -> has_str_field t = true ->
  legal_args tag args = true -> pack_message args = Raise StructError.
Proof.
  intros Ht Hs Hl. unfold legal_args in Hl. rewrite Ht in Hl.
  destruct args as [|[a0| | |] vals]; try discriminate.
  apply andb_true_iff in Hl as [Ha Hl]. apply Z.eqb_eq in Ha. subst a0.
  registered Ht; try discriminate Hs; clear Hs; cbn [tfields] in Hl.
  - (* 0x08: Frame ID, AT Command (str), Parameter Value (bytes) *)
    destruct vals as [|v1 [|v2 [|v3 [|v4 vals]]]]; try wrong_arity Hl.
    legal_split Hl.
    apply legal_int_value in Hv as [x [-> Hx]]; [|reflexivity].
    apply legal_str_value in Hv0 as [c1 [c2 [-> [Hc1 Hc2]]]];
      [|reflexivity|reflexivity].
    apply legal_bytes_only in Hv1 as [b ->]; [|reflexivity].
    start_pack.
    match goal with
    | |- context [pack_args ?t 0 ?a []] =>
      replace (pack_args t 0 a [])
        with (Ok ([VInt 8; VInt x; VBytes [c1]; VBytes [c2]]
                  ++ map (fun y => VBytes [y]) b))
        by (cbn -[encode_ascii]; rewrite encode_ascii_two by assumption;
            reflexivity)
    end.
    cbn [bind].
    change ([VInt 8; VInt x; VBytes [c1]; VBytes [c2]]
            ++ map (fun y => VBytes [y]) b)
      with (VInt 8 :: VInt x :: ([VBytes [c1]; VBytes [c2]]
            ++ map (fun y => VBytes [y]) b)).
    apply struct_pack_int_raise; [discriminate | cbn; lia |].
    int_item. apply struct_pack_text_then_bytes.
  - (* 0x09: the third field has no supported type, so no value is legal *)
    destruct vals as [|v1 [|v2 [|v3 [|v4 vals]]]]; try wrong_arity Hl.
    legal_split Hl. destruct v3; discriminate Hv1.
  - (* 0x17 *)
    destruct vals as [|v1 [|v2 [|v3 [|v4 [|v5 [|v6 [|v7 vals]]]]]]];
      try wrong_arity Hl.
    legal_split Hl.
    apply legal_int_value in Hv as [x1 [-> Hx1]]; [|reflexivity].
    apply legal_int_value in Hv0 as [x2 [-> Hx2]]; [|reflexivity].
    apply legal_int_value in Hv1 as [x3 [-> Hx3]]; [|reflexivity].
    apply legal_int_value in Hv2 as [x4 [-> Hx4]]; [|reflexivity].
    apply legal_str_value in Hv3 as [c1 [c2 [-> [Hc1 Hc2]]]];
      [|reflexivity|reflexivity].
    apply legal_bytes_only in Hv4 as [b ->]; [|reflexivity].
    start_pack.
    match goal with
    | |- context [pack_args ?t 0 ?a []] =>
      replace (pack_args t 0 a [])
        with (Ok (VInt 23 :: VInt x1 :: VInt x2 :: VInt x3 :: VInt x4
                  :: ([VBytes [c1]; VBytes [c2]]
                      ++ map (fun y => VBytes [y]) b)))
        by (cbn -[encode_ascii]; rewrite encode_ascii_two by assumption;
            reflexivity)
    end.
    cbn [bind].
    apply struct_pack_int_raise; [discriminate | cbn; lia |].
    do 4 int_item. apply struct_pack_text_then_bytes.
  - (* 0x88 *)
    destruct vals as [|v1 [|v2 [|v3 [|v4 [|v5 vals]]]]]; try wrong_arity Hl.
    legal_split Hl.
    apply legal_int_value in Hv as [x1 [-> Hx1]]; [|reflexivity].
    apply legal_str_value in Hv0 as [c1 [c2 [-> [Hc1 Hc2]]]];
      [|reflexivity|reflexivity].
    apply legal_int_value in Hv1 as [x2 [-> Hx2]]; [|reflexivity].
    apply legal_bytes_only in Hv2 as [b ->]; [|reflexivity].
    start_pack.
    match goal with
    | |- context [pack_args ?t 0 ?a []] =>
      replace (pack_args t 0 a [])
        with (Ok (VInt 136 :: VInt x1 :: VBytes [c1] :: VBytes [c2]
                  :: VInt x2 :: map (fun y => VBytes [y]) b))
        by (cbn -[encode_ascii]; rewrite encode_ascii_two by assumption;
            reflexivity)
    end.
    cbn [bind].
    apply struct_pack_int_raise; [discriminate | cbn; lia |].
    int_item. apply struct_pack_text_then_int. discriminate.
  - (* 0x97 *)
    destruct vals as [|v1 [|v2 [|v3 [|v4 [|v5 [|v6 [|v7 vals]]]]]]];
      try wrong_arity Hl.
    legal_split Hl.
    apply legal_int_value in Hv as [x1 [-> Hx1]]; [|reflexivity].
    apply legal_int_value in Hv0 as [x2 [-> Hx2]]; [|reflexivity].
    apply legal_int_value in Hv1 as [x3 [-> Hx3]]; [|reflexivity].
    apply legal_str_value in Hv2 as [c1 [c2 [-> [Hc1 Hc2]]]];
      [|reflexivity|reflexivity].
    apply legal_int_value in Hv3 as [x4 [-> Hx4]]; [|reflexivity].
    apply legal_bytes_only in Hv4 as [b ->]; [|reflexivity].
    start_pack.
    match goal with
    | |- context [pack_args ?t 0 ?a []] =>
      replace (pack_args t 0 a [])
        with (Ok (VInt 151 :: VInt x1 :: VInt x2 :: VInt x3
                  :: VBytes [c1] :: VBytes [c2]
                  :: VInt x4 :: map (fun y => VBytes [y]) b))
        by (cbn -[encode_ascii]; rewrite encode_ascii_two by assumption;
            reflexivity)
    end.
    cbn [bind].
    apply struct_pack_int_raise; [discriminate | cbn; lia |].
    do 3 int_item. apply struct_pack_text_then_int. discriminate.
Qed.

End TextArguments.

Lemma text_argument_never_packs_witness :
  pack_message [VInt 0x08; VInt 1; VStr [78; 73]; VBytes [1]]
  = Raise StructError.
Proof.
  exact (text_argument_never_packs 0x08 _
           [VInt 0x08; VInt 1; VStr [78; 73]; VBytes [1]]
           eq_refl eq_refl eq_refl).
Defined.
